(** * Price direction predictor: a shallow embedding of [train.py]

    The development follows [src/models/price_predictor/train.py]:
    the two-layer classifier [PricePredictor] (forward, backward, loss,
    accuracy, export), the synthetic data generator and the training loop.

    Conventions of the embedding.
    - A numpy [float64] is a real number ([R]); rounding, [nan] and [inf]
      are not represented.  Where numpy would produce [nan] or [inf] from
      a division by a zero count (with a [RuntimeWarning]), the embedding
      returns the error [DivideByZero].  For [softmax], whose properties
      depend on rounding, the class [Rounded] gives the binary64
      operations with the laws of round-to-nearest, and [softmax_rounded]
      is the same code over them.
    - A 2-D array is the list of its rows ([ndarray.tolist()]); a 1-D array
      is a list.  A list of rows cannot carry the second dimension of an
      array that has no row, so the few operations that need it take it as
      an argument [d], used for that case only.
    - Exceptions ([ValueError] for operands of incompatible shape or for a
      reduction over an empty axis, [AttributeError], [ZeroDivisionError],
      [IndexError]) are values of the error monad [res].  Operands of
      different shape that numpy would broadcast are rejected with
      [ShapeMismatch]; the program never builds such operands.
    - [numpy.random] is an explicit generator state threaded through the
      code ([RandomState]); console output is left out. *)

From stdpp Require Import gmap strings.
From Stdlib Require Import String Ascii DecimalString.
From Stdlib Require Floats.
From Stdlib Require Import Reals Lra Lia ZArith Bool Arith Permutation List.
Import ListNotations.

Local Open Scope R_scope.

(** ** Errors *)

Inductive error : Type :=
| ShapeMismatch      (* ValueError: operands could not be broadcast / not aligned *)
| EmptyReduction     (* ValueError: reduction over an axis of size zero *)
| DivideByZero       (* division by a zero count: nan/inf in numpy, ZeroDivisionError for scalars *)
| MissingActivations (* AttributeError: backward before any forward *)
| IndexOutOfRange    (* IndexError *)
| EmptyRange.        (* ValueError: randint over an empty range *)

Inductive res (A : Type) : Type :=
| Ok (a : A)
| Err (e : error).

Arguments Ok {A} a.
Arguments Err {A} e.

Definition bind {A B : Type} (c : res A) (k : A -> res B) : res B :=
  match c with
  | Ok a => k a
  | Err e => Err e
  end.

Notation "'let*' x ':=' c 'in' k" := (bind c (fun x => k))
  (at level 10, x name, c at level 100, k at level 200).
Notation "'let*' ' p ':=' c 'in' k" :=
  (bind c (fun x => match x with p => k end))
  (at level 10, p pattern, c at level 100, k at level 200).

Fixpoint mapM {A B : Type} (f : A -> res B) (l : list A) : res (list B) :=
  match l with
  | [] => Ok []
  | a :: t => let* b := f a in let* bs := mapM f t in Ok (b :: bs)
  end.

(** ** Arrays *)

Abbreviation vec := (list R) (only parsing).
Abbreviation mat := (list (list R)) (only parsing).

Definition has_shape (m n : nat) (A : mat) : bool :=
  (length A =? m)%nat && forallb (fun r => (length r =? n)%nat) A.

(** [A.shape[1]]; [d] stands for it when [A] has no row. *)
Definition ncols (d : nat) (A : mat) : nat :=
  match A with
  | [] => d
  | r :: _ => length r
  end.

Definition same_shape (A B : mat) : bool :=
  (length A =? length B)%nat &&
  forallb (fun '(r, s) => (length r =? length s)%nat) (combine A B).

Definition sum (v : vec) : R := fold_right Rplus 0 v.

Definition column (j : nat) (A : mat) : vec := map (fun r => nth j r 0) A.

(** [A.T] *)
Definition transpose (d : nat) (A : mat) : mat :=
  map (fun j => column j A) (seq 0 (ncols d A)).

Definition inner (u v : vec) : R :=
  sum (map (fun '(a, b) => a * b) (combine u v)).

(** [np.dot(A, B)] for 2-D operands; [d] is [B.shape[1]] when [B] has no row. *)
Definition dot (d : nat) (A B : mat) : res mat :=
  if forallb (fun r => (length r =? length B)%nat) A
  then Ok (map (fun r => map (fun j => inner r (column j B)) (seq 0 (ncols d B))) A)
  else Err ShapeMismatch.

Definition zip_with (f : R -> R -> R) (u v : vec) : vec :=
  map (fun '(a, b) => f a b) (combine u v).

(** Elementwise binary operation on two 1-D arrays of the same length. *)
Definition vec_op (f : R -> R -> R) (u v : vec) : res vec :=
  if (length u =? length v)%nat then Ok (zip_with f u v) else Err ShapeMismatch.

(** Elementwise binary operation on two 2-D arrays of the same shape. *)
Definition mat_op (f : R -> R -> R) (A B : mat) : res mat :=
  if same_shape A B
  then Ok (map (fun '(r, s) => zip_with f r s) (combine A B))
  else Err ShapeMismatch.

(** [A + b] with the 1-D array [b] broadcast over the rows of [A]. *)
Definition add_rowvec (A : mat) (b : vec) : res mat :=
  if forallb (fun r => (length r =? length b)%nat) A
  then Ok (map (fun r => zip_with Rplus r b) A)
  else Err ShapeMismatch.

(** [c * A] for a scalar [c]. *)
Definition scale (c : R) (A : mat) : mat := map (map (Rmult c)) A.
Definition scale_vec (c : R) (v : vec) : vec := map (Rmult c) v.

(** An array without any entry: some dimension is zero. *)
Definition no_entry (A : mat) : bool :=
  forallb (fun r => (length r =? 0)%nat) A.

(** [A / m] for an integer count [m]: every entry is divided, so a zero
    count goes unnoticed on an array without entry. *)
Definition div_count (A : mat) (m : nat) : res mat :=
  if (m =? 0)%nat && negb (no_entry A) then Err DivideByZero
  else Ok (map (map (fun v => v / INR m)) A).

Definition div_count_vec (v : vec) (m : nat) : res vec :=
  if (m =? 0)%nat && negb (length v =? 0)%nat then Err DivideByZero
  else Ok (map (fun x => x / INR m) v).

(** [np.sum(A, axis=0)] *)
Definition sum_axis0 (d : nat) (A : mat) : vec :=
  map (fun j => sum (column j A)) (seq 0 (ncols d A)).

(** [np.sum(A, axis=1)] *)
Definition sum_axis1 (A : mat) : vec := map sum A.

(** [np.mean(v)] of a 1-D array. *)
Definition mean (v : vec) : res R :=
  match v with
  | [] => Err DivideByZero
  | _ => Ok (sum v / INR (length v))
  end.

(** ** The classifier: [class PricePredictor] *)

(** The activations that [forward] stores on the object. *)
Record activations : Type := mk_activations {
  z1 : mat;
  a1 : mat;
  z2 : mat;
  a2 : mat
}.

(** The fields of a [PricePredictor].  [cache] is [None] until the first
    [forward]: the four attributes do not exist before. *)
Record model : Type := mk_model {
  input_size : nat;
  hidden_size : nat;
  output_size : nat;
  W1 : mat;
  b1 : vec;
  W2 : mat;
  b2 : vec;
  cache : option activations
}.

Definition set_cache (st : model) (c : activations) : model :=
  mk_model (input_size st) (hidden_size st) (output_size st)
           (W1 st) (b1 st) (W2 st) (b2 st) (Some c).

Definition set_params (st : model) (w1 : mat) (c1 : vec) (w2 : mat) (c2 : vec)
  : model :=
  mk_model (input_size st) (hidden_size st) (output_size st)
           w1 c1 w2 c2 (cache st).

(** [np.maximum(0, x)] *)
Definition relu (x : mat) : mat := map (map (Rmax 0)) x.

(** [(x > 0).astype(float)] *)
Definition relu_derivative (x : mat) : mat :=
  map (map (fun v => if Rlt_dec 0 v then 1 else 0)) x.

(** [np.max(x, axis=-1, keepdims=True)]: one maximum per row. *)
Definition row_max (r : vec) : res R :=
  match r with
  | [] => Err EmptyReduction
  | v :: t => Ok (fold_left Rmax t v)
  end.

Definition max_axis1 (x : mat) : res (list R) := mapM row_max x.

(** [A op c] with one value of [c] per row of [A] ([keepdims] broadcast). *)
Definition row_op (f : R -> R -> R) (A : mat) (c : list R) : mat :=
  map (fun '(r, k) => map (fun v => f v k) r) (combine A c).

Definition softmax (x : mat) : res mat :=
  let* mx := max_axis1 x in
  let exp_x := map (map exp) (row_op Rminus x mx) in
  Ok (row_op Rdiv exp_x (sum_axis1 exp_x)).

Definition forward (st : model) (x : mat) : res (mat * model) :=
  let* xw := dot (hidden_size st) x (W1 st) in
  let* z1 := add_rowvec xw (b1 st) in
  let a1 := relu z1 in
  let* aw := dot (output_size st) a1 (W2 st) in
  let* z2 := add_rowvec aw (b2 st) in
  let* a2 := softmax z2 in
  Ok (a2, set_cache st (mk_activations z1 a1 z2 a2)).

Definition activations_of (st : model) : res activations :=
  match cache st with
  | Some c => Ok c
  | None => Err MissingActivations
  end.

Definition backward (st : model) (x y : mat) (learning_rate : R) : res model :=
  let m := length x in
  let* c := activations_of st in
  (* Output layer gradients *)
  let* dz2 := mat_op Rminus (a2 c) y in
  let* a1t_dz2 := dot (output_size st) (transpose (hidden_size st) (a1 c)) dz2 in
  let* dW2 := div_count a1t_dz2 m in
  let* db2 := div_count_vec (sum_axis0 (output_size st) dz2) m in
  (* Hidden layer gradients *)
  let* da1 := dot (hidden_size st) dz2 (transpose (output_size st) (W2 st)) in
  let* dz1 := mat_op Rmult da1 (relu_derivative (z1 c)) in
  let* xt_dz1 := dot (hidden_size st) (transpose (input_size st) x) dz1 in
  let* dW1 := div_count xt_dz1 m in
  let* db1 := div_count_vec (sum_axis0 (hidden_size st) dz1) m in
  (* Update weights *)
  let* W2' := mat_op Rminus (W2 st) (scale learning_rate dW2) in
  let* b2' := vec_op Rminus (b2 st) (scale_vec learning_rate db2) in
  let* W1' := mat_op Rminus (W1 st) (scale learning_rate dW1) in
  let* b1' := vec_op Rminus (b1 st) (scale_vec learning_rate db1) in
  Ok (set_params st W1' b1' W2' b2').

(** [np.clip(v, lo, hi)] is [minimum(maximum(v, lo), hi)]. *)
Definition clip (lo hi v : R) : R := Rmin (Rmax v lo) hi.

Definition epsilon : R := 1e-15.

Definition compute_loss (y_pred y_true : mat) : res R :=
  let y_pred := map (map (clip epsilon (1 - epsilon))) y_pred in
  let* prod := mat_op Rmult y_true (map (map ln) y_pred) in
  let* mu := mean (sum_axis1 prod) in
  Ok (- mu).

(** [np.argmax] of a 1-D array: the first index of the maximum. *)
Fixpoint argmax_from (best : R) (besti i : nat) (r : vec) : nat :=
  match r with
  | [] => besti
  | v :: t => if Rlt_dec best v then argmax_from v i (S i) t
              else argmax_from best besti (S i) t
  end.

Definition argmax (r : vec) : res nat :=
  match r with
  | [] => Err EmptyReduction
  | v :: t => Ok (argmax_from v 0%nat 1%nat t)
  end.

Definition accuracy (y_pred y_true : mat) : res R :=
  let* pred_labels := mapM argmax y_pred in
  let* true_labels := mapM argmax y_true in
  if (length pred_labels =? length true_labels)%nat
  then mean (map (fun '(p, t) => if (p =? t)%nat then 1 else 0)
                 (combine pred_labels true_labels))
  else Err ShapeMismatch.

(** ** The random source: [numpy.random]

    Each function takes the generator state and returns the draw with the
    next state.  The laws are the part of numpy's contract that the
    program relies on. *)

Class RandomState : Type := {
  rng : Type;
  (* np.random.choice(options, p=probabilities) *)
  random_choice : list Z -> list R -> rng -> Z * rng;
  (* np.random.uniform(low, high) *)
  random_uniform : R -> R -> rng -> R * rng;
  (* np.random.normal(loc, scale) *)
  random_normal : R -> R -> rng -> R * rng;
  (* np.random.randn(rows, cols) *)
  random_randn : nat -> nat -> rng -> mat * rng;
  (* np.random.permutation(n) *)
  random_permutation : nat -> rng -> list nat * rng;
  (* np.random.randint(n), for n > 0 *)
  random_randint : nat -> rng -> nat * rng;
  randn_shape : forall r c g, has_shape r c (fst (random_randn r c g)) = true;
  permutation_perm :
    forall n g, Permutation (seq 0 n) (fst (random_permutation n g));
  randint_lt : forall n g, (0 < n)%nat -> (fst (random_randint n g) < n)%nat
}.

(** [PricePredictor.__init__]; [2.0 / input_size] on Python scalars raises
    [ZeroDivisionError] for a zero size. *)
Definition init `{RandomState} (input_size hidden_size output_size : nat)
  (g : rng) : res (model * rng) :=
  let '(r1, g) := random_randn input_size hidden_size g in
  if (input_size =? 0)%nat then Err DivideByZero else
  let W1 := scale (sqrt (2.0 / INR input_size)) r1 in
  let b1 := repeat 0 hidden_size in
  let '(r2, g) := random_randn hidden_size output_size g in
  if (hidden_size =? 0)%nat then Err DivideByZero else
  let W2 := scale (sqrt (2.0 / INR hidden_size)) r2 in
  let b2 := repeat 0 output_size in
  Ok (mk_model input_size hidden_size output_size W1 b1 W2 b2 None, g).

(** ** The data generator: [generate_training_data] *)

(** Python's builtin [max(a, b)] and [min(a, b)]: the first argument is
    kept unless the second is strictly larger (smaller). *)
Definition py_max (a b : R) : R := if Rlt_dec a b then b else a.
Definition py_min (a b : R) : R := if Rlt_dec b a then b else a.

(** One pass of [for i in range(4)]: a new price is appended. *)
Definition price_step `{RandomState} (trend : Z) (acc : list R * rng)
  : list R * rng :=
  let '(prices, g) := acc in
  let '(u, g) := random_uniform 0.5 2.0 g in
  let '(e, g) := random_normal 0 1.5 g in
  let change := IZR trend * u + e in
  (prices ++ [List.last prices 0 + change], g).

(** [deltas = [(prices[i+1] - prices[i]) / prices[i] * 100 for i in range(4)]].
    The division is the total division of [R]; a price equal to zero,
    where numpy yields [inf] or [nan], is not represented. *)
Definition percent_deltas (prices : list R) : list R :=
  map (fun i => (nth (S i) prices 0 - nth i prices 0) / nth i prices 0 * 100)
      (seq 0 4).

(** [deltas = [min(max(d / 5.0, -1), 1) for d in deltas]] *)
Definition normalize (deltas : list R) : list R :=
  map (fun d => py_min (py_max (d / 5.0) (-1)) 1) deltas.

(** [total_change = (prices[-1] - prices[0]) / prices[0] * 100] *)
Definition total_change (prices : list R) : R :=
  (List.last prices 0 - nth 0 prices 0) / nth 0 prices 0 * 100.

(** The [if]/[elif]/[else] on [total_change]; the branches are commented
    UP, DOWN and SIDEWAYS in the source. *)
Definition label_of (total_change : R) : list Z :=
  if Rlt_dec 1.5 total_change then [1; 0; 0]%Z
  else if Rlt_dec total_change (-1.5) then [0; 1; 0]%Z
  else [0; 0; 1]%Z.

(** The five prices of one sample. *)
Definition gen_prices `{RandomState} (g : rng) : list R * rng :=
  let '(trend, g) := random_choice [-1; 0; 1]%Z [0.3; 0.4; 0.3] g in
  let base_price := 100 in
  fold_left (fun acc _ => price_step trend acc) (seq 0 4) ([base_price], g).

(** The body of the loop over samples. *)
Definition gen_sample `{RandomState} (g : rng) : (list R * list Z) * rng :=
  let '(prices, g) := gen_prices g in
  let deltas := percent_deltas prices in
  let deltas := normalize deltas in
  let label := label_of (total_change prices) in
  ((deltas, label), g).

Fixpoint generate_loop `{RandomState} (n : nat) (X : mat) (y : list (list Z))
  (g : rng) : (mat * list (list Z)) * rng :=
  match n with
  | O => ((X, y), g)
  | S k =>
      let '((deltas, label), g) := gen_sample g in
      generate_loop k (X ++ [deltas]) (y ++ [label]) g
  end.

Definition generate_training_data `{RandomState} (n_samples : nat) (g : rng)
  : (mat * list (list Z)) * rng :=
  generate_loop n_samples [] [] g.

(** ** The exporter: [PricePredictor.export_weights] *)

(** The values that [json.dump] receives here. *)
#[warnings="-register-all"]
Inductive json : Type :=
| JInt (n : Z)
| JFloat (r : R)
| JString (s : string)
| JList (items : list json)
| JDict (fields : list (string * json)).

(** [ndarray.tolist()] for 1-D and 2-D arrays. *)
Definition vec_tolist (v : vec) : json := JList (map JFloat v).
Definition mat_tolist (A : mat) : json := JList (map vec_tolist A).

Definition label_names : list string := ["UP"; "DOWN"; "SIDEWAYS"]%string.

(** The dictionary [weights] built by [export_weights]. *)
Definition weights_document (st : model) : json :=
  JDict [
    ("model", JString "price-predictor");
    ("version", JString "1.0.0");
    ("architecture", JDict [
      ("input_size", JInt (Z.of_nat (input_size st)));
      ("hidden_size", JInt (Z.of_nat (hidden_size st)));
      ("output_size", JInt (Z.of_nat (output_size st)));
      ("activation", JString "relu");
      ("output_activation", JString "softmax")
    ]);
    ("weights", JDict [
      ("W1", mat_tolist (W1 st));
      ("b1", vec_tolist (b1 st));
      ("W2", mat_tolist (W2 st));
      ("b2", vec_tolist (b2 st))
    ]);
    ("labels", JList (map JString label_names))
  ]%string.

(** [float.__repr__], the text that [json] writes for a float. *)
Class FloatRepr : Type := float_repr : R -> string.

Definition int_repr (n : Z) : string := NilZero.string_of_int (Z.to_int n).

(** A JSON string literal; only the quote and the backslash are escaped,
    the strings of [weights_document] hold no other character that
    [json] escapes. *)
Fixpoint escape (s : string) : string :=
  match s with
  | EmptyString => EmptyString
  | String c t =>
      if Ascii.eqb c "034"%char then String "\"%char (String c (escape t))
      else if Ascii.eqb c "\"%char then String "\"%char (String c (escape t))
      else String c (escape t)
  end.

Definition quote (s : string) : string :=
  String "034"%char (escape s +:+ String "034"%char EmptyString).

Fixpoint join (sep : string) (l : list string) : string :=
  match l with
  | [] => EmptyString
  | [s] => s
  | s :: t => s +:+ sep +:+ join sep t
  end.

Fixpoint spaces (n : nat) : string :=
  match n with
  | O => EmptyString
  | S k => String " "%char (spaces k)
  end.

(** ["\n" + indent * level] with [indent = 2]. *)
Definition newline_indent (level : nat) : string :=
  String "010"%char (spaces (2 * level)).

(** [json.dumps(value, indent=2)] at nesting depth [level]. *)
Fixpoint json_encode `{FloatRepr} (level : nat) (j : json) : string :=
  match j with
  | JInt n => int_repr n
  | JFloat r => float_repr r
  | JString s => quote s
  | JList [] => "[]"
  | JList items =>
      "[" +:+ newline_indent (S level)
      +:+ join ("," +:+ newline_indent (S level))
               (map (json_encode (S level)) items)
      +:+ newline_indent level +:+ "]"
  | JDict [] => "{}"
  | JDict fields =>
      "{" +:+ newline_indent (S level)
      +:+ join ("," +:+ newline_indent (S level))
               (map (fun kv => quote (fst kv) +:+ ": "
                               +:+ json_encode (S level) (snd kv)) fields)
      +:+ newline_indent level +:+ "}"
  end%string.

(** The files of the host, by path. *)
Abbreviation filesystem := (gmap string string) (only parsing).

(** [open(filepath, 'w')] followed by [json.dump(weights, f, indent=2)];
    a failing write is not represented. *)
Definition export_weights `{FloatRepr} (st : model) (filepath : string)
  (fs : filesystem) : filesystem :=
  <[filepath := json_encode 0 (weights_document st)]> fs.

(** ** The training loop: [train] *)

(** Python's [int(r)]: truncation towards zero. *)
Definition py_int (r : R) : Z :=
  if Rle_dec 0 r then Int_part r else (- Int_part (- r))%Z.

(** [split = int(0.8 * len(X))], in exact real arithmetic. *)
Definition split_index (n : nat) : nat := Z.to_nat (py_int (0.8 * INR n)).

Record dataset : Type := mk_dataset {
  X_train : mat;
  X_test : mat;
  y_train : list (list Z);
  y_test : list (list Z)
}.

(** [X_train, X_test = X[:split], X[split:]] and the same for [y]. *)
Definition split_dataset (X : mat) (y : list (list Z)) : dataset :=
  let split := split_index (length X) in
  mk_dataset (firstn split X) (skipn split X) (firstn split y) (skipn split y).

(** The integer labels enter the float arithmetic of the classifier. *)
Definition as_float (y : list (list Z)) : mat := map (map IZR) y.

(** [A[indices]] for an array of indices. *)
Definition take {A : Type} (indices : list nat) (l : list A) : res (list A) :=
  mapM (fun i => match nth_error l i with
                 | Some a => Ok a
                 | None => Err IndexOutOfRange
                 end) indices.

(** A metric is only printed: the mean over an empty batch is [nan] there
    and the run goes on ([None]); an exception stops the run. *)
Definition observe (c : res R) : res (option R) :=
  match c with
  | Ok v => Ok (Some v)
  | Err DivideByZero => Ok None
  | Err e => Err e
  end.

Record epoch_log : Type := mk_epoch_log {
  loss : option R;
  acc : option R;
  test_acc : option (option R)
}.

(** [(epoch + 1) % 10 == 0] *)
Definition is_eval_epoch (epoch : nat) : bool := ((epoch + 1) mod 10 =? 0)%nat.

(** The body of [for epoch in range(epochs)]; [evaluate] is the value of
    the test [(epoch + 1) % 10 == 0] that guards the evaluation pass. *)
Definition epoch_body `{RandomState} (evaluate : bool) (d : dataset)
  (learning_rate : R) (s : model * rng) : res (model * rng * epoch_log) :=
  let '(st, g) := s in
  (* Shuffle training data *)
  let '(indices, g) := random_permutation (length (X_train d)) g in
  let* X_shuffled := take indices (X_train d) in
  let* y_shuffled := take indices (y_train d) in
  (* Forward pass *)
  let* '(y_pred, st) := forward st X_shuffled in
  (* Compute metrics *)
  let* loss := observe (compute_loss y_pred (as_float y_shuffled)) in
  let* acc := observe (accuracy y_pred (as_float y_shuffled)) in
  (* Backward pass *)
  let* st := backward st X_shuffled (as_float y_shuffled) learning_rate in
  (* Print progress *)
  if evaluate then
    let* '(test_pred, st) := forward st (X_test d) in
    let* test_acc := observe (accuracy test_pred (as_float (y_test d))) in
    Ok (st, g, mk_epoch_log loss acc (Some test_acc))
  else Ok (st, g, mk_epoch_log loss acc None).

(** The loop over [epochs], the list [range(epochs)]; [schedule] tells
    for each epoch whether the evaluation pass runs. *)
Fixpoint run_epochs `{RandomState} (schedule : nat -> bool) (d : dataset)
  (learning_rate : R) (epochs : list nat) (s : model * rng)
  (history : list epoch_log) : res (model * rng * list epoch_log) :=
  match epochs with
  | [] => Ok (s, history)
  | epoch :: rest =>
      let* '(st, g, l) := epoch_body (schedule epoch) d learning_rate s in
      run_epochs schedule d learning_rate rest (st, g) (history ++ [l])
  end.

(** One pass of the closing [for i in range(5)], which prints a sample
    prediction; it calls [forward] on a one-row slice. *)
Definition sample_prediction `{RandomState} (d : dataset) (s : model * rng)
  : res (model * rng) :=
  let '(st, g) := s in
  if (length (X_test d) =? 0)%nat then Err EmptyRange else
  let '(idx, g) := random_randint (length (X_test d)) g in
  let* '(pred, st) := forward st (firstn 1 (skipn idx (X_test d))) in
  let* pred := match pred with r :: _ => Ok r | [] => Err IndexOutOfRange end in
  let* y_row := match nth_error (y_test d) idx with
                | Some r => Ok r
                | None => Err IndexOutOfRange
                end in
  let* t := argmax (map IZR y_row) in
  let* _ := match nth_error label_names t with
            | Some s => Ok s
            | None => Err IndexOutOfRange
            end in
  let* p := argmax pred in
  let* _ := match nth_error label_names p with
            | Some s => Ok s
            | None => Err IndexOutOfRange
            end in
  Ok (st, g).

Fixpoint sample_predictions `{RandomState} (d : dataset) (n : nat)
  (s : model * rng) : res (model * rng) :=
  match n with
  | O => Ok s
  | S k => let* s := sample_prediction d s in sample_predictions d k s
  end.

(** [Path(__file__).parent / "weights.json"] *)
Definition weights_path (script_dir : string) : string :=
  script_dir +:+ "/weights.json".

(** What a run leaves behind: the returned classifier, the metrics it
    printed, the files and the generator state. *)
Record train_result (G : Type) : Type := mk_train_result {
  trained : model;
  history : list epoch_log;
  final_acc : option R;
  files : filesystem;
  final_rng : G
}.

Arguments mk_train_result {G}.
Arguments trained {G}.
Arguments history {G}.
Arguments final_acc {G}.
Arguments files {G}.
Arguments final_rng {G}.

Definition train `{RandomState} `{FloatRepr} (script_dir : string)
  (epochs n_samples : nat) (learning_rate : R) (g : rng) (fs : filesystem)
  : res (train_result rng) :=
  (* Generate data *)
  let '((X, y), g) := generate_training_data n_samples g in
  (* Split into train/test *)
  let d := split_dataset X y in
  (* Class distribution: np.array of an empty list is 1-D, for which
     np.argmax(y_train, axis=1) raises AxisError *)
  if (length y =? 0)%nat then Err ShapeMismatch else
  (* Initialize model *)
  let* '(st, g) := init 4 16 3 g in
  let* '(st, g, history) :=
    run_epochs is_eval_epoch d learning_rate (seq 0 epochs) (st, g) [] in
  (* Final evaluation *)
  let* '(test_pred, st) := forward st (X_test d) in
  let* final_acc := observe (accuracy test_pred (as_float (y_test d))) in
  (* Export weights *)
  let fs := export_weights st (weights_path script_dir) fs in
  (* Print sample predictions *)
  let* '(st, g) := sample_predictions d 5 (st, g) in
  Ok (mk_train_result st history final_acc fs g).

(** ** Binary64 arithmetic, as far as [softmax] uses it

    numpy computes [softmax] on binary64 numbers, where every operation
    rounds.  The class collects the operations that [softmax] applies and
    the part of IEEE 754 arithmetic (round to nearest) that its analysis
    needs.  The finite binary64 numbers are the reals of [is_float]; for
    binary64, [roundoff] is [2^-53], [underflow] is [2^-1075] (half the
    least positive number) and [largest] is the largest finite number.
    Exact arithmetic on the reals satisfies the laws as well, with no
    rounding error. *)

(** An order in which [np.sum] adds the entries of an array: numpy fixes
    none, and adds longer arrays pairwise and in blocks. *)
Inductive sum_tree : Type :=
| Leaf (x : R)
| Node (l r : sum_tree).

Fixpoint leaves (t : sum_tree) : vec :=
  match t with
  | Leaf x => [x]
  | Node l r => leaves l ++ leaves r
  end.

Class Rounded : Type := {
  is_float : R -> Prop;
  roundoff : R;
  underflow : R;
  largest : R;
  (** [a + b], [a / b] and [np.exp(x - m)] on binary64 numbers *)
  fl_add : R -> R -> R;
  fl_div : R -> R -> R;
  fl_exp_minus : R -> R -> R;
  (** the order in which [np.sum] adds the entries of an array *)
  sum_order : vec -> sum_tree;
  roundoff_range : 0 <= roundoff < 1;
  underflow_range : 0 <= underflow;
  (** a sum of numbers that are not negative, when it does not overflow:
      rounding is monotone and has a relative error of at most [roundoff] *)
  add_float : forall a b, is_float a -> is_float b -> is_float (fl_add a b);
  add_above : forall a b, is_float a -> is_float b -> 0 <= a -> 0 <= b ->
    a + b <= largest -> a <= fl_add a b /\ b <= fl_add a b;
  add_error : forall a b, is_float a -> is_float b -> 0 <= a -> 0 <= b ->
    a + b <= largest ->
    (1 - roundoff) * (a + b) <= fl_add a b <= (1 + roundoff) * (a + b);
  (** a quotient of at most 1: 0 and 1 are binary64 numbers, so rounding
      stays between them; the quotient may underflow *)
  div_range : forall a b, is_float a -> is_float b -> 0 <= a <= b -> 0 < b ->
    0 <= fl_div a b <= 1;
  div_error : forall a b, is_float a -> is_float b -> 0 <= a <= b -> 1 <= b ->
    Rabs (fl_div a b - a / b) <= roundoff * (a / b) + underflow;
  (** [np.exp(x - m)] for [x <= m]: the difference is at most zero (at
      worst [-inf], where the exponential is [0.0]), and [exp(0.0)] is
      [1.0] *)
  exp_float : forall x m, is_float x -> is_float m ->
    is_float (fl_exp_minus x m);
  exp_range : forall x m, is_float x -> is_float m -> x <= m ->
    0 <= fl_exp_minus x m <= 1;
  exp_zero : forall m, is_float m -> fl_exp_minus m m = 1;
  sum_order_perm : forall v, v <> [] -> Permutation (leaves (sum_order v)) v
}.

(** The sum of the leaves, added as the tree is bracketed. *)
Fixpoint fl_tree_sum `{Rounded} (t : sum_tree) : R :=
  match t with
  | Leaf x => x
  | Node l r => fl_add (fl_tree_sum l) (fl_tree_sum r)
  end.

(** [np.sum(v)] of a 1-D array. *)
Definition np_sum `{Rounded} (v : vec) : R :=
  match v with
  | [] => 0
  | _ => fl_tree_sum (sum_order v)
  end.

(** [PricePredictor.softmax] on binary64 numbers. *)
Definition softmax_rounded `{Rounded} (x : mat) : res mat :=
  let* mx := max_axis1 x in
  let exp_x := row_op fl_exp_minus x mx in
  Ok (row_op fl_div exp_x (map np_sum exp_x)).

(** ** Specification-level definitions *)

(** [A[i][j]] *)
Definition entry (A : mat) (i j : nat) : R := nth j (nth i A []) 0.

(** The array of shape [(m, n)] whose entry [(i, j)] is [f i j]. *)
Definition build (m n : nat) (f : nat -> nat -> R) : mat :=
  map (fun i => map (fun j => f i j) (seq 0 n)) (seq 0 m).

Definition build_vec (n : nat) (f : nat -> R) : vec := map f (seq 0 n).

(** The sum of [f i] for [i] in [range(n)]. *)
Definition big_sum (n : nat) (f : nat -> R) : R := sum (map f (seq 0 n)).

(** The four parameters of a classifier. *)
Definition params (st : model) : mat * vec * mat * vec :=
  (W1 st, b1 st, W2 st, b2 st).

Definition sizes (st : model) : nat * nat * nat :=
  (input_size st, hidden_size st, output_size st).

(** The parameters have the shapes that [__init__] gives them. *)
Definition wf_model (st : model) : bool :=
  has_shape (input_size st) (hidden_size st) (W1 st)
  && (length (b1 st) =? hidden_size st)%nat
  && has_shape (hidden_size st) (output_size st) (W2 st)
  && (length (b2 st) =? output_size st)%nat.

(** The one-hot vector of class [k] among three. *)
Definition one_hot (k : nat) : list Z :=
  map (fun j => if (j =? k)%nat then 1%Z else 0%Z) (seq 0 3).

(** One step of plain gradient descent on the mean cross-entropy of a
    batch, written entry by entry as the specification words it: the
    output-layer gradient is [A2 - Y], the hidden-layer gradient is gated
    by the ReLU derivative, every gradient is a mean over the [m] samples
    and every parameter moves against its gradient by [learning_rate]. *)
Section GradientStep.
Variables (st : model) (c : activations) (X Y : mat) (learning_rate : R).

Let m := length X.

Definition out_grad (i k : nat) : R := entry (a2 c) i k - entry Y i k.

Definition relu_gate (i j : nat) : R :=
  if Rlt_dec 0 (entry (z1 c) i j) then 1 else 0.

Definition hid_grad (i j : nat) : R :=
  big_sum (output_size st) (fun k => out_grad i k * entry (W2 st) j k)
  * relu_gate i j.

Definition dW2_mean (j k : nat) : R :=
  big_sum m (fun i => entry (a1 c) i j * out_grad i k) / INR m.

Definition db2_mean (k : nat) : R :=
  big_sum m (fun i => out_grad i k) / INR m.

Definition dW1_mean (p j : nat) : R :=
  big_sum m (fun i => entry X i p * hid_grad i j) / INR m.

Definition db1_mean (j : nat) : R :=
  big_sum m (fun i => hid_grad i j) / INR m.

Definition gradient_step : model :=
  set_params st
    (build (input_size st) (hidden_size st)
       (fun p j => entry (W1 st) p j - learning_rate * dW1_mean p j))
    (build_vec (hidden_size st)
       (fun j => nth j (b1 st) 0 - learning_rate * db1_mean j))
    (build (hidden_size st) (output_size st)
       (fun j k => entry (W2 st) j k - learning_rate * dW2_mean j k))
    (build_vec (output_size st)
       (fun k => nth k (b2 st) 0 - learning_rate * db2_mean k)).
End GradientStep.

(** The softmax of a row as it is defined, without the shift by the
    maximum. *)
Definition softmax_unshifted (r : vec) : vec :=
  map (fun v => exp v / sum (map exp r)) r.

(** The activations of a forward pass on the batch [x], entry by entry. *)
Definition forward_activations (st : model) (x : mat) : activations :=
  let m := length x in
  let Z1 := build m (hidden_size st) (fun i j =>
              big_sum (input_size st) (fun p => entry x i p * entry (W1 st) p j)
              + nth j (b1 st) 0) in
  let A1 := relu Z1 in
  let Z2 := build m (output_size st) (fun i k =>
              big_sum (hidden_size st) (fun j => entry A1 i j * entry (W2 st) j k)
              + nth k (b2 st) 0) in
  mk_activations Z1 A1 Z2 (map softmax_unshifted Z2).

(** The maximum that [softmax] subtracts from a row. *)
Definition shift_of (r : vec) : R := fold_left Rmax (tl r) (hd 0 r).

(** The mean over the batch of [-sum(label * log(prediction))], with the
    predictions clipped. *)
Definition cross_entropy (y_pred y_true : mat) : R :=
  big_sum (length y_true) (fun i =>
    - big_sum (length (nth i y_true [])) (fun j =>
        entry y_true i j * ln (clip epsilon (1 - epsilon) (entry y_pred i j))))
  / INR (length y_true).

(** A row that holds a single one, the other entries being zero. *)
Definition one_hot_row (r : vec) : Prop :=
  exists k, (k < length r)%nat /\
    forall j, (j < length r)%nat -> nth j r 0 = if (j =? k)%nat then 1 else 0.

(** The value that is printed for a metric: [None] stands for [nan]. *)
Definition metric (c : res R) : option R :=
  match c with
  | Ok v => Some v
  | Err _ => None
  end.

(** The arrays of a dataset have [n] features and [o] classes per row. *)
Definition wf_dataset (n o : nat) (d : dataset) : bool :=
  has_shape (length (X_train d)) n (X_train d)
  && has_shape (length (X_train d)) o (as_float (y_train d))
  && has_shape (length (X_test d)) n (X_test d)
  && has_shape (length (X_test d)) o (as_float (y_test d)).

(** [A[indices]] when every index is in range. *)
Definition shuffled {A : Type} (indices : list nat) (l : list (list A))
  : list (list A) :=
  map (fun i => nth i l []) indices.

(** The classifier after one epoch on the shuffled batch [(Xs, Ys)]: the
    forward pass caches its activations and the backward pass takes the
    gradient step. *)
Definition after_epoch (st : model) (Xs Ys : mat) (learning_rate : R) : model :=
  let c := forward_activations st Xs in
  gradient_step (set_cache st c) c Xs Ys learning_rate.

(** The agreement of two outcomes of the loop on everything but the cached
    activations and the evaluation accuracy. *)
Definition same_training {G : Type}
  (r1 r2 : res (model * G * list epoch_log)) : Prop :=
  match r1, r2 with
  | Ok (st1, g1, h1), Ok (st2, g2, h2) =>
      params st1 = params st2 /\ sizes st1 = sizes st2 /\ g1 = g2 /\
      map loss h1 = map loss h2 /\ map acc h1 = map acc h2
  | Err e1, Err e2 => e1 = e2
  | _, _ => False
  end.

(** What the generator guarantees of a feature row and the label at the
    same index: both come from one sequence of five prices that starts at
    the base price. *)
Definition sample_of (prices : list R) (features : list R) (label : list Z)
  : Prop :=
  length prices = 5%nat /\ nth 0 prices 0 = 100 /\
  features = normalize (percent_deltas prices) /\
  label = label_of (total_change prices).

Definition generated_pair (features : list R) (label : list Z) : Prop :=
  exists prices, sample_of prices features label.

(** A random source that always returns the first option, the lower bound,
    the location, zeros, the identity permutation and index zero. *)
Definition fixed_random : RandomState.
Proof.
  refine {| rng := nat;
            random_choice := fun opts _ g => (nth 0 opts 0%Z, S g);
            random_uniform := fun lo _ g => (lo, S g);
            random_normal := fun loc _ g => (loc, S g);
            random_randn := fun r c g => (repeat (repeat 0 c) r, S g);
            random_permutation := fun n g => (seq 0 n, S g);
            random_randint := fun _ g => (0%nat, S g) |}.
  - intros r c g. unfold has_shape. cbn [fst].
    rewrite repeat_length, Nat.eqb_refl. cbn [andb].
    apply forallb_forall. intros x Hx. apply repeat_spec in Hx. subst x.
    rewrite repeat_length. apply Nat.eqb_refl.
  - intros n g. apply Permutation_refl.
  - intros n g Hn. exact Hn.
Defined.

Definition plain_repr : FloatRepr := fun _ => "0.0"%string.

(** The order that adds the entries from the last to the first. *)
Fixpoint right_comb (v : vec) : sum_tree :=
  match v with
  | [] => Leaf 0
  | [x] => Leaf x
  | x :: t => Node (Leaf x) (right_comb t)
  end.

(** Arithmetic without rounding, with [exp_minus] any function that is 1
    at equal arguments and between 0 and 1 below. *)
Definition unrounded (exp_minus : R -> R -> R)
  (range : forall x m, x <= m -> 0 <= exp_minus x m <= 1)
  (zero : forall m, exp_minus m m = 1) : Rounded.
Proof.
  refine {| is_float := fun _ => True;
            roundoff := 0;
            underflow := 0;
            largest := 1e308;
            fl_add := Rplus;
            fl_div := Rdiv;
            fl_exp_minus := exp_minus;
            sum_order := right_comb |}.
  - lra.
  - lra.
  - trivial.
  - intros a b _ _ Ha Hb _. lra.
  - intros a b _ _ Ha Hb _. lra.
  - intros a b _ _ [Ha Hab] Hb. split.
    + apply Rmult_le_pos; [exact Ha |]. left. now apply Rinv_0_lt_compat.
    + apply (Rmult_le_reg_r b); [exact Hb |].
      unfold Rdiv. rewrite Rmult_assoc, Rinv_l by lra. lra.
  - intros a b _ _ _ _. unfold Rminus. rewrite Rplus_opp_r, Rabs_R0. lra.
  - trivial.
  - intros x m _ _. apply range.
  - intros m _. apply zero.
  - intros v Hv. replace (leaves (right_comb v)) with v; [reflexivity |].
    induction v as [|x v IH]; [congruence |].
    destruct v as [|y v]; [reflexivity |].
    change (x :: y :: v = x :: leaves (right_comb (y :: v))).
    now rewrite <- IH.
Defined.

(** The real numbers with the exact exponential. *)
Definition exact_arithmetic : Rounded.
Proof.
  apply (unrounded (fun x m => exp (x - m))).
  - intros x m Hx. pose proof (exp_pos (x - m)). split; [lra |].
    destruct (Req_dec x m) as [-> | Hne].
    + rewrite Rminus_diag. rewrite exp_0. lra.
    + left. rewrite <- exp_0. apply exp_increasing. lra.
  - intros m. now rewrite Rminus_diag, exp_0.
Defined.

(** As [exact_arithmetic], but the exponential underflows to zero below
    -746, as binary64's does. *)
Definition flushing_arithmetic : Rounded.
Proof.
  apply (unrounded (fun x m => if Rlt_dec (x - m) (-746) then 0
                               else exp (x - m))).
  - intros x m Hx. destruct (Rlt_dec (x - m) (-746)); [lra |].
    pose proof (exp_pos (x - m)). split; [lra |].
    destruct (Req_dec x m) as [-> | Hne].
    + rewrite Rminus_diag. rewrite exp_0. lra.
    + left. rewrite <- exp_0. apply exp_increasing. lra.
  - intros m. rewrite Rminus_diag.
    destruct (Rlt_dec 0 (-746)); [lra | apply exp_0].
Defined.

(** A semantic version string: MAJOR.MINOR.PATCH, each a non-empty run of
    decimal digits. *)
Definition is_digit (c : ascii) : bool :=
  (48 <=? nat_of_ascii c)%nat && (nat_of_ascii c <=? 57)%nat.

Fixpoint split_dots (s cur : string) : list string :=
  match s with
  | EmptyString => [cur]
  | String c t =>
      if Ascii.eqb c "."%char then cur :: split_dots t EmptyString
      else split_dots t (cur +:+ String c EmptyString)
  end.

Definition all_digits (s : string) : bool :=
  negb (String.eqb s EmptyString) && forallb is_digit (list_ascii_of_string s).

Definition semantic_version (s : string) : bool :=
  match split_dots s EmptyString with
  | [major; minor; patch] =>
      all_digits major && all_digits minor && all_digits patch
  | _ => false
  end.

(** ** The comparisons and the split index in binary64

    The same expressions on IEEE 754 binary64 numbers, the [float] of
    Python; they evaluate, and the examples below compare them with the
    definitions over [R]. *)
Module Binary64.
Import Floats.

(** Python's [int(x)] for a finite [x >= 0]. *)
Definition py_int (x : float) : Z :=
  match Prim2SF x with
  | S754_finite false m e =>
      if (0 <=? e)%Z then (Z.pos m * 2 ^ e)%Z else (Z.pos m / 2 ^ (- e))%Z
  | _ => 0%Z
  end.

(** [int(0.8 * n)] for a length [n]; the literal is the binary64 number
    nearest to 0.8. *)
Definition split_index (n : Z) : Z :=
  py_int (0x1.999999999999ap-1 * of_uint63 (Uint63.of_Z n))%float.

Definition label_of (total_change : float) : list Z :=
  if (1.5 <? total_change)%float then [1; 0; 0]%Z
  else if (total_change <? -1.5)%float then [0; 1; 0]%Z
  else [0; 0; 1]%Z.
End Binary64.

(** A small classifier, batch and dataset on which the statements below
    are instantiated. *)
Definition example_model : model :=
  mk_model 2 1 2 [[1]; [-1]] [0] [[1; -1]] [0; 0] None.

Definition example_X : mat := [[1; 0]; [0; 1]].
Definition example_Y : mat := [[1; 0]; [0; 1]].

Definition example_dataset : dataset :=
  mk_dataset [[1; 0]; [0; 1]] [[1; 1]] [[1; 0]; [0; 1]]%Z [[1; 0]]%Z.

(** The index that [np.argmax] returns on a row. *)
Definition first_max (r : vec) : nat :=
  match r with
  | [] => 0%nat
  | v :: t => argmax_from v 0%nat 1%nat t
  end.

(** One term of the mean that [accuracy] takes: 1 when the predicted class
    is the true one. *)
Definition hit (rows : list R * list R) : R :=
  if (first_max (fst rows) =? first_max (snd rows))%nat then 1 else 0.

(** One term of the mean that [compute_loss] takes, before the sign: the
    sum over the classes of [label * log(clipped prediction)]. *)
Definition sample_term (rows : list R * list R) : R :=
  sum (zip_with Rmult (fst rows)
         (map ln (map (clip epsilon (1 - epsilon)) (snd rows)))).

(** The forward pass on one sample: the hidden activations and the class
    probabilities of the feature row [r]. *)
Definition hidden_row (st : model) (r : vec) : vec :=
  map (fun j => Rmax 0 (big_sum (input_size st)
                          (fun p => nth p r 0 * entry (W1 st) p j)
                        + nth j (b1 st) 0))
      (seq 0 (hidden_size st)).

Definition predict_row (st : model) (r : vec) : vec :=
  softmax_unshifted
    (map (fun k => big_sum (hidden_size st)
                     (fun j => nth j (hidden_row st r) 0 * entry (W2 st) j k)
                   + nth k (b2 st) 0)
         (seq 0 (output_size st))).

(** ** The text of the exported file

    What [json.dump(weights, f, indent=2)] writes for the dictionary of
    [export_weights], line by line: one key or array item per line, two
    spaces of indentation per level, a comma after every item but the
    last. *)
Definition in_quotes (s : string) : string :=
  (String "034"%char s) +:+ String "034"%char EmptyString.

(** The items of an array or object, one per line: every line but the last
    ends with a comma. *)
Fixpoint comma_separated (items : list string) : list string :=
  match items with
  | [] => []
  | [s] => [s]
  | s :: t => (s +:+ ","%string) :: comma_separated t
  end.

(** A comma after the last line of a block of lines. *)
Fixpoint then_comma (block : list string) : list string :=
  match block with
  | [] => []
  | [s] => [s +:+ ","%string]
  | s :: t => s :: then_comma t
  end.

(** A 1-D array: the line [opening] ends with the bracket, the numbers
    follow at the indentation [item_pad], the closing bracket stands at the
    indentation [pad]. *)
Definition vector_lines `{FloatRepr} (opening pad item_pad : string)
  (v : vec) : list string :=
  match v with
  | [] => [opening +:+ "[]"%string]
  | _ => (opening +:+ "["%string)
         :: comma_separated (map (fun x => item_pad +:+ float_repr x) v)
         ++ [pad +:+ "]"%string]
  end.

Fixpoint comma_separated_blocks (blocks : list (list string)) : list string :=
  match blocks with
  | [] => []
  | [b] => b
  | b :: t => then_comma b ++ comma_separated_blocks t
  end.

(** A 2-D array: one 1-D array per row. *)
Definition matrix_lines `{FloatRepr} (opening pad row_pad item_pad : string)
  (A : mat) : list string :=
  match A with
  | [] => [opening +:+ "[]"%string]
  | _ => (opening +:+ "["%string)
         :: comma_separated_blocks
              (map (vector_lines row_pad row_pad item_pad) A)
         ++ [pad +:+ "]"%string]
  end.

Definition artifact_lines `{FloatRepr} (n h o : string)
  (w1 : mat) (c1 : vec) (w2 : mat) (c2 : vec) : list string :=
  ["{"%string;
   "  "%string +:+ in_quotes "model"%string +:+ ": "%string +:+ in_quotes "price-predictor"%string +:+ ","%string;
   "  "%string +:+ in_quotes "version"%string +:+ ": "%string +:+ in_quotes "1.0.0"%string +:+ ","%string;
   "  "%string +:+ in_quotes "architecture"%string +:+ ": {"%string;
   "    "%string +:+ in_quotes "input_size"%string +:+ ": "%string +:+ n +:+ ","%string;
   "    "%string +:+ in_quotes "hidden_size"%string +:+ ": "%string +:+ h +:+ ","%string;
   "    "%string +:+ in_quotes "output_size"%string +:+ ": "%string +:+ o +:+ ","%string;
   "    "%string +:+ in_quotes "activation"%string +:+ ": "%string +:+ in_quotes "relu"%string +:+ ","%string;
   "    "%string +:+ in_quotes "output_activation"%string +:+ ": "%string +:+ in_quotes "softmax"%string;
   "  },"%string;
   "  "%string +:+ in_quotes "weights"%string +:+ ": {"%string] ++ then_comma (matrix_lines ("    "%string +:+ in_quotes "W1"%string +:+ ": "%string)
                   "    "%string "      "%string "        "%string w1)
  ++ then_comma (vector_lines ("    "%string +:+ in_quotes "b1"%string +:+ ": "%string)
                   "    "%string "      "%string c1)
  ++ then_comma (matrix_lines ("    "%string +:+ in_quotes "W2"%string +:+ ": "%string)
                   "    "%string "      "%string "        "%string w2)
  ++ vector_lines ("    "%string +:+ in_quotes "b2"%string +:+ ": "%string) "    "%string "      "%string c2
  ++ ["  },"%string;
      "  "%string +:+ in_quotes "labels"%string +:+ ": ["%string;
      "    "%string +:+ in_quotes "UP"%string +:+ ","%string;
      "    "%string +:+ in_quotes "DOWN"%string +:+ ","%string;
      "    "%string +:+ in_quotes "SIDEWAYS"%string;
      "  ]"%string;
      "}"%string].

Definition line_feed : string := String "010"%char EmptyString.

(** The lines, each but the last followed by a line feed. *)
Definition artifact_text `{FloatRepr} (n h o : string)
  (w1 : mat) (c1 : vec) (w2 : mat) (c2 : vec) : string :=
  String.concat line_feed (artifact_lines n h o w1 c1 w2 c2).

(** * Properties *)

(** ** The generator *)

Lemma clamp_bounds (d : R) : -1 <= py_min (py_max (d / 5.0) (-1)) 1 <= 1.
Proof.
  unfold py_min, py_max.
  destruct (Rlt_dec (d / 5.0) (-1)) as [Hlo | Hlo];
    destruct (Rlt_dec 1 _) as [Hhi | Hhi]; lra.
Qed.

Lemma normalize_bounds (deltas : list R) :
  Forall (fun v => -1 <= v <= 1) (normalize deltas).
Proof.
  unfold normalize. apply Forall_forall. intros v Hv.
  apply in_map_iff in Hv. destruct Hv as [d [<- _]]. apply clamp_bounds.
Qed.

Lemma normalize_deltas_length (prices : list R) :
  length (normalize (percent_deltas prices)) = 4%nat.
Proof. unfold normalize, percent_deltas. now rewrite !length_map, length_seq. Qed.

Lemma label_of_cases (t : R) :
  (1.5 < t /\ label_of t = one_hot 0) \/
  (t < -1.5 /\ label_of t = one_hot 1) \/
  (-1.5 <= t <= 1.5 /\ label_of t = one_hot 2).
Proof.
  unfold label_of.
  destruct (Rlt_dec 1.5 t) as [Hup | Hup]; [left; split; [lra | reflexivity] |].
  destruct (Rlt_dec t (-1.5)) as [Hdn | Hdn]; right;
    [left | right]; (split; [lra | reflexivity]).
Qed.

Lemma one_hot_distinct (j k : nat) :
  (j < 3)%nat -> (k < 3)%nat -> one_hot j = one_hot k -> j = k.
Proof.
  intros Hj Hk.
  destruct j as [|[|[|j]]]; destruct k as [|[|[|k]]]; try lia;
    cbv; intros E; congruence.
Qed.

Section Generator.
Context `{RS : RandomState}.

Lemma price_step_length (trend : Z) (s : list R * rng) :
  length (fst (price_step trend s)) = S (length (fst s)).
Proof.
  unfold price_step. destruct s as [prices g].
  destruct (random_uniform 0.5 2.0 g) as [u g1].
  destruct (random_normal 0 1.5 g1) as [e g2].
  cbn [fst]. rewrite length_app. cbn [length]. lia.
Qed.

Lemma price_step_first (trend : Z) (s : list R * rng) :
  fst s <> [] -> nth 0 (fst (price_step trend s)) 0 = nth 0 (fst s) 0.
Proof.
  unfold price_step. destruct s as [prices g].
  destruct (random_uniform 0.5 2.0 g) as [u g1].
  destruct (random_normal 0 1.5 g1) as [e g2].
  cbn [fst]. intros Hne. destruct prices; [congruence | reflexivity].
Qed.

Lemma gen_prices_shape (g : rng) :
  length (fst (gen_prices g)) = 5%nat /\ nth 0 (fst (gen_prices g)) 0 = 100.
Proof.
  unfold gen_prices.
  destruct (random_choice _ _ g) as [trend g0].
  cbn [seq fold_left].
  set (s0 := ([100], g0)).
  set (s1 := price_step trend s0).
  set (s2 := price_step trend s1).
  set (s3 := price_step trend s2).
  assert (L1 : length (fst s1) = 2%nat) by (unfold s1; now rewrite price_step_length).
  assert (L2 : length (fst s2) = 3%nat) by (unfold s2; now rewrite price_step_length, L1).
  assert (L3 : length (fst s3) = 4%nat) by (unfold s3; now rewrite price_step_length, L2).
  assert (N : forall s : list R * rng, (0 < length (fst s))%nat -> fst s <> [])
    by (intros [[|p ps] gs]; cbn; [lia | congruence]).
  split.
  - now rewrite price_step_length, L3.
  - rewrite price_step_first by (apply N; lia).
    unfold s3. rewrite price_step_first by (apply N; lia).
    unfold s2. rewrite price_step_first by (apply N; lia).
    unfold s1. rewrite price_step_first by (unfold s0; cbn; congruence).
    reflexivity.
Qed.

Lemma gen_sample_spec (g : rng) :
  sample_of (fst (gen_prices g))
            (fst (fst (gen_sample g))) (snd (fst (gen_sample g))).
Proof.
  unfold sample_of, gen_sample.
  destruct (gen_prices_shape g) as [L F].
  destruct (gen_prices g) as [prices g1]. cbn [fst snd] in *.
  repeat split; assumption.
Qed.

Lemma generate_loop_spec (n : nat) :
  forall X y g,
    Forall2 generated_pair X y ->
    let out := fst (generate_loop n X y g) in
    Forall2 generated_pair (fst out) (snd out) /\
    length (fst out) = (length X + n)%nat /\
    firstn (length X) (fst out) = X /\ firstn (length y) (snd out) = y.
Proof.
  induction n as [|n IH]; intros X y g HF; cbn [generate_loop].
  - cbn [fst snd]. rewrite Nat.add_0_r, !firstn_all. auto.
  - pose proof (gen_sample_spec g) as Hs.
    destruct (gen_sample g) as [[deltas label] g1]. cbn [fst snd] in Hs.
    assert (HF' : Forall2 generated_pair (X ++ [deltas]) (y ++ [label])).
    { apply Forall2_app; [assumption |].
      constructor; [| constructor]. now exists (fst (gen_prices g)). }
    specialize (IH (X ++ [deltas]) (y ++ [label]) g1 HF').
    cbn zeta in IH. destruct IH as (A & B & C & D).
    rewrite length_app in B, C. rewrite length_app in D. cbn [length] in B, C, D.
    repeat split.
    + exact A.
    + rewrite B. lia.
    + apply (f_equal (firstn (length X))) in C.
      rewrite firstn_firstn in C.
      rewrite Nat.min_l in C by lia.
      rewrite firstn_app, Nat.sub_diag, firstn_all in C.
      cbn [firstn] in C. now rewrite app_nil_r in C.
    + apply (f_equal (firstn (length y))) in D.
      rewrite firstn_firstn in D.
      rewrite Nat.min_l in D by lia.
      rewrite firstn_app, Nat.sub_diag, firstn_all in D.
      cbn [firstn] in D. now rewrite app_nil_r in D.
Qed.

Lemma generate_spec (n : nat) (g : rng) :
  let out := fst (generate_training_data n g) in
  Forall2 generated_pair (fst out) (snd out) /\
  length (fst out) = n /\ length (snd out) = n.
Proof.
  unfold generate_training_data.
  destruct (generate_loop_spec n [] [] g (Forall2_nil _)) as (A & B & _).
  cbn [length Nat.add] in B.
  cbn zeta. split; [exact A |]. split; [exact B |].
  apply Forall2_length in A. congruence.
Qed.
End Generator.

Section GeneratorComposition.
Context `{RS : RandomState}.

Lemma generate_loop_acc (n : nat) :
  forall X y g,
    generate_loop n X y g =
    (let '((X', y'), g') := generate_loop n [] [] g in ((X ++ X', y ++ y'), g')).
Proof.
  induction n as [|n IH]; intros X y g; cbn [generate_loop].
  - now rewrite !app_nil_r.
  - destruct (gen_sample g) as [[deltas label] g1].
    rewrite (IH (X ++ [deltas]) (y ++ [label]) g1).
    rewrite (IH ([] ++ [deltas]) ([] ++ [label]) g1).
    destruct (generate_loop n [] [] g1) as [[X' y'] g'].
    now rewrite <- !app_assoc.
Qed.

Lemma generate_loop_add (n k : nat) :
  forall X y g,
    generate_loop (n + k) X y g =
    (let '((X1, y1), g1) := generate_loop n X y g in generate_loop k X1 y1 g1).
Proof.
  induction n as [|n IH]; intros X y g; cbn [Nat.add generate_loop].
  - reflexivity.
  - destruct (gen_sample g) as [[deltas label] g1]. apply IH.
Qed.

(** The sample at index [i] is the one that the loop body produces from
    the generator state that the first [i] samples leave. *)
Lemma generate_nth (n i : nat) (g : rng) :
  (i < n)%nat ->
  let s := gen_sample (snd (generate_training_data i g)) in
  nth_error (fst (fst (generate_training_data n g))) i = Some (fst (fst s)) /\
  nth_error (snd (fst (generate_training_data n g))) i = Some (snd (fst s)).
Proof.
  intros Hi. cbn zeta. unfold generate_training_data.
  replace n with (i + S (n - S i))%nat by lia.
  rewrite generate_loop_add.
  destruct (generate_spec i g) as (_ & LX & Ly).
  unfold generate_training_data in LX, Ly.
  destruct (generate_loop i [] [] g) as [[X1 y1] g1]. cbn [fst snd] in *.
  cbn [generate_loop].
  destruct (gen_sample g1) as [[deltas label] g2]. cbn [fst snd].
  rewrite generate_loop_acc.
  destruct (generate_loop (n - S i) [] [] g2) as [[X' y'] g'].
  cbn [fst snd]. rewrite <- !app_assoc. cbn [app].
  split.
  - rewrite nth_error_app2 by lia. now rewrite LX, Nat.sub_diag.
  - rewrite nth_error_app2 by lia. now rewrite Ly, Nat.sub_diag.
Qed.
End GeneratorComposition.

(** The prices that [percent_deltas] divides by stay positive as long as
    the noise stays within twenty standard deviations: the quotients are
    then proper divisions. *)
Section BoundedNoise.
Context `{RS : RandomState}.
Hypothesis trend_range :
  forall g,
    (-1 <= fst (random_choice [-1; 0; 1] [0.3; 0.4; 0.3]%R g) <= 1)%Z.
Hypothesis uniform_range :
  forall g, 0.5 <= fst (random_uniform 0.5 2.0 g) < 2.0.
Hypothesis noise_range :
  forall g, Rabs (fst (random_normal 0 1.5 g)) <= 20 * 1.5.

Lemma price_step_drop (trend : Z) (prices : list R) (g : rng) :
  (-1 <= trend <= 1)%Z ->
  exists p,
    fst (price_step trend (prices, g)) = prices ++ [p] /\
    List.last prices 0 - 32 <= p.
Proof using uniform_range noise_range.
  intros Ht. unfold price_step.
  pose proof (uniform_range g) as Hu.
  destruct (random_uniform 0.5 2.0 g) as [u g1]. cbn [fst] in Hu.
  pose proof (noise_range g1) as He.
  destruct (random_normal 0 1.5 g1) as [e g2]. cbn [fst] in He.
  eexists. split; [reflexivity |].
  assert (He' : -30 <= e <= 30)
    by (unfold Rabs in He; destruct (Rcase_abs e); lra).
  assert (Hc : trend = (-1)%Z \/ trend = 0%Z \/ trend = 1%Z) by lia.
  destruct Hc as [-> | [-> | ->]]; lra.
Qed.

Lemma denominators_positive (g : rng) :
  forall i, (i < 4)%nat -> 0 < nth i (fst (gen_prices g)) 0.
Proof using trend_range uniform_range noise_range.
  unfold gen_prices. pose proof (trend_range g) as Ht.
  destruct (random_choice _ _ g) as [trend g0]. cbn [fst] in Ht.
  cbn [seq fold_left].
  destruct (price_step_drop trend [100] g0 Ht) as (p1 & E1 & H1).
  destruct (price_step trend ([100], g0)) as [l1 g1]. cbn [fst] in E1. subst l1.
  destruct (price_step_drop trend ([100] ++ [p1]) g1 Ht) as (p2 & E2 & H2).
  destruct (price_step trend (_, g1)) as [l2 g2]. cbn [fst] in E2. subst l2.
  destruct (price_step_drop trend (([100] ++ [p1]) ++ [p2]) g2 Ht)
    as (p3 & E3 & H3).
  destruct (price_step trend (_, g2)) as [l3 g3]. cbn [fst] in E3. subst l3.
  destruct (price_step_drop trend ((([100] ++ [p1]) ++ [p2]) ++ [p3]) g3 Ht)
    as (p4 & E4 & H4).
  destruct (price_step trend (_, g3)) as [l4 g4]. cbn [fst] in E4. subst l4.
  cbn [app List.last] in *.
  intros [|[|[|[|i]]]] Hi; cbn [fst nth]; try lia; lra.
Qed.
End BoundedNoise.

(** ** The split *)

Lemma py_int_floor (r : R) : 0 <= r -> py_int r = Int_part r.
Proof. intros Hr. unfold py_int. now destruct (Rle_dec 0 r). Qed.

Lemma split_index_eq (n : nat) : split_index n = (4 * n / 5)%nat.
Proof.
  unfold split_index.
  assert (Hn : 0 <= INR n) by apply pos_INR.
  rewrite py_int_floor by lra.
  set (q := (4 * n / 5)%nat).
  assert (Hq : (5 * q <= 4 * n < 5 * q + 5)%nat).
  { unfold q. pose proof (Nat.div_mod_eq (4 * n) 5) as E.
    pose proof (Nat.mod_upper_bound (4 * n) 5) as B. lia. }
  assert (Hlo : (5 * Z.of_nat q <= 4 * Z.of_nat n)%Z) by lia.
  assert (Hhi : (4 * Z.of_nat n < 5 * Z.of_nat q + 5)%Z) by lia.
  apply IZR_le in Hlo. apply IZR_lt in Hhi.
  rewrite !mult_IZR in Hlo. rewrite plus_IZR, !mult_IZR in Hhi.
  assert (E : Z.of_nat q = Int_part (0.8 * INR n)).
  { apply Int_part_spec. rewrite (INR_IZR_INZ n). split; lra. }
  rewrite <- E. apply Nat2Z.id.
Qed.

Lemma split_index_le (n : nat) : (split_index n <= n)%nat.
Proof.
  rewrite split_index_eq.
  pose proof (Nat.div_mod_eq (4 * n) 5) as E.
  pose proof (Nat.mod_upper_bound (4 * n) 5) as B. lia.
Qed.

Lemma split_index_pos (n : nat) : (1 <= split_index n <-> 2 <= n)%nat.
Proof.
  rewrite split_index_eq.
  pose proof (Nat.div_mod_eq (4 * n) 5) as E.
  pose proof (Nat.mod_upper_bound (4 * n) 5) as B. lia.
Qed.

Lemma split_index_lt (n : nat) : (1 <= n -> split_index n < n)%nat.
Proof.
  rewrite split_index_eq.
  pose proof (Nat.div_mod_eq (4 * n) 5) as E.
  pose proof (Nat.mod_upper_bound (4 * n) 5) as B. lia.
Qed.

(** ** Arrays: shapes and entries *)

Lemma nth_map_lt {A B : Type} (f : A -> B) (l : list A) (i : nat) (d : B) (d' : A) :
  (i < length l)%nat -> nth i (map f l) d = f (nth i l d').
Proof.
  intros Hi. rewrite (nth_indep _ d (f d')) by now rewrite length_map.
  apply map_nth.
Qed.

Lemma map_seq_nth {A : Type} (l : list A) (d : A) :
  map (fun i => nth i l d) (seq 0 (length l)) = l.
Proof.
  apply (nth_ext _ _ d d).
  - now rewrite length_map, length_seq.
  - intros i Hi. rewrite length_map, length_seq in Hi.
    rewrite (nth_map_lt _ _ _ _ 0%nat) by now rewrite length_seq.
    now rewrite seq_nth.
Qed.

Lemma map_as_seq {A B : Type} (f : A -> B) (l : list A) (d : A) :
  map f l = map (fun i => f (nth i l d)) (seq 0 (length l)).
Proof.
  rewrite <- (map_seq_nth l d) at 1. now rewrite map_map.
Qed.

Lemma nth_nil_R (j : nat) : nth j ([] : list R) 0 = 0.
Proof. now destruct j. Qed.

Lemma has_shape_spec (m n : nat) (A : mat) :
  has_shape m n A = true <->
  length A = m /\ Forall (fun r => length r = n) A.
Proof.
  unfold has_shape. rewrite andb_true_iff, Nat.eqb_eq, forallb_forall, Forall_forall.
  split; intros [H1 H2]; (split; [exact H1 |]);
    intros r Hr; specialize (H2 r Hr); now apply Nat.eqb_eq.
Qed.

Lemma has_shape_length (m n : nat) (A : mat) :
  has_shape m n A = true -> length A = m.
Proof. intros H. now apply has_shape_spec in H. Qed.

Lemma has_shape_row (m n : nat) (A : mat) (i : nat) :
  has_shape m n A = true -> (i < m)%nat -> length (nth i A []) = n.
Proof.
  intros H Hi. apply has_shape_spec in H. destruct H as [HL HF].
  rewrite Forall_forall in HF. apply HF. apply nth_In. lia.
Qed.

Lemma has_shape_rows (m n : nat) (A : mat) :
  has_shape m n A = true ->
  forallb (fun r => (length r =? n)%nat) A = true.
Proof. unfold has_shape. intros H. now apply andb_true_iff in H. Qed.

Lemma has_shape_ncols (m n : nat) (A : mat) :
  has_shape m n A = true -> ncols n A = n.
Proof.
  intros H. destruct A as [|r A]; [reflexivity |].
  cbn [ncols]. apply (has_shape_row _ _ _ 0%nat) in H; [exact H |].
  apply has_shape_length in H. cbn in H. lia.
Qed.

Lemma build_length (m n : nat) (f : nat -> nat -> R) : length (build m n f) = m.
Proof. unfold build. now rewrite length_map, length_seq. Qed.

Lemma build_shape (m n : nat) (f : nat -> nat -> R) :
  has_shape m n (build m n f) = true.
Proof.
  apply has_shape_spec. split; [apply build_length |].
  apply Forall_forall. intros r Hr. unfold build in Hr.
  apply in_map_iff in Hr. destruct Hr as [i [<- _]].
  now rewrite length_map, length_seq.
Qed.

Lemma build_row (m n : nat) (f : nat -> nat -> R) (i : nat) :
  (i < m)%nat -> nth i (build m n f) [] = map (f i) (seq 0 n).
Proof.
  intros Hi. unfold build.
  rewrite (nth_map_lt _ _ _ _ 0%nat) by now rewrite length_seq.
  now rewrite seq_nth.
Qed.

Lemma entry_build (m n : nat) (f : nat -> nat -> R) (i j : nat) :
  (i < m)%nat -> (j < n)%nat -> entry (build m n f) i j = f i j.
Proof.
  intros Hi Hj. unfold entry. rewrite build_row by assumption.
  rewrite (nth_map_lt _ _ _ _ 0%nat) by now rewrite length_seq.
  now rewrite seq_nth.
Qed.

Lemma build_ext (m n : nat) (f g : nat -> nat -> R) :
  (forall i j, (i < m)%nat -> (j < n)%nat -> f i j = g i j) ->
  build m n f = build m n g.
Proof.
  intros H. unfold build. apply map_ext_in. intros i Hi.
  apply map_ext_in. intros j Hj.
  apply in_seq in Hi. apply in_seq in Hj. apply H; lia.
Qed.

Lemma shape_as_build (m n : nat) (A : mat) :
  has_shape m n A = true -> A = build m n (entry A).
Proof.
  intros H. pose proof (has_shape_length _ _ _ H) as HL.
  unfold build. rewrite <- (map_seq_nth A []) at 1. rewrite HL.
  apply map_ext_in. intros i Hi. apply in_seq in Hi.
  rewrite <- (map_seq_nth (nth i A []) 0) at 1.
  rewrite (has_shape_row m n) by (assumption || lia). reflexivity.
Qed.

Lemma build_vec_length (n : nat) (f : nat -> R) : length (build_vec n f) = n.
Proof. unfold build_vec. now rewrite length_map, length_seq. Qed.

Lemma nth_build_vec (n : nat) (f : nat -> R) (j : nat) :
  (j < n)%nat -> nth j (build_vec n f) 0 = f j.
Proof.
  intros Hj. unfold build_vec.
  rewrite (nth_map_lt _ _ _ _ 0%nat) by now rewrite length_seq.
  now rewrite seq_nth.
Qed.

Lemma build_vec_ext (n : nat) (f g : nat -> R) :
  (forall j, (j < n)%nat -> f j = g j) -> build_vec n f = build_vec n g.
Proof.
  intros H. unfold build_vec. apply map_ext_in. intros j Hj.
  apply in_seq in Hj. apply H. lia.
Qed.

Lemma big_sum_ext (n : nat) (f g : nat -> R) :
  (forall i, (i < n)%nat -> f i = g i) -> big_sum n f = big_sum n g.
Proof.
  intros H. unfold big_sum. f_equal. apply map_ext_in. intros i Hi.
  apply in_seq in Hi. apply H. lia.
Qed.

(** ** Arrays: the operations, entry by entry *)

Lemma zip_with_build (f : R -> R -> R) (n : nat) (u v : vec) :
  length u = n -> length v = n ->
  zip_with f u v = build_vec n (fun j => f (nth j u 0) (nth j v 0)).
Proof.
  intros Hu Hv. unfold zip_with, build_vec.
  apply (nth_ext _ _ 0 0).
  - rewrite !length_map, length_combine, length_seq. lia.
  - intros j Hj. rewrite length_map, length_combine in Hj.
    rewrite (nth_map_lt _ _ _ _ (0, 0)) by (rewrite length_combine; lia).
    rewrite combine_nth by lia.
    rewrite (nth_map_lt _ _ _ _ 0%nat) by (rewrite length_seq; lia).
    rewrite seq_nth by lia. reflexivity.
Qed.

Lemma sum_as_big_sum (v : vec) :
  sum v = big_sum (length v) (fun i => nth i v 0).
Proof. unfold big_sum. now rewrite map_seq_nth. Qed.

Lemma inner_big_sum (k : nat) (u v : vec) :
  length u = k -> length v = k ->
  inner u v = big_sum k (fun l => nth l u 0 * nth l v 0).
Proof.
  intros Hu Hv. unfold inner.
  change (map (fun '(a, b) => a * b) (combine u v)) with (zip_with Rmult u v).
  now rewrite (zip_with_build _ k).
Qed.

Lemma column_length (j : nat) (A : mat) : length (column j A) = length A.
Proof. unfold column. apply length_map. Qed.

Lemma column_nth (j : nat) (A : mat) (i : nat) :
  nth i (column j A) 0 = entry A i j.
Proof.
  unfold column, entry.
  destruct (Nat.lt_ge_cases i (length A)) as [Hi | Hi].
  - now apply (nth_map_lt (fun r => nth j r 0)).
  - rewrite (nth_overflow (map _ A)) by (rewrite length_map; lia).
    rewrite (nth_overflow A) by lia. now rewrite nth_nil_R.
Qed.

Lemma sum_column (m : nat) (j : nat) (A : mat) :
  length A = m -> sum (column j A) = big_sum m (fun i => entry A i j).
Proof.
  intros HL. rewrite sum_as_big_sum, column_length, HL.
  apply big_sum_ext. intros i _. apply column_nth.
Qed.

Lemma map_map_build (g : R -> R) (m n : nat) (A : mat) :
  has_shape m n A = true ->
  map (map g) A = build m n (fun i j => g (entry A i j)).
Proof.
  intros H. rewrite (shape_as_build m n A H) at 1. unfold build.
  rewrite map_map. apply map_ext. intros i. now rewrite map_map.
Qed.

Lemma rows_as_build (g : vec -> vec) (m n : nat) (A : mat) (h : nat -> nat -> R) :
  length A = m ->
  (forall i, (i < m)%nat -> g (nth i A []) = map (h i) (seq 0 n)) ->
  map g A = build m n h.
Proof.
  intros HL Hg. rewrite (map_as_seq g A []), HL. unfold build.
  apply map_ext_in. intros i Hi. apply in_seq in Hi. apply Hg. lia.
Qed.

Lemma dot_build (m k p : nat) (A B : mat) :
  has_shape m k A = true -> has_shape k p B = true ->
  dot p A B =
  Ok (build m p (fun i j => big_sum k (fun l => entry A i l * entry B l j))).
Proof.
  intros HA HB. unfold dot.
  rewrite (has_shape_length _ _ _ HB), (has_shape_rows _ _ _ HA).
  rewrite (has_shape_ncols _ _ _ HB). f_equal.
  apply rows_as_build; [now apply has_shape_length in HA |].
  intros i Hi. apply map_ext. intros j.
  rewrite (inner_big_sum k).
  - apply big_sum_ext. intros l _. now rewrite column_nth.
  - now apply (has_shape_row m k).
  - rewrite column_length. now apply has_shape_length in HB.
Qed.

Lemma transpose_build (m n : nat) (A : mat) :
  has_shape m n A = true ->
  transpose n A = build n m (fun j i => entry A i j).
Proof.
  intros HA. unfold transpose, build.
  rewrite (has_shape_ncols _ _ _ HA).
  apply map_ext. intros j. unfold column.
  rewrite (map_as_seq _ A []), (has_shape_length _ _ _ HA). reflexivity.
Qed.

Lemma same_shape_true (m n : nat) (A B : mat) :
  has_shape m n A = true -> has_shape m n B = true -> same_shape A B = true.
Proof.
  intros HA HB. unfold same_shape.
  rewrite (has_shape_length _ _ _ HA), (has_shape_length _ _ _ HB), Nat.eqb_refl.
  cbn [andb]. apply forallb_forall. intros [r s] Hrs.
  pose proof (in_combine_l _ _ _ _ Hrs) as Hr.
  pose proof (in_combine_r _ _ _ _ Hrs) as Hs.
  apply has_shape_spec in HA. apply has_shape_spec in HB.
  destruct HA as [_ FA]. destruct HB as [_ FB].
  rewrite Forall_forall in FA, FB.
  rewrite (FA r Hr), (FB s Hs). apply Nat.eqb_refl.
Qed.

Lemma mat_op_build (f : R -> R -> R) (m n : nat) (A B : mat) :
  has_shape m n A = true -> has_shape m n B = true ->
  mat_op f A B = Ok (build m n (fun i j => f (entry A i j) (entry B i j))).
Proof.
  intros HA HB. unfold mat_op. rewrite (same_shape_true m n) by assumption.
  f_equal. pose proof (has_shape_length _ _ _ HA) as LA.
  pose proof (has_shape_length _ _ _ HB) as LB.
  unfold build. apply (nth_ext _ _ [] []).
  - rewrite !length_map, length_combine, length_seq. lia.
  - intros i Hi. rewrite length_map, length_combine in Hi.
    rewrite (nth_map_lt _ _ _ _ ([], [])) by (rewrite length_combine; lia).
    rewrite combine_nth by lia.
    rewrite (nth_map_lt _ _ _ _ 0%nat) by (rewrite length_seq; lia).
    rewrite seq_nth by lia. cbn [Nat.add].
    rewrite (zip_with_build f n); [reflexivity | |];
      apply (has_shape_row m n); (assumption || lia).
Qed.

Lemma vec_op_build (f : R -> R -> R) (n : nat) (u v : vec) :
  length u = n -> length v = n ->
  vec_op f u v = Ok (build_vec n (fun j => f (nth j u 0) (nth j v 0))).
Proof.
  intros Hu Hv. unfold vec_op. rewrite Hu, Hv, Nat.eqb_refl.
  now rewrite (zip_with_build f n).
Qed.

Lemma add_rowvec_build (m n : nat) (A : mat) (b : vec) :
  has_shape m n A = true -> length b = n ->
  add_rowvec A b = Ok (build m n (fun i j => entry A i j + nth j b 0)).
Proof.
  intros HA Hb. unfold add_rowvec. rewrite Hb, (has_shape_rows _ _ _ HA).
  f_equal. apply rows_as_build; [now apply has_shape_length in HA |].
  intros i Hi. rewrite (zip_with_build Rplus n);
    [reflexivity | now apply (has_shape_row m n) | exact Hb].
Qed.

Lemma sum_axis0_build (m n : nat) (A : mat) :
  has_shape m n A = true ->
  sum_axis0 n A = build_vec n (fun j => big_sum m (fun i => entry A i j)).
Proof.
  intros HA. unfold sum_axis0, build_vec.
  rewrite (has_shape_ncols _ _ _ HA). apply map_ext. intros j.
  apply sum_column. now apply has_shape_length in HA.
Qed.

Lemma div_count_build (m n k : nat) (A : mat) :
  has_shape m n A = true -> k <> 0%nat ->
  div_count A k = Ok (build m n (fun i j => entry A i j / INR k)).
Proof.
  intros HA Hk. unfold div_count.
  destruct (Nat.eqb_spec k 0) as [E | _]; [contradiction |]. cbn [andb].
  now rewrite (map_map_build _ m n).
Qed.

Lemma div_count_vec_build (n k : nat) (v : vec) :
  length v = n -> k <> 0%nat ->
  div_count_vec v k = Ok (build_vec n (fun j => nth j v 0 / INR k)).
Proof.
  intros Hv Hk. unfold div_count_vec.
  destruct (Nat.eqb_spec k 0) as [E | _]; [contradiction |]. cbn [andb].
  f_equal. unfold build_vec. rewrite (map_as_seq _ v 0), Hv. reflexivity.
Qed.

Lemma div_count_zero (m n : nat) (f : nat -> nat -> R) :
  (1 <= m)%nat -> (1 <= n)%nat ->
  div_count (build m n f) 0 = Err DivideByZero.
Proof.
  intros Hm Hn. unfold div_count, no_entry.
  destruct m as [|m]; [lia |]. unfold build. cbn [seq map forallb].
  rewrite length_map, length_seq.
  destruct (Nat.eqb_spec n 0) as [E | _]; [lia | reflexivity].
Qed.

Lemma div_count_no_row (n : nat) (f : nat -> nat -> R) (k : nat) :
  div_count (build 0 n f) k = Ok [].
Proof.
  unfold div_count, no_entry, build. cbn [seq map forallb negb].
  now rewrite andb_false_r.
Qed.

Lemma div_count_vec_zero (n : nat) (f : nat -> R) :
  (1 <= n)%nat -> div_count_vec (build_vec n f) 0 = Err DivideByZero.
Proof.
  intros Hn. unfold div_count_vec. rewrite build_vec_length.
  destruct (Nat.eqb_spec n 0) as [E | _]; [lia | reflexivity].
Qed.

Lemma scale_build (c : R) (m n : nat) (A : mat) :
  has_shape m n A = true -> scale c A = build m n (fun i j => c * entry A i j).
Proof. intros HA. unfold scale. now apply map_map_build. Qed.

Lemma scale_vec_build (c : R) (n : nat) (v : vec) :
  length v = n -> scale_vec c v = build_vec n (fun j => c * nth j v 0).
Proof.
  intros Hv. unfold scale_vec, build_vec.
  rewrite (map_as_seq _ v 0), Hv. reflexivity.
Qed.

(** ** Softmax *)

Lemma sum_app (u v : vec) : sum (u ++ v) = sum u + sum v.
Proof.
  unfold sum. induction u as [|a u IH]; cbn [app fold_right]; [lra |].
  rewrite IH. lra.
Qed.

Lemma sum_map_mult_r (c : R) (f : R -> R) (r : vec) :
  sum (map (fun v => f v * c) r) = sum (map f r) * c.
Proof.
  unfold sum. induction r as [|a r IH]; cbn [map fold_right]; [lra |].
  rewrite IH. lra.
Qed.

Lemma sum_exp_nonneg (r : vec) : 0 <= sum (map exp r).
Proof.
  unfold sum. induction r as [|a r IH]; cbn [map fold_right]; [lra |].
  pose proof (exp_pos a). lra.
Qed.

Lemma sum_exp_pos (r : vec) : r <> [] -> 0 < sum (map exp r).
Proof.
  destruct r as [|a r]; [congruence | intros _].
  unfold sum. cbn [map fold_right].
  pose proof (exp_pos a). pose proof (sum_exp_nonneg r). unfold sum in *. lra.
Qed.

Lemma softmax_unshifted_length (r : vec) :
  length (softmax_unshifted r) = length r.
Proof. unfold softmax_unshifted. apply length_map. Qed.

Lemma softmax_unshifted_sum (r : vec) :
  r <> [] -> sum (softmax_unshifted r) = 1.
Proof.
  intros Hr. unfold softmax_unshifted. unfold Rdiv.
  rewrite (sum_map_mult_r (/ sum (map exp r)) exp r).
  apply Rinv_r. pose proof (sum_exp_pos r Hr). lra.
Qed.

Lemma softmax_unshifted_range (r : vec) :
  Forall (fun p => 0 < p <= 1) (softmax_unshifted r).
Proof.
  apply Forall_forall. intros p Hp. unfold softmax_unshifted in Hp.
  apply in_map_iff in Hp. destruct Hp as (v & <- & Hv).
  assert (Hr : r <> []) by (intros ->; contradiction).
  pose proof (sum_exp_pos r Hr) as HS. pose proof (exp_pos v) as Hv0.
  assert (Hle : exp v <= sum (map exp r)).
  { apply in_split in Hv. destruct Hv as (l1 & l2 & ->).
    rewrite map_app, sum_app. cbn [map]. unfold sum at 2. cbn [fold_right].
    fold (sum (map exp l2)).
    pose proof (sum_exp_nonneg l1). pose proof (sum_exp_nonneg l2). lra. }
  split.
  - now apply Rdiv_lt_0_compat.
  - apply (Rmult_le_reg_r (sum (map exp r))); [exact HS |].
    unfold Rdiv. rewrite Rmult_assoc, Rinv_l by lra. lra.
Qed.

Lemma max_axis1_ok (x : mat) :
  Forall (fun r => r <> []) x -> max_axis1 x = Ok (map shift_of x).
Proof.
  unfold max_axis1. induction x as [|r x IH]; intros HF; [reflexivity |].
  inversion HF as [|? ? Hr HF']; subst. cbn [mapM map].
  destruct r as [|v t]; [congruence |]. cbn [row_max bind].
  rewrite (IH HF'). reflexivity.
Qed.

Lemma row_op_diag (f : R -> R -> R) (g : vec -> R) (A : mat) :
  row_op f A (map g A) = map (fun r => map (fun v => f v (g r)) r) A.
Proof.
  unfold row_op. induction A as [|r A IH]; [reflexivity |].
  cbn [map combine]. now rewrite IH.
Qed.

Lemma shifted_row (c : R) (r : vec) :
  (let e := map exp (map (fun v => v - c) r) in map (fun v => v / sum e) e)
  = softmax_unshifted r.
Proof.
  cbn zeta. unfold softmax_unshifted. rewrite !map_map.
  assert (E : sum (map (fun v => exp (v - c)) r) = sum (map exp r) * exp (- c)).
  { rewrite <- sum_map_mult_r. f_equal. apply map_ext. intros v.
    unfold Rminus. apply exp_plus. }
  rewrite E. apply map_ext_in. intros v Hv.
  assert (Hr : r <> []) by (intros ->; contradiction).
  pose proof (sum_exp_pos r Hr). pose proof (exp_pos (- c)).
  unfold Rminus. rewrite exp_plus. field. split; lra.
Qed.

Lemma softmax_ok (x : mat) :
  Forall (fun r => r <> []) x -> softmax x = Ok (map softmax_unshifted x).
Proof.
  intros HF. unfold softmax. rewrite (max_axis1_ok x HF). cbn [bind].
  f_equal. rewrite row_op_diag. unfold sum_axis1.
  rewrite (row_op_diag Rdiv sum). rewrite !map_map.
  apply map_ext. intros r. apply (shifted_row (shift_of r) r).
Qed.

Lemma softmax_empty_row (x : mat) :
  In [] x -> softmax x = Err EmptyReduction.
Proof.
  intros Hin. unfold softmax.
  assert (E : max_axis1 x = Err EmptyReduction).
  { unfold max_axis1. induction x as [|r x IH]; [contradiction |].
    cbn [mapM]. destruct Hin as [-> | Hin]; [reflexivity |].
    destruct r as [|v t]; [reflexivity |]. cbn [row_max bind].
    now rewrite (IH Hin). }
  now rewrite E.
Qed.

(** ** The forward pass *)

Lemma wf_model_spec (st : model) :
  wf_model st = true ->
  has_shape (input_size st) (hidden_size st) (W1 st) = true /\
  length (b1 st) = hidden_size st /\
  has_shape (hidden_size st) (output_size st) (W2 st) = true /\
  length (b2 st) = output_size st.
Proof.
  unfold wf_model. rewrite !andb_true_iff, !Nat.eqb_eq. tauto.
Qed.

Lemma wf_model_intro (st : model) :
  has_shape (input_size st) (hidden_size st) (W1 st) = true ->
  length (b1 st) = hidden_size st ->
  has_shape (hidden_size st) (output_size st) (W2 st) = true ->
  length (b2 st) = output_size st ->
  wf_model st = true.
Proof.
  intros. unfold wf_model. rewrite !andb_true_iff, !Nat.eqb_eq. tauto.
Qed.

Lemma has_shape_map_rows (g : vec -> vec) (m n : nat) (A : mat) :
  (forall r, length (g r) = length r) ->
  has_shape m n A = true -> has_shape m n (map g A) = true.
Proof.
  intros Hg HA. apply has_shape_spec in HA. destruct HA as [HL HF].
  apply has_shape_spec. split; [now rewrite length_map |].
  rewrite Forall_forall in *. intros r Hr. apply in_map_iff in Hr.
  destruct Hr as (r0 & <- & Hr0). rewrite Hg. now apply HF.
Qed.

Lemma has_shape_map_map (g : R -> R) (m n : nat) (A : mat) :
  has_shape m n A = true -> has_shape m n (map (map g) A) = true.
Proof. apply has_shape_map_rows. intros r. apply length_map. Qed.

Lemma has_shape_nonempty_rows (m n : nat) (A : mat) :
  has_shape m n A = true -> (1 <= n)%nat -> Forall (fun r => r <> []) A.
Proof.
  intros HA Hn. apply has_shape_spec in HA. destruct HA as [_ HF].
  rewrite Forall_forall in *. intros r Hr E. specialize (HF r Hr).
  subst r. cbn in HF. lia.
Qed.

Lemma forward_activations_shapes (st : model) (x : mat) :
  let c := forward_activations st x in
  has_shape (length x) (hidden_size st) (z1 c) = true /\
  has_shape (length x) (hidden_size st) (a1 c) = true /\
  has_shape (length x) (output_size st) (z2 c) = true /\
  has_shape (length x) (output_size st) (a2 c) = true.
Proof.
  cbn zeta. unfold forward_activations. cbn [z1 a1 z2 a2].
  repeat split.
  - apply build_shape.
  - apply has_shape_map_map, build_shape.
  - apply build_shape.
  - apply has_shape_map_rows; [apply softmax_unshifted_length | apply build_shape].
Qed.

Lemma forward_spec (st : model) (x : mat) :
  wf_model st = true ->
  has_shape (length x) (input_size st) x = true ->
  (1 <= output_size st)%nat ->
  forward st x =
  Ok (a2 (forward_activations st x), set_cache st (forward_activations st x)).
Proof.
  intros Hwf Hx Ho.
  destruct (wf_model_spec st Hwf) as (HW1 & Hb1 & HW2 & Hb2).
  unfold forward, forward_activations.
  rewrite (dot_build (length x) (input_size st) (hidden_size st)) by assumption.
  cbn [bind].
  rewrite (add_rowvec_build (length x) (hidden_size st))
    by (apply build_shape || assumption).
  cbn [bind].
  set (Z1 := build (length x) (hidden_size st) _).
  set (Z1' := build (length x) (hidden_size st) _).
  assert (EZ : Z1 = Z1').
  { apply build_ext. intros i j Hi Hj. now rewrite entry_build. }
  rewrite EZ. clear EZ Z1.
  assert (HA1 : has_shape (length x) (hidden_size st) (relu Z1') = true)
    by (apply has_shape_map_map, build_shape).
  rewrite (dot_build (length x) (hidden_size st) (output_size st)) by assumption.
  cbn [bind].
  rewrite (add_rowvec_build (length x) (output_size st))
    by (apply build_shape || assumption).
  cbn [bind].
  set (Z2 := build (length x) (output_size st) _).
  set (Z2' := build (length x) (output_size st) _).
  assert (EZ : Z2 = Z2').
  { apply build_ext. intros i j Hi Hj. now rewrite entry_build. }
  rewrite EZ. clear EZ Z2.
  rewrite softmax_ok
    by (apply (has_shape_nonempty_rows (length x) (output_size st));
        [apply build_shape | assumption]).
  reflexivity.
Qed.

(** ** The backward pass *)

Ltac entries :=
  repeat first
    [ rewrite entry_build by lia
    | rewrite nth_build_vec by lia ].

Lemma backward_spec (st : model) (c : activations) (X Y : mat) (lr : R) :
  wf_model st = true -> (1 <= output_size st)%nat ->
  cache st = Some c ->
  has_shape (length X) (hidden_size st) (z1 c) = true ->
  has_shape (length X) (hidden_size st) (a1 c) = true ->
  has_shape (length X) (output_size st) (a2 c) = true ->
  has_shape (length X) (input_size st) X = true ->
  has_shape (length X) (output_size st) Y = true ->
  backward st X Y lr =
  if (length X =? 0)%nat then Err DivideByZero
  else Ok (gradient_step st c X Y lr).
Proof.
  intros Hwf Ho Hc Hz1 Ha1 Ha2 HX HY.
  destruct (wf_model_spec st Hwf) as (HW1 & Hb1 & HW2 & Hb2).
  unfold backward, activations_of. rewrite Hc. cbn [bind].
  set (m := length X) in *. set (n := input_size st) in *.
  set (h := hidden_size st) in *. set (o := output_size st) in *.
  rewrite (mat_op_build Rminus m o) by assumption. cbn [bind].
  change (build m o (fun i j => entry (a2 c) i j - entry Y i j))
    with (build m o (out_grad c Y)).
  set (dz2 := build m o (out_grad c Y)).
  assert (Hdz2 : has_shape m o dz2 = true) by apply build_shape.
  rewrite (transpose_build m h) by assumption.
  rewrite (dot_build h m o) by (apply build_shape || assumption). cbn [bind].
  destruct (Nat.eqb_spec m 0) as [Hm | Hm].
  { rewrite Hm. destruct h as [|h'].
    - rewrite div_count_no_row. cbn [bind].
      rewrite (sum_axis0_build m o) by assumption.
      now rewrite div_count_vec_zero.
    - now rewrite div_count_zero by lia. }
  rewrite (div_count_build h o) by (apply build_shape || assumption). cbn [bind].
  set (dW2 := build h o _).
  rewrite (sum_axis0_build m o) by assumption.
  rewrite (div_count_vec_build o) by (apply build_vec_length || assumption).
  cbn [bind]. set (db2 := build_vec o _).
  rewrite (transpose_build h o) by assumption.
  rewrite (dot_build m o h) by (apply build_shape || assumption). cbn [bind].
  set (da1 := build m h _).
  rewrite (map_map_build _ m h (z1 c) Hz1 : relu_derivative (z1 c) = _).
  rewrite (mat_op_build Rmult m h) by apply build_shape. cbn [bind].
  set (dz1 := build m h _).
  assert (Edz1 : forall i j, (i < m)%nat -> (j < h)%nat ->
                   entry dz1 i j = hid_grad st c Y i j).
  { intros i j Hi Hj. unfold dz1, da1, hid_grad, relu_gate. entries.
    f_equal. apply big_sum_ext. intros k Hk. unfold dz2. entries. reflexivity. }
  rewrite (transpose_build m n) by assumption.
  rewrite (dot_build n m h) by apply build_shape. cbn [bind].
  rewrite (div_count_build n h) by (apply build_shape || assumption). cbn [bind].
  set (dW1 := build n h _).
  rewrite (sum_axis0_build m h) by apply build_shape.
  rewrite (div_count_vec_build h) by (apply build_vec_length || assumption).
  cbn [bind]. set (db1 := build_vec h _).
  rewrite (scale_build lr h o dW2) by apply build_shape.
  rewrite (mat_op_build Rminus h o) by (apply build_shape || assumption).
  cbn [bind].
  rewrite (scale_vec_build lr o) by apply build_vec_length.
  rewrite (vec_op_build Rminus o) by (apply build_vec_length || assumption).
  cbn [bind].
  rewrite (scale_build lr n h dW1) by apply build_shape.
  rewrite (mat_op_build Rminus n h) by (apply build_shape || assumption).
  cbn [bind].
  rewrite (scale_vec_build lr h) by apply build_vec_length.
  rewrite (vec_op_build Rminus h) by (apply build_vec_length || assumption).
  cbn [bind].
  unfold gradient_step. fold m n h o. do 2 f_equal.
  - apply build_ext. intros p j Hp Hj. unfold dW1, dW1_mean. fold m. entries.
    do 3 f_equal. apply big_sum_ext. intros i Hi. entries.
    now rewrite Edz1.
  - apply build_vec_ext. intros j Hj. unfold db1, db1_mean. fold m. entries.
    do 3 f_equal. apply big_sum_ext. intros i Hi. now apply Edz1.
  - apply build_ext. intros j k Hj Hk. unfold dW2, dW2_mean. fold m. entries.
    do 3 f_equal. apply big_sum_ext. intros i Hi. unfold dz2. entries.
    reflexivity.
  - apply build_vec_ext. intros k Hk. unfold db2, db2_mean. fold m. entries.
    do 3 f_equal. apply big_sum_ext. intros i Hi. unfold dz2. entries.
    reflexivity.
Qed.

(** ** The loss *)

Lemma clip_bounds (v : R) :
  epsilon <= clip epsilon (1 - epsilon) v <= 1 - epsilon.
Proof.
  unfold clip, epsilon, Rmin, Rmax.
  destruct (Rle_dec v 1e-15); destruct (Rle_dec _ (1 - 1e-15)); lra.
Qed.

Lemma ln_clip_neg (v : R) :
  ln (clip epsilon (1 - epsilon) v) <= ln (1 - epsilon) /\ ln (1 - epsilon) < 0.
Proof.
  pose proof (clip_bounds v) as [Hlo Hhi].
  assert (He : 0 < epsilon) by (unfold epsilon; lra).
  assert (He1 : epsilon < 1) by (unfold epsilon; lra).
  split.
  - destruct Hhi as [Hlt | Heq]; [| rewrite Heq; lra].
    left. apply ln_increasing; lra.
  - rewrite <- ln_1. apply ln_increasing; lra.
Qed.

Lemma big_sum_opp (n : nat) (f : nat -> R) :
  big_sum n (fun i => - f i) = - big_sum n f.
Proof.
  unfold big_sum, sum. induction (seq 0 n) as [|a l IH]; cbn [map fold_right];
    [lra | rewrite IH; lra].
Qed.

Lemma big_sum_ge (n : nat) (f : nat -> R) (b : R) :
  (forall i, (i < n)%nat -> b <= f i) -> INR n * b <= big_sum n f.
Proof.
  unfold big_sum, sum. intros H.
  assert (G : forall l, (forall i, In i l -> b <= f i) ->
                        INR (length l) * b <= fold_right Rplus 0 (map f l)).
  { induction l as [|a l IH]; intros Hl.
    - cbn. lra.
    - cbn [length map fold_right]. rewrite S_INR.
      pose proof (Hl a (or_introl eq_refl)).
      assert (INR (length l) * b <= fold_right Rplus 0 (map f l))
        by (apply IH; intros i Hi; apply Hl; now right).
      lra. }
  specialize (G (seq 0 n)). rewrite length_seq in G. apply G.
  intros i Hi. apply in_seq in Hi. apply H. lia.
Qed.

Lemma big_sum_single (n k : nat) (f g : nat -> R) :
  (k < n)%nat ->
  (forall j, (j < n)%nat -> f j = if (j =? k)%nat then 1 else 0) ->
  big_sum n (fun j => f j * g j) = g k.
Proof.
  intros Hk Hf.
  assert (G : forall a len, (a + len <= n)%nat ->
            fold_right Rplus 0 (map (fun j => f j * g j) (seq a len)) =
            if ((a <=? k) && (k <? a + len))%nat then g k else 0).
  { intros a len. revert a. induction len as [|len IH]; intros a Hle.
    - cbn [seq map fold_right].
      destruct (Nat.leb_spec a k); destruct (Nat.ltb_spec k (a + 0));
        cbn [andb]; (reflexivity || lia).
    - cbn [seq map fold_right]. rewrite IH by lia. rewrite Hf by lia.
      destruct (Nat.eqb_spec a k) as [-> | Hne].
      + rewrite (proj2 (Nat.leb_gt (S k) k)) by lia. cbn [andb].
        rewrite Nat.leb_refl, (proj2 (Nat.ltb_lt k (k + S len))) by lia.
        cbn [andb]. lra.
      + destruct (Nat.leb_spec (S a) k); destruct (Nat.leb_spec a k);
          destruct (Nat.ltb_spec k (S a + len));
          destruct (Nat.ltb_spec k (a + S len)); cbn [andb]; try lia; lra. }
  unfold big_sum, sum. rewrite (G 0%nat n) by lia.
  rewrite (proj2 (Nat.ltb_lt k (0 + n))) by lia. reflexivity.
Qed.

Lemma sum_axis1_build (m n : nat) (f : nat -> nat -> R) :
  sum_axis1 (build m n f) = build_vec m (fun i => big_sum n (f i)).
Proof.
  unfold sum_axis1, build, build_vec. rewrite map_map. reflexivity.
Qed.

Lemma mean_build_vec (m : nat) (g : nat -> R) :
  mean (build_vec m g) =
  if (m =? 0)%nat then Err DivideByZero else Ok (big_sum m g / INR m).
Proof.
  unfold mean. pose proof (build_vec_length m g) as HL.
  destruct (build_vec m g) as [|a v] eqn:E.
  - cbn in HL. subst m. reflexivity.
  - destruct (Nat.eqb_spec m 0) as [-> | Hm]; [discriminate |].
    rewrite HL, <- E. reflexivity.
Qed.

Lemma compute_loss_spec (m n : nat) (y_pred y_true : mat) :
  has_shape m n y_pred = true -> has_shape m n y_true = true ->
  compute_loss y_pred y_true =
  if (m =? 0)%nat then Err DivideByZero
  else Ok (cross_entropy y_pred y_true).
Proof.
  intros HP HY. unfold compute_loss.
  pose proof (has_shape_map_map (clip epsilon (1 - epsilon)) _ _ _ HP) as HC.
  pose proof (has_shape_map_map ln _ _ _ HC) as HL.
  rewrite (mat_op_build Rmult m n) by assumption. cbn [bind].
  rewrite sum_axis1_build, mean_build_vec.
  destruct (Nat.eqb_spec m 0) as [Hm | Hm]; [reflexivity |]. cbn [bind].
  f_equal. unfold cross_entropy.
  rewrite (has_shape_length _ _ _ HY).
  unfold Rdiv. rewrite Ropp_mult_distr_l, <- big_sum_opp. f_equal.
  apply big_sum_ext. intros i Hi. f_equal.
  rewrite (has_shape_row m n) by (assumption || lia).
  apply big_sum_ext. intros j Hj. f_equal.
  rewrite (map_map_build ln m n) by assumption. entries.
  rewrite (map_map_build _ m n) by assumption. entries. reflexivity.
Qed.

Lemma cross_entropy_pos (m n : nat) (y_pred y_true : mat) :
  has_shape m n y_true = true -> Forall one_hot_row y_true -> (1 <= m)%nat ->
  - ln (1 - epsilon) <= cross_entropy y_pred y_true /\
  0 < cross_entropy y_pred y_true.
Proof.
  intros HY Hhot Hm. unfold cross_entropy.
  pose proof (has_shape_length _ _ _ HY) as LY. rewrite LY.
  assert (Hpos : 0 < INR m) by (apply lt_0_INR; lia).
  pose proof (ln_clip_neg 0) as [_ Hneg].
  assert (Hsum : INR m * (- ln (1 - epsilon)) <=
                 big_sum m (fun i => - big_sum (length (nth i y_true []))
                   (fun j => entry y_true i j *
                      ln (clip epsilon (1 - epsilon) (entry y_pred i j))))).
  { apply big_sum_ge. intros i Hi.
    rewrite Forall_forall in Hhot.
    destruct (Hhot (nth i y_true [])) as (k & Hk & Hrow);
      [apply nth_In; lia |].
    rewrite (big_sum_single _ k) by (assumption || exact Hrow).
    pose proof (ln_clip_neg (entry y_pred i k)) as [Hle _]. lra. }
  assert (Hle : - ln (1 - epsilon) <=
                big_sum m (fun i => - big_sum (length (nth i y_true []))
                   (fun j => entry y_true i j *
                      ln (clip epsilon (1 - epsilon) (entry y_pred i j))))
                / INR m).
  { apply (Rmult_le_reg_r (INR m)); [exact Hpos |].
    unfold Rdiv. rewrite Rmult_assoc, Rinv_l by lra. lra. }
  split; [exact Hle | lra].
Qed.

(** ** Metrics and indexing *)

Lemma observe_mean (v : vec) : observe (mean v) = Ok (metric (mean v)).
Proof. destruct v; reflexivity. Qed.

Lemma observe_loss (m n : nat) (P Y : mat) :
  has_shape m n P = true -> has_shape m n Y = true ->
  observe (compute_loss P Y) = Ok (metric (compute_loss P Y)).
Proof.
  intros HP HY. rewrite (compute_loss_spec m n) by assumption.
  now destruct (m =? 0)%nat.
Qed.

Lemma argmax_from_lt (r : vec) :
  forall best besti i, (besti < i)%nat ->
    (argmax_from best besti i r < i + length r)%nat.
Proof.
  induction r as [|v t IH]; intros best besti i Hlt; cbn [argmax_from length].
  - lia.
  - destruct (Rlt_dec best v).
    + specialize (IH v i (S i)). lia.
    + specialize (IH best besti (S i)). lia.
Qed.

Lemma argmax_ok (r : vec) :
  r <> [] -> exists k, argmax r = Ok k /\ (k < length r)%nat.
Proof.
  destruct r as [|v t]; [congruence | intros _].
  exists (argmax_from v 0%nat 1%nat t). split; [reflexivity |].
  pose proof (argmax_from_lt t v 0%nat 1%nat). cbn [length]. lia.
Qed.

Lemma mapM_argmax_ok (A : mat) :
  Forall (fun r => r <> []) A ->
  exists l, mapM argmax A = Ok l /\ length l = length A.
Proof.
  induction A as [|r A IH]; intros HF.
  - exists []. split; reflexivity.
  - inversion HF as [|? ? Hr HF']; subst.
    destruct (argmax_ok r Hr) as (k & Hk & _).
    destruct (IH HF') as (l & Hl & HLl).
    exists (k :: l). cbn [mapM]. rewrite Hk. cbn [bind]. rewrite Hl.
    cbn [bind length]. split; [reflexivity | now rewrite HLl].
Qed.

Lemma observe_accuracy (m o o' : nat) (P Y : mat) :
  has_shape m o P = true -> has_shape m o' Y = true ->
  (1 <= o)%nat -> (1 <= o')%nat ->
  observe (accuracy P Y) = Ok (metric (accuracy P Y)).
Proof.
  intros HP HY Ho Ho'.
  destruct (mapM_argmax_ok P (has_shape_nonempty_rows _ _ _ HP Ho))
    as (lp & Hlp & Llp).
  destruct (mapM_argmax_ok Y (has_shape_nonempty_rows _ _ _ HY Ho'))
    as (ly & Hly & Lly).
  unfold accuracy. rewrite Hlp, Hly. cbn [bind].
  rewrite Llp, Lly, (has_shape_length _ _ _ HP), (has_shape_length _ _ _ HY).
  rewrite Nat.eqb_refl. apply observe_mean.
Qed.

Lemma take_ok {A : Type} (indices : list nat) (l : list (list A)) :
  Forall (fun i => (i < length l)%nat) indices ->
  take indices l = Ok (shuffled indices l).
Proof.
  unfold take, shuffled. induction indices as [|i t IH]; intros HF.
  - reflexivity.
  - inversion HF as [|? ? Hi HF']; subst. cbn [mapM map].
    rewrite (nth_error_nth' l [] Hi). cbn [bind]. rewrite (IH HF').
    reflexivity.
Qed.

Lemma permutation_in_range (n : nat) (indices : list nat) :
  Permutation (seq 0 n) indices ->
  length indices = n /\ Forall (fun i => (i < n)%nat) indices.
Proof.
  intros HP. split.
  - apply Permutation_length in HP. now rewrite length_seq in HP.
  - apply Forall_forall. intros i Hi.
    apply (Permutation_in _ (Permutation_sym HP)) in Hi.
    apply in_seq in Hi. lia.
Qed.

Lemma shuffled_shape (m n : nat) (A : mat) (indices : list nat) :
  has_shape m n A = true -> Forall (fun i => (i < m)%nat) indices ->
  has_shape (length indices) n (shuffled indices A) = true.
Proof.
  intros HA HF. apply has_shape_spec. unfold shuffled.
  split; [apply length_map |].
  rewrite Forall_forall in *. intros r Hr. apply in_map_iff in Hr.
  destruct Hr as (i & <- & Hi). apply (has_shape_row m n); auto.
Qed.

Lemma as_float_shuffled (indices : list nat) (y : list (list Z)) :
  as_float (shuffled indices y) = shuffled indices (as_float y).
Proof.
  unfold as_float, shuffled. rewrite map_map. apply map_ext. intros i.
  symmetry. apply (map_nth (map IZR) y []).
Qed.

Lemma as_float_length (y : list (list Z)) : length (as_float y) = length y.
Proof. unfold as_float. apply length_map. Qed.

(** ** Frame properties of the classifier *)

Lemma set_cache_frame (st1 st2 : model) (c : activations) :
  params st1 = params st2 -> sizes st1 = sizes st2 ->
  set_cache st1 c = set_cache st2 c.
Proof.
  destruct st1, st2. unfold params, sizes, set_cache. cbn.
  intros Hp Hs. inversion Hp. inversion Hs. reflexivity.
Qed.

Lemma forward_activations_frame (st1 st2 : model) (x : mat) :
  params st1 = params st2 -> sizes st1 = sizes st2 ->
  forward_activations st1 x = forward_activations st2 x.
Proof.
  destruct st1, st2. unfold params, sizes, forward_activations. cbn.
  intros Hp Hs. inversion Hp. inversion Hs. reflexivity.
Qed.

Lemma after_epoch_frame (st1 st2 : model) (Xs Ys : mat) (lr : R) :
  params st1 = params st2 -> sizes st1 = sizes st2 ->
  after_epoch st1 Xs Ys lr = after_epoch st2 Xs Ys lr.
Proof.
  intros Hp Hs. unfold after_epoch.
  rewrite (forward_activations_frame st1 st2) by assumption.
  now rewrite (set_cache_frame st1 st2).
Qed.

Lemma set_cache_wf (st : model) (c : activations) :
  wf_model (set_cache st c) = wf_model st.
Proof. reflexivity. Qed.

Lemma gradient_step_sizes (st : model) (c : activations) (X Y : mat) (lr : R) :
  sizes (gradient_step st c X Y lr) = sizes st.
Proof. reflexivity. Qed.

Lemma gradient_step_wf (st : model) (c : activations) (X Y : mat) (lr : R) :
  wf_model (gradient_step st c X Y lr) = true.
Proof.
  apply wf_model_intro; unfold gradient_step, set_params;
    cbn [W1 b1 W2 b2 input_size hidden_size output_size].
  - apply build_shape.
  - apply build_vec_length.
  - apply build_shape.
  - apply build_vec_length.
Qed.

Lemma after_epoch_wf (st : model) (Xs Ys : mat) (lr : R) :
  wf_model (after_epoch st Xs Ys lr) = true /\
  sizes (after_epoch st Xs Ys lr) = sizes st.
Proof. split; [apply gradient_step_wf | reflexivity]. Qed.

(** ** One epoch *)

Lemma wf_dataset_spec (n o : nat) (d : dataset) :
  wf_dataset n o d = true ->
  has_shape (length (X_train d)) n (X_train d) = true /\
  has_shape (length (X_train d)) o (as_float (y_train d)) = true /\
  has_shape (length (X_test d)) n (X_test d) = true /\
  has_shape (length (X_test d)) o (as_float (y_test d)) = true.
Proof. unfold wf_dataset. rewrite !andb_true_iff. tauto. Qed.

Section Training.
Context `{RS : RandomState}.

Lemma epoch_body_spec (b : bool) (d : dataset) (lr : R) (st : model) (g : rng) :
  wf_model st = true ->
  wf_dataset (input_size st) (output_size st) d = true ->
  (1 <= output_size st)%nat ->
  let indices := fst (random_permutation (length (X_train d)) g) in
  let Xs := shuffled indices (X_train d) in
  let Ys := as_float (shuffled indices (y_train d)) in
  let c := forward_activations st Xs in
  let st1 := after_epoch st Xs Ys lr in
  let c' := forward_activations st1 (X_test d) in
  epoch_body b d lr (st, g) =
  if (length (X_train d) =? 0)%nat then Err DivideByZero
  else Ok (if b then set_cache st1 c' else st1,
           snd (random_permutation (length (X_train d)) g),
           mk_epoch_log
             (metric (compute_loss (a2 c) Ys))
             (metric (accuracy (a2 c) Ys))
             (if b then Some (metric (accuracy (a2 c') (as_float (y_test d))))
              else None)).
Proof.
  intros Hwf Hd Ho. cbn zeta.
  destruct (wf_dataset_spec _ _ _ Hd) as (HXt & Hyt & HXe & Hye).
  pose proof (permutation_perm (length (X_train d)) g) as Hperm.
  unfold epoch_body.
  destruct (random_permutation (length (X_train d)) g) as [idx g1].
  cbn [fst snd] in *.
  destruct (permutation_in_range _ _ Hperm) as [Lidx Fidx].
  assert (Lyt : length (y_train d) = length (X_train d)).
  { apply has_shape_length in Hyt. now rewrite as_float_length in Hyt. }
  rewrite take_ok by assumption. cbn [bind].
  rewrite take_ok by now rewrite Lyt. cbn [bind].
  set (Xs := shuffled idx (X_train d)).
  set (Ys := as_float (shuffled idx (y_train d))).
  assert (LXs : length Xs = length (X_train d))
    by (unfold Xs, shuffled; now rewrite length_map).
  assert (HXs : has_shape (length Xs) (input_size st) Xs = true).
  { rewrite LXs, <- Lidx. now apply (shuffled_shape (length (X_train d))). }
  assert (HYs : has_shape (length Xs) (output_size st) Ys = true).
  { unfold Ys. rewrite as_float_shuffled, LXs, <- Lidx.
    now apply (shuffled_shape (length (X_train d))). }
  rewrite forward_spec by assumption. cbn [bind].
  set (c := forward_activations st Xs).
  destruct (forward_activations_shapes st Xs) as (Hz1 & Ha1 & Hz2 & Ha2).
  fold c in Hz1, Ha1, Hz2, Ha2.
  rewrite (observe_loss (length Xs) (output_size st)) by assumption.
  cbn [bind].
  rewrite (observe_accuracy (length Xs) (output_size st) (output_size st))
    by assumption.
  cbn [bind].
  rewrite (backward_spec (set_cache st c) c) by (assumption || reflexivity).
  rewrite LXs.
  destruct (Nat.eqb_spec (length (X_train d)) 0) as [E | NE]; [reflexivity |].
  cbn [bind]. fold (after_epoch st Xs Ys lr).
  set (st1 := after_epoch st Xs Ys lr).
  destruct b; [| reflexivity].
  destruct (after_epoch_wf st Xs Ys lr) as [Hwf1 Hs1]. fold st1 in Hwf1, Hs1.
  assert (Ein : input_size st1 = input_size st) by reflexivity.
  assert (Eout : output_size st1 = output_size st) by reflexivity.
  rewrite forward_spec by (rewrite ?Ein, ?Eout; assumption). cbn [bind].
  destruct (forward_activations_shapes st1 (X_test d)) as (_ & _ & _ & Ha2').
  rewrite (observe_accuracy (length (X_test d)) (output_size st) (output_size st))
    by assumption.
  reflexivity.
Qed.
End Training.

(** ** The loop over epochs *)

Section Loop.
Context `{RS : RandomState}.

Lemma run_epochs_same (s1 s2 : nat -> bool) (d : dataset) (lr : R)
  (epochs : list nat) :
  forall st1 st2 g h1 h2,
    wf_model st1 = true ->
    wf_dataset (input_size st1) (output_size st1) d = true ->
    (1 <= output_size st1)%nat ->
    params st1 = params st2 -> sizes st1 = sizes st2 ->
    map loss h1 = map loss h2 -> map acc h1 = map acc h2 ->
    same_training (run_epochs s1 d lr epochs (st1, g) h1)
                  (run_epochs s2 d lr epochs (st2, g) h2).
Proof.
  induction epochs as [|epoch rest IH];
    intros st1 st2 g h1 h2 Hwf Hd Ho Hp Hs Hl Ha.
  - cbn [run_epochs same_training]. auto.
  - cbn [run_epochs].
    assert (Hwf2 : wf_model st2 = true).
    { destruct st1, st2. unfold params, sizes, wf_model in *. cbn in *.
      inversion Hp. inversion Hs. now subst. }
    assert (Ei : input_size st2 = input_size st1)
      by (unfold sizes in Hs; now inversion Hs).
    assert (Eo : output_size st2 = output_size st1)
      by (unfold sizes in Hs; now inversion Hs).
    rewrite (epoch_body_spec (s1 epoch) d lr st1 g) by assumption.
    rewrite (epoch_body_spec (s2 epoch) d lr st2 g)
      by (rewrite ?Ei, ?Eo; assumption).
    destruct (length (X_train d) =? 0)%nat; [reflexivity |]. cbn [bind].
    set (idx := fst (random_permutation (length (X_train d)) g)).
    set (Xs := shuffled idx (X_train d)).
    set (Ys := as_float (shuffled idx (y_train d))).
    rewrite <- (forward_activations_frame st1 st2 Xs Hp Hs).
    rewrite <- (after_epoch_frame st1 st2 Xs Ys lr Hp Hs).
    destruct (after_epoch_wf st1 Xs Ys lr) as [Hwf' Hs'].
    set (st' := after_epoch st1 Xs Ys lr) in *.
    apply IH.
    + destruct (s1 epoch); [rewrite set_cache_wf |]; exact Hwf'.
    + destruct (s1 epoch); exact Hd.
    + destruct (s1 epoch); exact Ho.
    + destruct (s1 epoch), (s2 epoch); reflexivity.
    + destruct (s1 epoch), (s2 epoch); reflexivity.
    + rewrite !map_app. cbn [map loss]. now rewrite Hl.
    + rewrite !map_app. cbn [map acc]. now rewrite Ha.
Qed.

Lemma run_epochs_ok (s : nat -> bool) (d : dataset) (lr : R)
  (epochs : list nat) :
  forall st g h,
    wf_model st = true ->
    wf_dataset (input_size st) (output_size st) d = true ->
    (1 <= output_size st)%nat ->
    epochs = [] \/ (1 <= length (X_train d))%nat ->
    exists st' g' h',
      run_epochs s d lr epochs (st, g) h = Ok (st', g', h') /\
      wf_model st' = true /\ sizes st' = sizes st /\
      length h' = (length h + length epochs)%nat.
Proof.
  induction epochs as [|epoch rest IH]; intros st g h Hwf Hd Ho Hm.
  - exists st, g, h. cbn [run_epochs length]. rewrite Nat.add_0_r. auto.
  - destruct Hm as [Hm | Hm]; [discriminate |].
    cbn [run_epochs]. rewrite epoch_body_spec by assumption.
    destruct (Nat.eqb_spec (length (X_train d)) 0) as [E | _]; [lia |].
    cbn [bind].
    set (idx := fst (random_permutation (length (X_train d)) g)).
    set (Xs := shuffled idx (X_train d)).
    set (Ys := as_float (shuffled idx (y_train d))).
    destruct (after_epoch_wf st Xs Ys lr) as [Hwf' Hs'].
    set (st1 := after_epoch st Xs Ys lr) in *.
    set (st2 := if s epoch then _ else st1).
    assert (Hwf2 : wf_model st2 = true)
      by (unfold st2; destruct (s epoch); [rewrite set_cache_wf |]; exact Hwf').
    assert (Hs2 : sizes st2 = sizes st)
      by (unfold st2; destruct (s epoch); exact Hs').
    assert (Ei : input_size st2 = input_size st)
      by (unfold sizes in Hs2; now inversion Hs2).
    assert (Eo : output_size st2 = output_size st)
      by (unfold sizes in Hs2; now inversion Hs2).
    match goal with |- context [run_epochs s d lr rest (st2, ?g1) ?h1] =>
      destruct (IH st2 g1 h1) as (st' & g' & h' & Hrun & Hwf3 & Hs3 & Hlen)
    end; rewrite ?Ei, ?Eo; try assumption; [now right |].
    exists st', g', h'. repeat split; try assumption.
    + congruence.
    + rewrite Hlen, length_app. cbn [length]. lia.
Qed.

Lemma run_epochs_empty_batch (s : nat -> bool) (d : dataset) (lr : R)
  (epoch : nat) (rest : list nat) (st : model) (g : rng) (h : list epoch_log) :
  wf_model st = true ->
  wf_dataset (input_size st) (output_size st) d = true ->
  (1 <= output_size st)%nat ->
  length (X_train d) = 0%nat ->
  run_epochs s d lr (epoch :: rest) (st, g) h = Err DivideByZero.
Proof.
  intros Hwf Hd Ho Hm. cbn [run_epochs].
  rewrite epoch_body_spec by assumption. now rewrite Hm.
Qed.
End Loop.

(** ** The training entry point *)

Lemma has_shape_firstn (k m n : nat) (A : mat) :
  has_shape m n A = true -> has_shape (Nat.min k m) n (firstn k A) = true.
Proof.
  intros HA. apply has_shape_spec in HA. destruct HA as [HL HF].
  apply has_shape_spec. split; [now rewrite length_firstn, HL |].
  rewrite Forall_forall in *. intros r Hr. apply HF.
  rewrite <- (firstn_skipn k A). apply in_or_app. now left.
Qed.

Lemma has_shape_skipn (k m n : nat) (A : mat) :
  has_shape m n A = true -> has_shape (m - k) n (skipn k A) = true.
Proof.
  intros HA. apply has_shape_spec in HA. destruct HA as [HL HF].
  apply has_shape_spec. split; [now rewrite length_skipn, HL |].
  rewrite Forall_forall in *. intros r Hr. apply HF.
  rewrite <- (firstn_skipn k A). apply in_or_app. now right.
Qed.

Lemma label_of_one_hot (t : R) : exists k, (k < 3)%nat /\ label_of t = one_hot k.
Proof.
  destruct (label_of_cases t) as [[_ E] | [[_ E] | [_ E]]];
    [exists 0%nat | exists 1%nat | exists 2%nat]; (split; [lia | exact E]).
Qed.

Lemma Forall2_left {A B : Type} (P : A -> B -> Prop) (l : list A) (k : list B) :
  Forall2 P l k -> Forall (fun a => exists b, P a b) l.
Proof. induction 1; constructor; eauto. Qed.

Lemma Forall2_right {A B : Type} (P : A -> B -> Prop) (l : list A) (k : list B) :
  Forall2 P l k -> Forall (fun b => exists a, P a b) k.
Proof. induction 1; constructor; eauto. Qed.

Lemma generated_shapes (X : mat) (y : list (list Z)) :
  Forall2 generated_pair X y ->
  has_shape (length X) 4 X = true /\ has_shape (length X) 3 (as_float y) = true.
Proof.
  intros HF. pose proof (Forall2_length HF) as HL.
  split; apply has_shape_spec.
  - split; [reflexivity |]. apply Forall_forall. intros r Hr.
    pose proof (Forall2_left _ _ _ HF) as HFl. rewrite Forall_forall in HFl.
    destruct (HFl r Hr) as (l & prices & _ & _ & -> & _).
    apply normalize_deltas_length.
  - split; [now rewrite as_float_length |]. apply Forall_forall. intros r Hr.
    unfold as_float in Hr. apply in_map_iff in Hr. destruct Hr as (l & <- & Hl).
    pose proof (Forall2_right _ _ _ HF) as HFr. rewrite Forall_forall in HFr.
    destruct (HFr l Hl) as (f & prices & _ & _ & _ & ->).
    destruct (label_of_one_hot (total_change prices)) as (k & _ & ->).
    reflexivity.
Qed.

Lemma split_dataset_wf (X : mat) (y : list (list Z)) :
  has_shape (length X) 4 X = true ->
  has_shape (length X) 3 (as_float y) = true ->
  let d := split_dataset X y in
  wf_dataset 4 3 d = true /\
  length (X_train d) = split_index (length X) /\
  length (X_test d) = (length X - split_index (length X))%nat.
Proof.
  intros HX Hy. cbn zeta. unfold split_dataset.
  set (s := split_index (length X)).
  pose proof (split_index_le (length X)) as Hle. fold s in Hle.
  assert (L1 : length (firstn s X) = s) by (rewrite length_firstn; lia).
  assert (L2 : length (skipn s X) = (length X - s)%nat) by apply length_skipn.
  split; [| split; assumption].
  unfold wf_dataset. cbn [X_train X_test y_train y_test].
  rewrite L1, L2. unfold as_float. rewrite <- firstn_map, <- skipn_map.
  fold (as_float y).
  pose proof (has_shape_firstn s _ _ _ HX) as H1.
  pose proof (has_shape_firstn s _ _ _ Hy) as H2.
  rewrite (Nat.min_l s (length X)) in H1, H2 by lia.
  rewrite H1, H2, !has_shape_skipn by assumption. reflexivity.
Qed.

Section Train.
Context `{RS : RandomState} `{FR : FloatRepr}.

Lemma init_ok (n h o : nat) (g : rng) :
  (1 <= n)%nat -> (1 <= h)%nat ->
  exists st g',
    init n h o g = Ok (st, g') /\ wf_model st = true /\
    sizes st = (n, h, o) /\ cache st = None.
Proof.
  intros Hn Hh. unfold init.
  pose proof (randn_shape n h g) as S1.
  destruct (random_randn n h g) as [r1 g1]. cbn [fst] in S1.
  destruct (Nat.eqb_spec n 0) as [E | _]; [lia |].
  pose proof (randn_shape h o g1) as S2.
  destruct (random_randn h o g1) as [r2 g2]. cbn [fst] in S2.
  destruct (Nat.eqb_spec h 0) as [E | _]; [lia |].
  eexists. eexists. split; [reflexivity |].
  split; [| split; reflexivity].
  apply wf_model_intro; cbn [W1 b1 W2 b2 input_size hidden_size output_size].
  - now apply has_shape_map_map.
  - apply repeat_length.
  - now apply has_shape_map_map.
  - apply repeat_length.
Qed.

Lemma sample_prediction_ok (d : dataset) (st : model) (g : rng) :
  wf_model st = true -> wf_dataset (input_size st) 3 d = true ->
  output_size st = 3%nat -> (1 <= length (X_test d))%nat ->
  exists st' g',
    sample_prediction d (st, g) = Ok (st', g') /\
    wf_model st' = true /\ sizes st' = sizes st /\ params st' = params st.
Proof.
  intros Hwf Hd Ho Hm.
  destruct (wf_dataset_spec _ _ _ Hd) as (_ & _ & HXe & Hye).
  unfold sample_prediction.
  destruct (Nat.eqb_spec (length (X_test d)) 0) as [E | _]; [lia |].
  pose proof (randint_lt (length (X_test d)) g Hm) as Hidx.
  destruct (random_randint (length (X_test d)) g) as [idx g1].
  cbn [fst] in Hidx.
  set (x := firstn 1 (skipn idx (X_test d))).
  assert (Lx : length x = 1%nat)
    by (unfold x; rewrite length_firstn, length_skipn; lia).
  assert (Hx : has_shape (length x) (input_size st) x = true).
  { rewrite Lx. unfold x.
    replace 1%nat with (Nat.min 1 (length (X_test d) - idx)) at 1 by lia.
    now apply has_shape_firstn, has_shape_skipn. }
  rewrite forward_spec by (assumption || lia). cbn [bind].
  destruct (forward_activations_shapes st x) as (_ & _ & _ & Ha2).
  rewrite Lx, Ho in Ha2.
  set (c := forward_activations st x) in *.
  destruct (a2 c) as [|pred rest] eqn:Epred;
    [apply has_shape_length in Ha2; discriminate |].
  cbn [bind].
  pose proof (has_shape_row _ _ _ 0%nat Ha2 ltac:(lia)) as Lpred.
  cbn [nth] in Lpred.
  assert (Ly : length (y_test d) = length (X_test d)).
  { apply has_shape_length in Hye. now rewrite as_float_length in Hye. }
  assert (Hidx' : (idx < length (y_test d))%nat) by lia.
  rewrite (nth_error_nth' (y_test d) [] Hidx'). cbn [bind].
  pose proof (has_shape_row _ _ _ idx Hye Hidx) as Lrow.
  unfold as_float in Lrow.
  rewrite (nth_map_lt _ _ _ _ []) in Lrow by lia.
  destruct (argmax_ok (map IZR (nth idx (y_test d) []))) as (t & Ht & Htlt);
    [intros E; rewrite E in Lrow; discriminate |].
  rewrite Ht. cbn [bind]. rewrite Lrow in Htlt.
  destruct (nth_error label_names t) as [nm |] eqn:En;
    [| apply nth_error_None in En; cbn in En; lia].
  cbn [bind].
  destruct (argmax_ok pred) as (p & Hp & Hplt);
    [intros E; rewrite E in Lpred; discriminate |].
  rewrite Hp. cbn [bind]. rewrite Lpred in Hplt.
  destruct (nth_error label_names p) as [nm' |] eqn:En';
    [| apply nth_error_None in En'; cbn in En'; lia].
  cbn [bind].
  eexists. eexists. split; [reflexivity |]. auto.
Qed.

Lemma sample_predictions_ok (d : dataset) (k : nat) :
  forall st g,
    wf_model st = true -> wf_dataset (input_size st) 3 d = true ->
    output_size st = 3%nat -> (1 <= length (X_test d))%nat ->
    exists st' g',
      sample_predictions d k (st, g) = Ok (st', g') /\
      params st' = params st /\ sizes st' = sizes st.
Proof.
  induction k as [|k IH]; intros st g Hwf Hd Ho Hm.
  - exists st, g. auto.
  - cbn [sample_predictions].
    destruct (sample_prediction_ok d st g Hwf Hd Ho Hm)
      as (st1 & g1 & E1 & Hwf1 & Hs1 & Hp1).
    rewrite E1. cbn [bind].
    assert (Ei : input_size st1 = input_size st)
      by (unfold sizes in Hs1; now inversion Hs1).
    assert (Eo : output_size st1 = output_size st)
      by (unfold sizes in Hs1; now inversion Hs1).
    destruct (IH st1 g1) as (st2 & g2 & E2 & Hp2 & Hs2);
      rewrite ?Ei, ?Eo; try assumption.
    exists st2, g2. split; [exact E2 |]. split; congruence.
Qed.
End Train.

Section TrainRun.
Context `{RS : RandomState} `{FR : FloatRepr}.

Lemma train_ok (script_dir : string) (epochs n : nat) (lr : R) (g : rng)
  (fs : filesystem) :
  (1 <= n)%nat -> epochs = 0%nat \/ (1 <= split_index n)%nat ->
  exists r st,
    train script_dir epochs n lr g fs = Ok r /\
    wf_model st = true /\ sizes st = (4, 16, 3)%nat /\
    params (trained r) = params st /\ sizes (trained r) = sizes st /\
    files r = export_weights st (weights_path script_dir) fs /\
    length (history r) = epochs.
Proof.
  intros Hn Hrun. unfold train.
  destruct (generate_spec n g) as (HF & LX & Ly).
  destruct (generate_training_data n g) as [[X y] g0]. cbn [fst snd] in *.
  destruct (generated_shapes X y HF) as [HX Hy].
  destruct (split_dataset_wf X y HX Hy) as (Hd & Ltr & Lte).
  rewrite LX in Ltr, Lte.
  set (d := split_dataset X y) in *.
  destruct (Nat.eqb_spec (length y) 0) as [E | _]; [lia |].
  destruct (init_ok 4 16 3 g0) as (st0 & g1 & Ei & Hwf0 & Hs0 & _); [lia | lia |].
  rewrite Ei. cbn [bind].
  assert (Hin0 : input_size st0 = 4%nat) by (unfold sizes in Hs0; now inversion Hs0).
  assert (Hout0 : output_size st0 = 3%nat) by (unfold sizes in Hs0; now inversion Hs0).
  destruct (run_epochs_ok is_eval_epoch d lr (seq 0 epochs) st0 g1 [])
    as (st1 & g2 & h & Er & Hwf1 & Hs1 & Lh);
    rewrite ?Hin0, ?Hout0; try assumption; try lia.
  { destruct Hrun as [-> | Hs]; [now left | right]. rewrite Ltr. exact Hs. }
  rewrite Er. cbn [bind].
  rewrite Hs0 in Hs1.
  assert (Hin1 : input_size st1 = 4%nat) by (unfold sizes in Hs1; now inversion Hs1).
  assert (Hout1 : output_size st1 = 3%nat) by (unfold sizes in Hs1; now inversion Hs1).
  destruct (wf_dataset_spec _ _ _ Hd) as (_ & _ & HXe & Hye).
  rewrite forward_spec by (rewrite ?Hin1, ?Hout1; (assumption || lia)).
  cbn [bind].
  set (c := forward_activations st1 (X_test d)).
  destruct (forward_activations_shapes st1 (X_test d)) as (_ & _ & _ & Ha2).
  fold c in Ha2. rewrite Hout1 in Ha2.
  rewrite (observe_accuracy (length (X_test d)) 3 3) by (assumption || lia).
  cbn [bind].
  pose proof (split_index_lt n Hn) as Hlt.
  destruct (sample_predictions_ok d 5 (set_cache st1 c) g2)
    as (st2 & g3 & Es & Hp2 & Hs2);
    rewrite ?set_cache_wf; cbn [set_cache input_size output_size];
    rewrite ?Hin1, ?Hout1; try assumption; try lia.
  rewrite Es. cbn [bind].
  exists (mk_train_result st2 h (metric (accuracy (a2 c) (as_float (y_test d))))
            (export_weights (set_cache st1 c) (weights_path script_dir) fs) g3).
  exists (set_cache st1 c).
  split; [reflexivity |]. cbn [trained files history].
  rewrite set_cache_wf.
  repeat split; try assumption.
  cbn [length Nat.add] in Lh. now rewrite length_seq in Lh.
Qed.

Lemma train_empty_batch (script_dir : string) (epochs n : nat) (lr : R)
  (g : rng) (fs : filesystem) :
  (1 <= n)%nat -> (1 <= epochs)%nat -> split_index n = 0%nat ->
  train script_dir epochs n lr g fs = Err DivideByZero.
Proof.
  intros Hn He Hs. unfold train.
  destruct (generate_spec n g) as (HF & LX & Ly).
  destruct (generate_training_data n g) as [[X y] g0]. cbn [fst snd] in *.
  destruct (generated_shapes X y HF) as [HX Hy].
  destruct (split_dataset_wf X y HX Hy) as (Hd & Ltr & Lte).
  rewrite LX in Ltr, Lte.
  set (d := split_dataset X y) in *.
  destruct (Nat.eqb_spec (length y) 0) as [E | _]; [lia |].
  destruct (init_ok 4 16 3 g0) as (st0 & g1 & Ei & Hwf0 & Hs0 & _); [lia | lia |].
  rewrite Ei. cbn [bind].
  assert (Hin0 : input_size st0 = 4%nat) by (unfold sizes in Hs0; now inversion Hs0).
  assert (Hout0 : output_size st0 = 3%nat) by (unfold sizes in Hs0; now inversion Hs0).
  destruct epochs as [|k]; [lia |]. cbn [seq].
  rewrite run_epochs_empty_batch;
    rewrite ?Hin0, ?Hout0; try assumption; try lia; try reflexivity.
Qed.
End TrainRun.

Section TrainInversion.
Context `{RS : RandomState} `{FR : FloatRepr}.

Lemma train_no_samples (script_dir : string) (epochs : nat) (lr : R) (g : rng)
  (fs : filesystem) :
  train script_dir epochs 0 lr g fs = Err ShapeMismatch.
Proof.
  unfold train. destruct (generate_spec 0 g) as (_ & _ & Ly).
  destruct (generate_training_data 0 g) as [[X y] g0]. cbn [fst snd] in Ly.
  now rewrite Ly.
Qed.

Lemma train_inv (script_dir : string) (epochs n : nat) (lr : R) (g : rng)
  (fs : filesystem) (r : train_result rng) :
  train script_dir epochs n lr g fs = Ok r ->
  (1 <= n)%nat /\ (epochs = 0%nat \/ (1 <= split_index n)%nat).
Proof.
  intros E. destruct n as [|n].
  - rewrite train_no_samples in E. discriminate.
  - split; [lia |].
    destruct epochs as [|k]; [now left | right].
    destruct (split_index (S n)) as [|s] eqn:Es; [| lia].
    rewrite train_empty_batch in E by (assumption || lia). discriminate.
Qed.
End TrainInversion.

Lemma weights_document_frame (st1 st2 : model) :
  params st1 = params st2 -> sizes st1 = sizes st2 ->
  weights_document st1 = weights_document st2.
Proof.
  destruct st1, st2. unfold params, sizes, weights_document. cbn.
  intros Hp Hs. inversion Hp. inversion Hs. reflexivity.
Qed.

(** ** The encoder writes the text of the artifact *)

Lemma append_assoc (a b c : string) : (a +:+ b) +:+ c = a +:+ (b +:+ c).
Proof.
  induction a as [|x a IH]; [reflexivity |].
  change (String x ((a +:+ b) +:+ c) = String x (a +:+ (b +:+ c))).
  now rewrite IH.
Qed.

Lemma concat_cons (x : string) (l : list string) :
  l <> [] -> String.concat line_feed (x :: l) = x +:+ line_feed +:+ String.concat line_feed l.
Proof. destruct l; [congruence | reflexivity]. Qed.

Lemma concat_app (a b : list string) :
  a <> [] -> b <> [] ->
  String.concat line_feed (a ++ b) = String.concat line_feed a +:+ line_feed +:+ String.concat line_feed b.
Proof.
  intros Ha Hb. induction a as [|x a IH]; [congruence |].
  destruct a as [|y a].
  - cbn [app]. now rewrite concat_cons.
  - change ((x :: y :: a) ++ b) with (x :: ((y :: a) ++ b)).
    rewrite concat_cons by discriminate.
    rewrite IH by discriminate.
    rewrite (concat_cons x (y :: a)) by discriminate.
    now rewrite !append_assoc.
Qed.

Lemma then_comma_nonempty (b : list string) : b <> [] -> then_comma b <> [].
Proof. destruct b as [|x [|y t]]; cbn; congruence. Qed.

Lemma concat_then_comma (b : list string) :
  b <> [] -> String.concat line_feed (then_comma b) = String.concat line_feed b +:+ ","%string.
Proof.
  induction b as [|x b IH]; [congruence |]. intros _.
  destruct b as [|y b]; [reflexivity |].
  change (then_comma (x :: y :: b)) with (x :: then_comma (y :: b)).
  rewrite concat_cons by (apply then_comma_nonempty; discriminate).
  rewrite IH by discriminate.
  rewrite (concat_cons x (y :: b)) by discriminate.
  now rewrite !append_assoc.
Qed.

Section Encoding.
Context `{FR : FloatRepr}.

Lemma comma_separated_nonempty (l : list string) :
  l <> [] -> comma_separated l <> [].
Proof. destruct l as [|x [|y t]]; cbn; congruence. Qed.

Lemma concat_comma_separated (pad : string) (f : R -> string) (v : vec) :
  v <> [] ->
  String.concat line_feed (comma_separated (map (fun x => pad +:+ f x) v)) =
  pad +:+ join (","%string +:+ line_feed +:+ pad) (map f v).
Proof.
  induction v as [|x v IH]; [congruence |]. intros _.
  destruct v as [|y v]; [reflexivity |].
  change (comma_separated (map (fun x => pad +:+ f x) (x :: y :: v)))
    with (((pad +:+ f x) +:+ ","%string)
            :: comma_separated (map (fun x => pad +:+ f x) (y :: v))).
  rewrite concat_cons by (apply comma_separated_nonempty; discriminate).
  rewrite IH by discriminate.
  change (join (","%string +:+ line_feed +:+ pad) (map f (x :: y :: v)))
    with (f x +:+ (","%string +:+ line_feed +:+ pad)
            +:+ join (","%string +:+ line_feed +:+ pad) (map f (y :: v))).
  now rewrite !append_assoc.
Qed.

Lemma newline_indent_eq (level : nat) :
  newline_indent level = line_feed +:+ spaces (2 * level).
Proof. reflexivity. Qed.

Lemma vector_lines_nonempty (opening pad item_pad : string) (v : vec) :
  vector_lines opening pad item_pad v <> [].
Proof. destruct v; discriminate. Qed.

Lemma encode_vector (opening : string) (level : nat) (v : vec) :
  opening +:+ json_encode level (vec_tolist v) =
  String.concat line_feed
    (vector_lines opening (spaces (2 * level)) (spaces (2 * S level)) v).
Proof.
  destruct v as [|x v]; [reflexivity |].
  unfold vector_lines, vec_tolist.
  rewrite concat_cons by (destruct v; discriminate).
  rewrite concat_app
    by (try discriminate; apply comma_separated_nonempty; discriminate).
  rewrite concat_comma_separated by discriminate.
  change (json_encode level (JList (map JFloat (x :: v))))
    with ("["%string +:+ newline_indent (S level)
          +:+ join (","%string +:+ newline_indent (S level))
                (map (json_encode (S level)) (map JFloat (x :: v)))
          +:+ newline_indent level +:+ "]"%string).
  rewrite map_map. cbn [json_encode].
  rewrite !newline_indent_eq, !append_assoc. reflexivity.
Qed.

Lemma comma_separated_blocks_nonempty (blocks : list (list string)) :
  blocks <> [] -> Forall (fun b => b <> []) blocks ->
  comma_separated_blocks blocks <> [].
Proof.
  destruct blocks as [|b [|c t]]; intros Hne HF; [congruence | |].
  - now inversion HF.
  - cbn [comma_separated_blocks]. inversion HF; subst.
    intros E. apply app_eq_nil in E as [E _].
    now apply then_comma_nonempty in E.
Qed.

Lemma concat_rows (level : nat) (A : mat) :
  A <> [] ->
  String.concat line_feed
    (comma_separated_blocks
       (map (vector_lines (spaces (2 * level)) (spaces (2 * level))
               (spaces (2 * S level))) A)) =
  spaces (2 * level)
  +:+ join (","%string +:+ line_feed +:+ spaces (2 * level))
        (map (json_encode level) (map vec_tolist A)).
Proof.
  induction A as [|r A IH]; [congruence |]. intros _.
  destruct A as [|r' A].
  - cbn [map comma_separated_blocks join]. now rewrite <- encode_vector.
  - set (vl := vector_lines _ _ _) in *.
    change (comma_separated_blocks (map vl (r :: r' :: A)))
      with (then_comma (vl r) ++ comma_separated_blocks (map vl (r' :: A))).
    rewrite concat_app.
    + rewrite IH by discriminate.
      rewrite concat_then_comma by apply vector_lines_nonempty.
      unfold vl. rewrite <- encode_vector.
      change (join (","%string +:+ line_feed +:+ spaces (2 * level))
                (map (json_encode level) (map vec_tolist (r :: r' :: A))))
        with (json_encode level (vec_tolist r)
              +:+ (","%string +:+ line_feed +:+ spaces (2 * level))
              +:+ join (","%string +:+ line_feed +:+ spaces (2 * level))
                    (map (json_encode level) (map vec_tolist (r' :: A)))).
      now rewrite !append_assoc.
    + apply then_comma_nonempty, vector_lines_nonempty.
    + apply comma_separated_blocks_nonempty; [discriminate |].
      apply Forall_forall. intros b Hb. apply in_map_iff in Hb.
      destruct Hb as (q & <- & _). apply vector_lines_nonempty.
Qed.

Lemma matrix_lines_nonempty (opening pad row_pad item_pad : string) (A : mat) :
  matrix_lines opening pad row_pad item_pad A <> [].
Proof. destruct A; discriminate. Qed.

Lemma encode_matrix (opening : string) (level : nat) (A : mat) :
  opening +:+ json_encode level (mat_tolist A) =
  String.concat line_feed
    (matrix_lines opening (spaces (2 * level)) (spaces (2 * S level))
       (spaces (2 * S (S level))) A).
Proof.
  destruct A as [|r A]; [reflexivity |].
  unfold matrix_lines, mat_tolist.
  rewrite concat_cons by (destruct (comma_separated_blocks _); discriminate).
  rewrite concat_app; try discriminate.
  - rewrite concat_rows by discriminate.
    change (json_encode level (JList (map vec_tolist (r :: A))))
      with ("["%string +:+ newline_indent (S level)
            +:+ join (","%string +:+ newline_indent (S level))
                  (map (json_encode (S level)) (map vec_tolist (r :: A)))
            +:+ newline_indent level +:+ "]"%string).
    rewrite !newline_indent_eq, !append_assoc. reflexivity.
  - apply comma_separated_blocks_nonempty; [discriminate |].
    apply Forall_forall. intros b Hb. apply in_map_iff in Hb.
    destruct Hb as (q & <- & _). apply vector_lines_nonempty.
Qed.

Lemma encode_document (st : model) :
  json_encode 0 (weights_document st) =
  artifact_text (int_repr (Z.of_nat (input_size st)))
    (int_repr (Z.of_nat (hidden_size st)))
    (int_repr (Z.of_nat (output_size st)))
    (W1 st) (b1 st) (W2 st) (b2 st).
Proof.
  unfold artifact_text, artifact_lines.
  set (m1 := matrix_lines _ _ _ _ (W1 st)).
  set (v1 := vector_lines _ _ _ (b1 st)).
  set (m2 := matrix_lines _ _ _ _ (W2 st)).
  set (v2 := vector_lines _ _ _ (b2 st)).
  assert (N1 : then_comma m1 <> [])
    by apply then_comma_nonempty, matrix_lines_nonempty.
  assert (N2 : then_comma v1 <> [])
    by apply then_comma_nonempty, vector_lines_nonempty.
  assert (N3 : then_comma m2 <> [])
    by apply then_comma_nonempty, matrix_lines_nonempty.
  assert (N4 : v2 <> []) by apply vector_lines_nonempty.
  assert (A : forall a b : list string, a <> [] -> a ++ b <> []).
  { intros a b Ha E. apply app_eq_nil in E. tauto. }
  rewrite !concat_app; try discriminate; auto.
  rewrite !concat_then_comma
    by (apply matrix_lines_nonempty || apply vector_lines_nonempty).
  unfold m1, v1, m2, v2.
  rewrite <- !(encode_matrix _ 2), <- !(encode_vector _ 2).
  unfold weights_document.
  cbn [json_encode map fst snd join label_names].
  generalize (json_encode 2 (mat_tolist (W1 st))),
    (json_encode 2 (vec_tolist (b1 st))),
    (json_encode 2 (mat_tolist (W2 st))),
    (json_encode 2 (vec_tolist (b2 st))),
    (int_repr (Z.of_nat (input_size st))),
    (int_repr (Z.of_nat (hidden_size st))),
    (int_repr (Z.of_nat (output_size st))).
  intros e1 e2 e3 e4 sn sh so.
  rewrite !newline_indent_eq. cbn [String.concat].
  rewrite !append_assoc.
  cbv. reflexivity.
Qed.
End Encoding.

(** ** [softmax] on binary64 numbers *)

Lemma sum_perm (u v : vec) : Permutation u v -> sum u = sum v.
Proof.
  unfold sum. induction 1; cbn [fold_right]; lra.
Qed.

Lemma sum_bounds (lo hi : R) (v : vec) :
  Forall (fun x => lo <= x <= hi) v ->
  INR (length v) * lo <= sum v <= INR (length v) * hi.
Proof.
  unfold sum. induction 1 as [|x v Hx HF IH].
  - cbn. lra.
  - cbn [length fold_right]. rewrite S_INR. lra.
Qed.

Lemma sum_map_le (f g : R -> R) (v : vec) :
  (forall x, In x v -> f x <= g x) -> sum (map f v) <= sum (map g v).
Proof.
  unfold sum. induction v as [|x v IH]; intros H; cbn [map fold_right]; [lra |].
  pose proof (H x (or_introl eq_refl)).
  assert (forall y, In y v -> f y <= g y) by (intros y Hy; apply H; now right).
  specialize (IH H1). lra.
Qed.

Lemma sum_map_affine (a b : R) (v : vec) :
  sum (map (fun x => a * x + b) v) = a * sum v + INR (length v) * b.
Proof.
  unfold sum. induction v as [|x v IH]; cbn [map fold_right length].
  - cbn. lra.
  - rewrite IH, S_INR. lra.
Qed.

Lemma pow_le_one (x : R) (n : nat) : 0 <= x <= 1 -> 0 <= x ^ n <= 1.
Proof.
  intros Hx. induction n as [|n IH]; cbn [pow]; [lra |]. nra.
Qed.

Lemma pow_decreasing (x : R) (m n : nat) :
  0 <= x <= 1 -> (m <= n)%nat -> x ^ n <= x ^ m.
Proof.
  intros Hx Hmn. replace n with (m + (n - m))%nat by lia.
  rewrite pow_add.
  pose proof (pow_le_one x m Hx). pose proof (pow_le_one x (n - m) Hx). nra.
Qed.

Lemma pow_increasing (x : R) (m n : nat) :
  1 <= x -> (m <= n)%nat -> x ^ m <= x ^ n.
Proof. intros Hx Hmn. now apply Rle_pow. Qed.

Lemma shift_of_max (r : vec) :
  r <> [] -> In (shift_of r) r /\ Forall (fun x => x <= shift_of r) r.
Proof.
  destruct r as [|v t]; [congruence |]. intros _. unfold shift_of. cbn [hd tl].
  assert (G : forall (t : vec) (a : R),
             (fold_left Rmax t a = a \/ In (fold_left Rmax t a) t) /\
             a <= fold_left Rmax t a /\
             Forall (fun x => x <= fold_left Rmax t a) t).
  { clear. induction t as [|b t IH]; intros a; cbn [fold_left].
    - split; [now left |]. split; [lra | constructor].
    - destruct (IH (Rmax a b)) as (H1 & H2 & H3).
      pose proof (Rmax_l a b). pose proof (Rmax_r a b).
      split; [| split; [lra | constructor; [lra | exact H3]]].
      destruct H1 as [E | Hin]; [| right; now right].
      rewrite E. unfold Rmax. destruct (Rle_dec a b); [right | left];
        [now left | reflexivity]. }
  destruct (G t v) as (H1 & H2 & H3). split.
  - destruct H1 as [E | Hin]; [left; now rewrite E | now right].
  - constructor; assumption.
Qed.

Lemma leaves_length (t : sum_tree) : (1 <= length (leaves t))%nat.
Proof.
  induction t as [x | l IHl r IHr]; cbn [leaves length]; [lia |].
  rewrite length_app. lia.
Qed.

Section RoundedSoftmax.
Context {A : Rounded}.

Let u := roundoff.

(** A sum of binary64 numbers between 0 and 1, in whatever order it is
    taken: it is a binary64 number, no entry exceeds it, and its relative
    error grows with the number of additions only. *)
Lemma fl_tree_sum_bounds (t : sum_tree) :
  Forall is_float (leaves t) ->
  Forall (fun x => 0 <= x <= 1) (leaves t) ->
  INR (length (leaves t)) * (1 + u) ^ length (leaves t) <= largest ->
  is_float (fl_tree_sum t) /\
  Forall (fun x => x <= fl_tree_sum t) (leaves t) /\
  (1 - u) ^ (length (leaves t) - 1) * sum (leaves t) <= fl_tree_sum t
    <= (1 + u) ^ (length (leaves t) - 1) * sum (leaves t).
Proof.
  pose proof roundoff_range as Hu. fold u in Hu.
  induction t as [x | l IHl r IHr]; cbn [leaves fl_tree_sum]; intros HF HR HL.
  - inversion HF; subst. split; [assumption |].
    split; [constructor; [lra | constructor] |].
    cbn. lra.
  - apply Forall_app in HF as [HFl HFr]. apply Forall_app in HR as [HRl HRr].
    rewrite length_app in *. rewrite sum_app.
    set (nl := length (leaves l)) in *. set (nr := length (leaves r)) in *.
    assert (Hnl : (1 <= nl)%nat) by apply leaves_length.
    assert (Hnr : (1 <= nr)%nat) by apply leaves_length.
    assert (P1 : 1 <= 1 + u) by lra.
    assert (P0 : 0 <= 1 - u <= 1) by lra.
    pose proof (sum_bounds 0 1 _ HRl) as Sl. fold nl in Sl.
    pose proof (sum_bounds 0 1 _ HRr) as Sr. fold nr in Sr.
    assert (Il : 0 <= INR nl) by apply pos_INR.
    assert (Ir : 0 <= INR nr) by apply pos_INR.
    rewrite plus_INR in HL.
    pose proof (pow_increasing (1 + u) nl (nl + nr) P1 ltac:(lia)) as Q1.
    pose proof (pow_increasing (1 + u) nr (nl + nr) P1 ltac:(lia)) as Q2.
    pose proof (pow_increasing (1 + u) 0 nl P1 ltac:(lia)) as Q3.
    pose proof (pow_increasing (1 + u) 0 nr P1 ltac:(lia)) as Q4.
    cbn [pow] in Q3, Q4.
    destruct IHl as (Fl & Ml & Ll & Ul); [assumption | assumption | nra |].
    destruct IHr as (Fr & Mr & Lr & Ur); [assumption | assumption | nra |].
    set (a := fl_tree_sum l) in *. set (b := fl_tree_sum r) in *.
    pose proof (pow_le_one (1 - u) (nl - 1) P0) as Zl.
    pose proof (pow_le_one (1 - u) (nr - 1) P0) as Zr.
    assert (Ha : 0 <= a) by nra. assert (Hb : 0 <= b) by nra.
    pose proof (pow_increasing (1 + u) (nl - 1) (nl + nr - 2) P1 ltac:(lia)) as U1.
    pose proof (pow_increasing (1 + u) (nr - 1) (nl + nr - 2) P1 ltac:(lia)) as U2.
    pose proof (pow_decreasing (1 - u) (nl - 1) (nl + nr - 2) P0 ltac:(lia)) as D1.
    pose proof (pow_decreasing (1 - u) (nr - 1) (nl + nr - 2) P0 ltac:(lia)) as D2.
    pose proof (pow_increasing (1 + u) (nl + nr - 2) (nl + nr) P1 ltac:(lia)) as U3.
    pose proof (pow_le_one (1 - u) (nl + nr - 2) P0) as Z.
    set (pu := (1 + u) ^ (nl + nr - 2)) in *.
    set (pd := (1 - u) ^ (nl + nr - 2)) in *.
    assert (Hab_hi : a + b <= pu * (sum (leaves l) + sum (leaves r))) by nra.
    assert (Hab_lo : pd * (sum (leaves l) + sum (leaves r)) <= a + b) by nra.
    assert (Hpu : 1 <= pu)
      by (unfold pu; apply (pow_increasing (1 + u) 0); [exact P1 | lia]).
    assert (Hov : a + b <= largest) by nra.
    destruct (add_above a b Fl Fr Ha Hb Hov) as [Aa Ab].
    destruct (add_error a b Fl Fr Ha Hb Hov) as [Elo Ehi]. fold u in Elo, Ehi.
    split; [now apply add_float |]. split.
    + apply Forall_app. split.
      * eapply Forall_impl; [| exact Ml]. cbn beta. intros x Hx. lra.
      * eapply Forall_impl; [| exact Mr]. cbn beta. intros x Hx. lra.
    + replace (nl + nr - 1)%nat with (S (nl + nr - 2)) by lia.
      cbn [pow]. fold pu pd. split; nra.
Qed.

Lemma np_sum_bounds (e : vec) :
  e <> [] -> Forall is_float e -> Forall (fun x => 0 <= x <= 1) e ->
  INR (length e) * (1 + u) ^ length e <= largest ->
  is_float (np_sum e) /\
  Forall (fun x => x <= np_sum e) e /\
  (1 - u) ^ (length e - 1) * sum e <= np_sum e
    <= (1 + u) ^ (length e - 1) * sum e.
Proof.
  intros He HF HR HL.
  pose proof (sum_order_perm e He) as HP.
  pose proof (Permutation_sym HP) as HP'.
  destruct (fl_tree_sum_bounds (sum_order e)) as (H1 & H2 & H3).
  - exact (Permutation_Forall HP' HF).
  - exact (Permutation_Forall HP' HR).
  - now rewrite (Permutation_length HP).
  - rewrite (Permutation_length HP), (sum_perm _ _ HP) in H3.
    unfold np_sum. destruct e as [|x e]; [congruence |].
    split; [exact H1 |]. split; [| exact H3].
    exact (Permutation_Forall HP H2).
Qed.

(** The exponentials of a row, as [softmax] computes them. *)
Lemma exp_row_bounds (r : vec) :
  r <> [] -> Forall is_float r ->
  let e := map (fun x => fl_exp_minus x (shift_of r)) r in
  Forall is_float e /\ Forall (fun x => 0 <= x <= 1) e /\ In 1 e.
Proof.
  intros Hr HF. cbn zeta.
  destruct (shift_of_max r Hr) as [Hin Hmax].
  assert (Fm : is_float (shift_of r))
    by (rewrite Forall_forall in HF; now apply HF).
  rewrite Forall_forall in HF, Hmax.
  split; [| split].
  - apply Forall_forall. intros y Hy. apply in_map_iff in Hy.
    destruct Hy as (x & <- & Hx). apply exp_float; auto.
  - apply Forall_forall. intros y Hy. apply in_map_iff in Hy.
    destruct Hy as (x & <- & Hx). apply exp_range; auto.
  - apply in_map_iff. exists (shift_of r). split; [now apply exp_zero | exact Hin].
Qed.

Lemma softmax_rounded_rows (x : mat) :
  Forall (fun r => r <> []) x ->
  softmax_rounded x =
  Ok (map (fun r => let e := map (fun v => fl_exp_minus v (shift_of r)) r in
                    map (fun v => fl_div v (np_sum e)) e) x).
Proof.
  intros HF. unfold softmax_rounded. rewrite (max_axis1_ok x HF).
  cbn [bind]. cbv zeta.
  f_equal. rewrite (row_op_diag fl_div np_sum).
  rewrite (row_op_diag fl_exp_minus shift_of).
  now rewrite map_map.
Qed.

(** One row of the result: every entry lies between 0 and 1, and the
    entries add up to 1 within the rounding of the [n - 1] additions and
    the [n] divisions. *)
Lemma softmax_rounded_row (r : vec) :
  r <> [] -> Forall is_float r ->
  INR (length r) * (1 + u) ^ length r <= largest ->
  let n := length r in
  let e := map (fun v => fl_exp_minus v (shift_of r)) r in
  let p := map (fun v => fl_div v (np_sum e)) e in
  length p = n /\ 1 <= np_sum e <= INR n * (1 + u) ^ (n - 1) /\
  Forall (fun v => 0 <= v <= 1) p /\
  (1 - u) / (1 + u) ^ (n - 1) - INR n * underflow <= sum p
    <= (1 + u) / (1 - u) ^ (n - 1) + INR n * underflow.
Proof.
  intros Hr HF HL. cbn zeta.
  pose proof roundoff_range as Hu. fold u in Hu.
  pose proof underflow_range as Heta.
  destruct (exp_row_bounds r Hr HF) as (Fe & Re & One).
  set (e := map (fun v => fl_exp_minus v (shift_of r)) r) in *.
  assert (Le : length e = length r) by (unfold e; apply length_map).
  assert (Hne : e <> []) by (intros E; rewrite E in One; contradiction).
  destruct (np_sum_bounds e Hne Fe Re) as (Fs & Ms & Ls & Us);
    [now rewrite Le |].
  rewrite Le in Ls, Us.
  set (s := np_sum e) in *. set (n := length r) in *.
  assert (Hs1 : 1 <= s) by (rewrite Forall_forall in Ms; now apply Ms).
  pose proof (sum_bounds 0 1 e Re) as SB. rewrite Le in SB. fold n in SB.
  assert (Hn : (1 <= n)%nat) by (unfold n; destruct r; [congruence | cbn; lia]).
  assert (P1 : 1 <= 1 + u) by lra.
  assert (P0 : 0 <= 1 - u <= 1) by lra.
  assert (Hpu : 1 <= (1 + u) ^ (n - 1))
    by (apply (pow_increasing (1 + u) 0); [exact P1 | lia]).
  assert (Hpd : 0 < (1 - u) ^ (n - 1)) by (apply pow_lt; lra).
  assert (Hsum1 : 1 <= sum e).
  { apply in_split in One. destruct One as (l1 & l2 & E).
    pose proof Re as Re'. rewrite E in Re'. rewrite E, sum_app.
    apply Forall_app in Re' as [R1 R2]. inversion R2; subst.
    pose proof (sum_bounds 0 1 _ R1). pose proof (sum_bounds 0 1 l2 H2).
    change (sum (1 :: l2)) with (1 + sum l2). lra. }
  split; [now rewrite length_map |].
  split; [split; [exact Hs1 | nra] |].
  assert (Hent : forall v, In v e ->
            0 <= fl_div v s <= 1 /\
            (1 - u) / s * v + - underflow <= fl_div v s
              <= (1 + u) / s * v + underflow).
  { intros v Hv. rewrite Forall_forall in Fe, Re, Ms.
    pose proof (Re v Hv) as [Hv0 Hv1]. pose proof (Ms v Hv) as Hvs.
    split; [apply div_range; auto; lra |].
    pose proof (div_error v s (Fe v Hv) Fs (conj Hv0 Hvs) Hs1) as He.
    fold u in He.
    assert (He' : - (u * (v / s) + underflow) <= fl_div v s - v / s
                  <= u * (v / s) + underflow)
      by (unfold Rabs in He; destruct (Rcase_abs (fl_div v s - v / s)); lra).
    replace ((1 - u) / s * v) with (v / s - u * (v / s)) by (field; lra).
    replace ((1 + u) / s * v) with (v / s + u * (v / s)) by (field; lra).
    lra. }
  split.
  { apply Forall_forall. intros q Hq. apply in_map_iff in Hq.
    destruct Hq as (v & <- & Hv). now apply Hent. }
  pose proof (sum_map_le (fun v => (1 - u) / s * v + - underflow)
                (fun v => fl_div v s) e
                (fun v Hv => proj1 (proj2 (Hent v Hv)))) as Lo.
  pose proof (sum_map_le (fun v => fl_div v s)
                (fun v => (1 + u) / s * v + underflow) e
                (fun v Hv => proj2 (proj2 (Hent v Hv)))) as Hi.
  rewrite sum_map_affine, Le in Lo, Hi. fold n in Lo, Hi.
  assert (Q1 : / (1 + u) ^ (n - 1) <= sum e / s).
  { apply (Rmult_le_reg_r ((1 + u) ^ (n - 1) * s)); [nra |].
    replace (/ (1 + u) ^ (n - 1) * ((1 + u) ^ (n - 1) * s)) with s
      by (field; lra).
    replace (sum e / s * ((1 + u) ^ (n - 1) * s))
      with ((1 + u) ^ (n - 1) * sum e) by (field; lra).
    lra. }
  assert (Q2 : sum e / s <= / (1 - u) ^ (n - 1)).
  { apply (Rmult_le_reg_r ((1 - u) ^ (n - 1) * s)); [nra |].
    replace (/ (1 - u) ^ (n - 1) * ((1 - u) ^ (n - 1) * s)) with s
      by (field; lra).
    replace (sum e / s * ((1 - u) ^ (n - 1) * s))
      with ((1 - u) ^ (n - 1) * sum e) by (field; lra).
    lra. }
  replace ((1 - u) / s * sum e) with ((1 - u) * (sum e / s)) in Lo
    by (field; lra).
  replace ((1 + u) / s * sum e) with ((1 + u) * (sum e / s)) in Hi
    by (field; lra).
  set (t := sum e / s) in *.
  assert (T1 : (1 - u) * / (1 + u) ^ (n - 1) <= (1 - u) * t)
    by (apply Rmult_le_compat_l; lra).
  assert (T2 : (1 + u) * t <= (1 + u) * / (1 - u) ^ (n - 1))
    by (apply Rmult_le_compat_l; lra).
  unfold Rdiv. split; lra.
Qed.
End RoundedSoftmax.

Lemma right_comb_sum (v : vec) :
  @np_sum exact_arithmetic v = sum v.
Proof.
  unfold np_sum. destruct v as [|x v]; [reflexivity |].
  change (@sum_order exact_arithmetic) with right_comb.
  revert x. induction v as [|y v IH]; intros x.
  - cbn [right_comb fl_tree_sum sum fold_right]. lra.
  - change (right_comb (x :: y :: v)) with (Node (Leaf x) (right_comb (y :: v))).
    cbn [fl_tree_sum]. rewrite (IH y).
    change (@fl_add exact_arithmetic) with Rplus. reflexivity.
Qed.

(** Without rounding, [softmax_rounded] is [softmax] on the reals. *)
Lemma softmax_rounded_exact (x : mat) :
  @softmax_rounded exact_arithmetic x = softmax x.
Proof.
  unfold softmax_rounded, softmax.
  destruct (max_axis1 x) as [mx | e]; [| reflexivity]. cbn [bind]. cbv zeta.
  change (@fl_exp_minus exact_arithmetic) with (fun a m : R => exp (a - m)).
  change (@fl_div exact_arithmetic) with Rdiv.
  assert (E : row_op (fun a m : R => exp (a - m)) x mx =
              map (map exp) (row_op Rminus x mx)).
  { unfold row_op. rewrite map_map. apply map_ext. intros [r k].
    now rewrite map_map. }
  rewrite E. do 2 f_equal. unfold sum_axis1. apply map_ext.
  intros r. apply right_comb_sum.
Qed.

(** An exponential that underflows gives the entries 0 and 1. *)
Example softmax_underflow_reaches_bounds :
  @softmax_rounded flushing_arithmetic [[1000; 0]] = Ok [[1; 0]].
Proof.
  rewrite softmax_rounded_rows by (repeat constructor; discriminate).
  cbn [map]. cbv zeta.
  assert (M : shift_of [1000; 0] = 1000).
  { unfold shift_of. cbn [hd tl fold_left]. unfold Rmax.
    destruct (Rle_dec 1000 0); lra. }
  rewrite M. cbn [map].
  change (@fl_exp_minus flushing_arithmetic)
    with (fun x m : R => if Rlt_dec (x - m) (-746) then 0 else exp (x - m)).
  cbv beta.
  destruct (Rlt_dec (1000 - 1000) (-746)) as [H | _]; [lra |].
  destruct (Rlt_dec (0 - 1000) (-746)) as [_ | H]; [| lra].
  replace (1000 - 1000) with 0 by lra. rewrite exp_0.
  unfold np_sum. change (@sum_order flushing_arithmetic) with right_comb.
  cbn [right_comb fl_tree_sum].
  change (@fl_add flushing_arithmetic) with Rplus.
  change (@fl_div flushing_arithmetic) with Rdiv.
  do 3 f_equal; [| f_equal]; field.
Qed.

(** * Examples *)

Example split_index_100 : split_index 100 = 80%nat.
Proof. rewrite split_index_eq. reflexivity. Qed.

Example split_index_7 : split_index 7 = 5%nat.
Proof. rewrite split_index_eq. reflexivity. Qed.

Example json_encode_nested :
  json_encode (H := plain_repr) 0
    (JDict [("a", JList [JInt 1; JList []; JFloat 2]); ("b", JDict [])]%string)
  = "{
  " +:+ quote "a" +:+ ": [
    1,
    [],
    0.0
  ],
  " +:+ quote "b" +:+ ": {}
}".
Proof. reflexivity. Qed.

Example semantic_version_examples :
  semantic_version "1.0.0" = true /\ semantic_version "1.0" = false /\
  semantic_version "v1.0.0" = false.
Proof. repeat split; reflexivity. Qed.

Lemma clamp_id (d : R) :
  -1 <= d / 5.0 <= 1 -> py_min (py_max (d / 5.0) (-1)) 1 = d / 5.0.
Proof.
  intros [Hlo Hhi]. unfold py_min, py_max.
  destruct (Rlt_dec (d / 5.0) (-1)); [lra |].
  destruct (Rlt_dec 1 (d / 5.0)); [lra | reflexivity].
Qed.

Lemma clamp_saturates (d : R) :
  (5 < d -> py_min (py_max (d / 5.0) (-1)) 1 = 1) /\
  (d < -5 -> py_min (py_max (d / 5.0) (-1)) 1 = -1).
Proof.
  unfold py_min, py_max. split; intros Hd.
  - destruct (Rlt_dec (d / 5.0) (-1)); [lra |].
    destruct (Rlt_dec 1 (d / 5.0)); [reflexivity | lra].
  - destruct (Rlt_dec (d / 5.0) (-1)); [| lra].
    destruct (Rlt_dec 1 (-1)); [lra | reflexivity].
Qed.

(** With the fixed random source the trend is -1 and every step lowers the
    price by 0.5: the prices are 100, 99.5, 99, 98.5 and 98, the total
    change is -2 percent and the label is DOWN. *)
Example fixed_sample :
  fst (gen_sample (H := fixed_random) 0%nat) =
  ([-1 / 10; -20 / 199; -10 / 99; -20 / 197], [0; 1; 0]%Z).
Proof.
  unfold gen_sample, gen_prices.
  cbn [fixed_random random_choice random_uniform random_normal nth seq
       fold_left price_step fst snd app List.last].
  f_equal.
  - unfold normalize, percent_deltas. cbn [map seq nth].
    rewrite !clamp_id by (split; lra).
    repeat (apply f_equal2; [lra |]). reflexivity.
  - unfold total_change. cbn [List.last nth].
    match goal with |- label_of ?t = _ =>
      destruct (label_of_cases t) as [[H E] | [[H E] | [H E]]];
        [lra | exact E | lra]
    end.
Qed.

(** The fixed random source stays within the bounds of
    [denominators_positive]. *)
Example fixed_prices_positive :
  forall i, (i < 4)%nat -> 0 < nth i (fst (gen_prices (H := fixed_random) 0%nat)) 0.
Proof.
  apply (denominators_positive (RS := fixed_random)).
  - intros g. cbn. lia.
  - intros g. cbn. lra.
  - intros g. cbn. rewrite Rabs_R0. lra.
Qed.

(** In binary64 the split index is [4 * n / 5] on sample sizes, among
    them the default 10000, and the labels at the thresholds are those
    over [R]. *)
Module Binary64Examples.
Import Floats.

Example split_index_agrees :
  forallb (fun n => (Binary64.split_index n =? 4 * n / 5)%Z)
          [0; 1; 2; 3; 4; 5; 7; 99; 100; 1000; 9999; 10000; 123456789]%Z
  = true.
Proof. vm_compute. reflexivity. Qed.

Example labels_at_thresholds :
  Binary64.label_of 1.5%float = [0; 0; 1]%Z /\
  Binary64.label_of (-1.5)%float = [0; 0; 1]%Z /\
  Binary64.label_of 2%float = [1; 0; 0]%Z /\
  Binary64.label_of (-2)%float = [0; 1; 0]%Z /\
  Binary64.label_of 0%float = [0; 0; 1]%Z.
Proof. repeat split; vm_compute; reflexivity. Qed.
End Binary64Examples.

(** * The claims *)



(** C2, as the code has it.  On binary64 numbers, for every matrix of
    finite entries whose rows are not empty, [softmax] returns rows of the
    same lengths whose entries lie between 0 and 1, both included, and add
    up to 1 within the rounding of the [n - 1] additions and [n] divisions
    of a row of [n] entries, whatever the order in which [np.sum] adds.
    Without rounding, the computation with the shift by the maximum equals
    the softmax as it is defined without the shift; the rows then add up
    to 1 exactly and the entries are positive. *)
Theorem softmax_rows_are_distributions (A : Rounded) (x : mat) :
  Forall (fun r => r <> []) x ->
  Forall (Forall is_float) x ->
  Forall (fun r => INR (length r) * (1 + roundoff) ^ length r <= largest) x ->
  (exists s,
     softmax_rounded x = Ok s /\
     Forall2 (fun r p =>
                let n := length r in
                length p = n /\
                Forall (fun v => 0 <= v <= 1) p /\
                (1 - roundoff) / (1 + roundoff) ^ (n - 1) - INR n * underflow
                  <= sum p
                  <= (1 + roundoff) / (1 - roundoff) ^ (n - 1)
                     + INR n * underflow) x s) /\
  (softmax x = @softmax_rounded exact_arithmetic x /\
   softmax x = Ok (map softmax_unshifted x) /\
   Forall (fun p => sum p = 1 /\ Forall (fun v => 0 < v <= 1) p)
          (map softmax_unshifted x)).
Proof.
  intros Hne HF HL. split.
  - eexists. split; [now apply softmax_rounded_rows |].
    induction x as [|r x IH]; cbn [map]; [constructor |].
    inversion Hne; inversion HF; inversion HL; subst.
    constructor; [| now apply IH].
    destruct (softmax_rounded_row r) as (R1 & _ & R3 & R4); try assumption.
    cbn zeta. split; [exact R1 |]. split; [exact R3 | exact R4].
  - split; [now rewrite softmax_rounded_exact |].
    split; [now apply softmax_ok |].
    apply Forall_forall. intros p Hp. apply in_map_iff in Hp.
    destruct Hp as (r & <- & Hr). rewrite Forall_forall in Hne.
    split; [apply softmax_unshifted_sum; now apply Hne |].
    apply softmax_unshifted_range.
Qed.

Lemma softmax_rows_are_distributions_witness :
  exists s,
    @softmax_rounded flushing_arithmetic [[1000; 0]] = Ok s /\
    Forall2 (fun r p => length p = length r /\
                        Forall (fun v => 0 <= v <= 1) p)
            [[1000; 0]] s.
Proof.
  destruct (softmax_rows_are_distributions flushing_arithmetic [[1000; 0]])
    as ((s & E & H) & _).
  - repeat constructor; discriminate.
  - repeat constructor.
  - repeat constructor.
    change (@roundoff flushing_arithmetic) with 0.
    change (@largest flushing_arithmetic) with 1e308.
    cbn [length INR pow]. lra.
  - exists s. split; [exact E |].
    eapply Forall2_impl; [| exact H]. cbn beta zeta.
    intros r p (H1 & H2 & _). split; assumption.
Defined.

(** C2, as stated, fails on a matrix with a single column: the only entry
    of each row of the result is 1, which is not below 1. *)
Lemma softmax_single_column_is_one :
  softmax [[0]] = Ok [[1]] /\
  ~ (forall x s, softmax x = Ok s ->
       Forall (fun p => sum p = 1 /\ Forall (fun v => 0 < v < 1) p) s).
Proof.
  assert (E : softmax [[0]] = Ok [[1]]).
  { rewrite softmax_ok by (constructor; [discriminate | constructor]).
    cbn [map softmax_unshifted sum fold_right]. do 3 f_equal.
    rewrite exp_0. field. }
  split; [exact E |].
  intros H. specialize (H _ _ E).
  inversion H as [|? ? [_ Hrow] _]; subst.
  inversion Hrow as [|? ? Hv _]; subst. lra.
Qed.

(** C3, as the code has it: for every batch with at least one sample and
    one-hot labels of the same shape, [compute_loss] clips each prediction
    to [[1e-15, 1 - 1e-15]] before the logarithm and returns the mean over
    the batch of [-sum(label * log(prediction))]; that value is at least
    [-log(1 - 1e-15)], hence positive and never 0. *)
Theorem loss_is_positive_mean (m n : nat) (y_pred y_true : mat) :
  has_shape m n y_pred = true -> has_shape m n y_true = true ->
  Forall one_hot_row y_true -> (1 <= m)%nat ->
  compute_loss y_pred y_true = Ok (cross_entropy y_pred y_true) /\
  (forall v, 1e-15 <= clip epsilon (1 - epsilon) v <= 1 - 1e-15) /\
  - ln (1 - 1e-15) <= cross_entropy y_pred y_true /\
  0 < cross_entropy y_pred y_true.
Proof.
  intros HP HY Hhot Hm.
  split.
  - rewrite (compute_loss_spec m n) by assumption.
    destruct (Nat.eqb_spec m 0) as [E | _]; [lia | reflexivity].
  - split; [exact clip_bounds |].
    exact (cross_entropy_pos m n y_pred y_true HY Hhot Hm).
Qed.

Lemma loss_is_positive_mean_witness :
  compute_loss [[0.5; 0.5]] [[1; 0]] = Ok (cross_entropy [[0.5; 0.5]] [[1; 0]]) /\
  0 < cross_entropy [[0.5; 0.5]] [[1; 0]].
Proof.
  destruct (loss_is_positive_mean 1 2 [[0.5; 0.5]] [[1; 0]])
    as (E & _ & _ & Hpos); [reflexivity | reflexivity | | lia |].
  - constructor; [| constructor]. exists 0%nat. split; [cbn; lia |].
    intros [|[|j]] Hj; cbn in Hj |- *; [reflexivity | reflexivity | lia].
  - split; [exact E | exact Hpos].
Defined.

(** C3, as stated, fails on the batch without sample: the mean is a
    division by zero ([nan] in numpy), not a non-negative number. *)
Lemma loss_of_empty_batch_undefined :
  compute_loss [] [] = Err DivideByZero /\
  ~ (exists v, compute_loss [] [] = Ok v /\ 0 <= v).
Proof.
  split; [reflexivity |]. intros (v & E & _). discriminate.
Qed.

(** C4: the label of every generated sample is determined by
    [total_change] alone, the percentage change from the first to the last
    of its five prices.  For the sample at index [i], whose five prices are
    those drawn from the generator state that the first [i] samples leave
    and whose features are the clamped changes of these very prices, the
    label is UP ([[1, 0, 0]], index 0) exactly when
    [(prices[4] - prices[0]) / prices[0] * 100 > 1.5], DOWN ([[0, 1, 0]],
    index 1) exactly when it is below [-1.5], SIDEWAYS ([[0, 0, 1]],
    index 2) otherwise; the values 1.5 and -1.5 give SIDEWAYS, 2.0 gives
    UP, -2.0 gives DOWN and 0.0 gives SIDEWAYS. *)
Theorem label_by_total_change :
  (forall (RS : RandomState) (n i : nat) (g : rng),
      (i < n)%nat ->
      let prices := fst (gen_prices (snd (generate_training_data i g))) in
      let t := (nth 4 prices 0 - nth 0 prices 0) / nth 0 prices 0 * 100 in
      length prices = 5%nat /\
      nth_error (fst (fst (generate_training_data n g))) i =
        Some (normalize (percent_deltas prices)) /\
      exists label,
        nth_error (snd (fst (generate_training_data n g))) i = Some label /\
        (label = [1; 0; 0]%Z <-> t > 1.5) /\
        (label = [0; 1; 0]%Z <-> t < -1.5) /\
        (label = [0; 0; 1]%Z <-> -1.5 <= t <= 1.5)) /\
  (forall t : R,
      (label_of t = [1; 0; 0]%Z <-> t > 1.5) /\
      (label_of t = [0; 1; 0]%Z <-> t < -1.5) /\
      (label_of t = [0; 0; 1]%Z <-> -1.5 <= t <= 1.5)) /\
  label_of 1.5 = [0; 0; 1]%Z /\ label_of (-1.5) = [0; 0; 1]%Z /\
  label_of 2.0 = [1; 0; 0]%Z /\ label_of (-2.0) = [0; 1; 0]%Z /\
  label_of 0.0 = [0; 0; 1]%Z.
Proof.
  assert (Hiff : forall t : R,
      (label_of t = [1; 0; 0]%Z <-> t > 1.5) /\
      (label_of t = [0; 1; 0]%Z <-> t < -1.5) /\
      (label_of t = [0; 0; 1]%Z <-> -1.5 <= t <= 1.5)).
  { intros t. unfold label_of.
    destruct (Rlt_dec 1.5 t) as [Hup | Hup];
      [| destruct (Rlt_dec t (-1.5)) as [Hdn | Hdn]];
      repeat split; intros; try discriminate; try reflexivity; lra. }
  split; [| split; [exact Hiff |]].
  - intros RS n i g Hi. cbn zeta.
    destruct (generate_nth n i g Hi) as [EX Ey].
    rewrite EX, Ey. clear EX Ey.
    set (gi := snd (generate_training_data i g)).
    destruct (gen_prices_shape gi) as [HL _].
    unfold gen_sample. destruct (gen_prices gi) as [prices g'].
    cbn [fst snd] in *.
    split; [exact HL |]. split; [reflexivity |].
    exists (label_of (total_change prices)). split; [reflexivity |].
    assert (Et : total_change prices =
                 (nth 4 prices 0 - nth 0 prices 0) / nth 0 prices 0 * 100).
    { unfold total_change.
      destruct prices as [|p0 [|p1 [|p2 [|p3 [|p4 [|p5 ps]]]]]];
        try discriminate.
      reflexivity. }
    rewrite <- Et. apply Hiff.
  - repeat split.
    + apply (Hiff 1.5). lra.
    + apply (Hiff (-1.5)). lra.
    + apply (Hiff 2.0). lra.
    + apply (Hiff (-2.0)). lra.
    + apply (Hiff 0.0). lra.
Qed.

(** C5: for every sample count and every outcome of the random draws,
    [generate_training_data] returns features and labels of that length,
    aligned by index (the row and the label at one index come from the
    same prices); every feature row has four values, each in [[-1, 1]],
    and every label has three entries, exactly one of them 1 and the
    others 0. *)
Theorem generated_data_well_formed (RS : RandomState) (n : nat) (g : rng) :
  let X := fst (fst (generate_training_data n g)) in
  let y := snd (fst (generate_training_data n g)) in
  length X = n /\ length y = n /\
  Forall2 generated_pair X y /\
  Forall (fun row => length row = 4%nat /\ Forall (fun v => -1 <= v <= 1) row) X /\
  Forall (fun label =>
            length label = 3%nat /\
            count_occ Z.eq_dec label 1%Z = 1%nat /\
            count_occ Z.eq_dec label 0%Z = 2%nat) y.
Proof.
  cbn zeta. destruct (generate_spec n g) as (HF & LX & Ly).
  split; [exact LX |]. split; [exact Ly |]. split; [exact HF |]. split.
  - pose proof (Forall2_left _ _ _ HF) as HFl.
    eapply Forall_impl; [| exact HFl].
    intros row (label & prices & _ & _ & -> & _).
    split; [apply normalize_deltas_length | apply normalize_bounds].
  - pose proof (Forall2_right _ _ _ HF) as HFr.
    eapply Forall_impl; [| exact HFr].
    intros label (row & prices & _ & _ & _ & ->).
    destruct (label_of_one_hot (total_change prices)) as (k & Hk & ->).
    destruct k as [|[|[|k]]]; try lia; repeat split; reflexivity.
Qed.

(** C6: the training loop splits a generated dataset of [n] samples at
    index [floor(0.8 * n)]: the training subset is the first
    [floor(0.8 * n)] samples in generation order and the evaluation subset
    is the rest, features and labels being cut at the same index; the two
    parts are disjoint and together make up the dataset.  The split acts
    on the generator's output as it is, before any permutation is drawn. *)
Theorem split_is_first_80_percent (RS : RandomState) (n : nat) (g : rng) :
  let X := fst (fst (generate_training_data n g)) in
  let y := snd (fst (generate_training_data n g)) in
  let d := split_dataset X y in
  let s := split_index n in
  s = (4 * n / 5)%nat /\
  IZR (Z.of_nat s) <= 0.8 * INR n < IZR (Z.of_nat s) + 1 /\
  X_train d = firstn s X /\ X_test d = skipn s X /\
  y_train d = firstn s y /\ y_test d = skipn s y /\
  X_train d ++ X_test d = X /\ y_train d ++ y_test d = y /\
  length (X_train d) = s /\ length (y_train d) = s /\
  length (X_test d) = (n - s)%nat /\ length (y_test d) = (n - s)%nat /\
  (forall i, (i < s)%nat ->
     nth_error (X_train d) i = nth_error X i /\
     nth_error (y_train d) i = nth_error y i) /\
  (forall i, nth_error (X_test d) i = nth_error X (s + i) /\
             nth_error (y_test d) i = nth_error y (s + i)).
Proof.
  cbn zeta. destruct (generate_spec n g) as (_ & LX & Ly).
  set (X := fst (fst (generate_training_data n g))) in *.
  set (y := snd (fst (generate_training_data n g))) in *.
  unfold split_dataset. cbn [X_train X_test y_train y_test]. rewrite LX.
  pose proof (split_index_le n) as Hle.
  pose proof (split_index_eq n) as Heq.
  set (s := split_index n) in *.
  split; [exact Heq |]. split.
  { assert (Hq : (5 * s <= 4 * n < 5 * s + 5)%nat).
    { rewrite Heq. pose proof (Nat.div_mod_eq (4 * n) 5).
      pose proof (Nat.mod_upper_bound (4 * n) 5). lia. }
    assert (Hlo : (5 * Z.of_nat s <= 4 * Z.of_nat n)%Z) by lia.
    assert (Hhi : (4 * Z.of_nat n < 5 * Z.of_nat s + 5)%Z) by lia.
    apply IZR_le in Hlo. apply IZR_lt in Hhi.
    rewrite !mult_IZR in Hlo. rewrite plus_IZR, !mult_IZR in Hhi.
    rewrite (INR_IZR_INZ n). split; lra. }
  repeat split; try reflexivity.
  - apply firstn_skipn.
  - apply firstn_skipn.
  - rewrite length_firstn. lia.
  - rewrite length_firstn. lia.
  - rewrite length_skipn. lia.
  - rewrite length_skipn. lia.
  - rewrite nth_error_firstn.
    destruct (Nat.ltb_spec i s); [reflexivity | lia].
  - rewrite nth_error_firstn.
    destruct (Nat.ltb_spec i s); [reflexivity | lia].
  - apply nth_error_skipn.
  - apply nth_error_skipn.
Qed.


(** C7: the evaluation pass of every tenth epoch has no effect on
    training.  The loop with the pass scheduled as in the source and the
    loop in which it never runs end, for every number of epochs, with the
    same parameters, sizes, generator state, losses and training
    accuracies (or with the same error).  An evaluating epoch does leave
    the activations of the evaluation batch in the cache, and an epoch
    does not depend on the cache it starts from: its forward pass sets the
    cache before its backward pass reads it. *)
Theorem evaluation_has_no_effect (RS : RandomState) (d : dataset)
  (learning_rate : R) (st : model) (g : rng) :
  wf_model st = true ->
  wf_dataset (input_size st) (output_size st) d = true ->
  (1 <= output_size st)%nat ->
  (forall epochs,
     same_training
       (run_epochs is_eval_epoch d learning_rate (seq 0 epochs) (st, g) [])
       (run_epochs (fun _ => false) d learning_rate (seq 0 epochs) (st, g) [])) /\
  (forall c0 evaluate,
     epoch_body evaluate d learning_rate (set_cache st c0, g) =
     epoch_body evaluate d learning_rate (st, g)) /\
  ((1 <= length (X_train d))%nat ->
   exists st_e st_n g' l_e l_n,
     epoch_body true d learning_rate (st, g) = Ok (st_e, g', l_e) /\
     epoch_body false d learning_rate (st, g) = Ok (st_n, g', l_n) /\
     params st_e = params st_n /\
     cache st_e = Some (forward_activations st_n (X_test d)) /\
     cache st_n =
       Some (forward_activations st
               (shuffled (fst (random_permutation (length (X_train d)) g))
                         (X_train d)))).
Proof.
  intros Hwf Hd Ho. split; [| split].
  - intros epochs. now apply run_epochs_same.
  - intros c0 evaluate.
    rewrite (epoch_body_spec evaluate d learning_rate (set_cache st c0) g)
      by assumption.
    rewrite (epoch_body_spec evaluate d learning_rate st g) by assumption.
    assert (Hp : params (set_cache st c0) = params st) by reflexivity.
    assert (Hs : sizes (set_cache st c0) = sizes st) by reflexivity.
    rewrite (forward_activations_frame _ _ _ Hp Hs).
    rewrite (after_epoch_frame _ _ _ _ _ Hp Hs).
    reflexivity.
  - intros Hm.
    rewrite !epoch_body_spec by assumption.
    destruct (Nat.eqb_spec (length (X_train d)) 0) as [E | _]; [lia |].
    do 5 eexists. split; [reflexivity |]. split; [reflexivity |].
    split; [reflexivity |]. split; reflexivity.
Qed.

Lemma evaluation_has_no_effect_witness :
  same_training
    (run_epochs (H := fixed_random) is_eval_epoch example_dataset 0.01
       (seq 0 20) (example_model, 0%nat) [])
    (run_epochs (H := fixed_random) (fun _ => false) example_dataset 0.01
       (seq 0 20) (example_model, 0%nat) []).
Proof.
  destruct (evaluation_has_no_effect fixed_random example_dataset 0.01
              example_model 0%nat) as (H & _);
    [reflexivity | reflexivity | cbn; lia |].
  exact (H 20%nat).
Defined.

(** C8: the artifact that a run of [train] exports is a document with
    exactly the top-level fields [model] (a constant string), [version]
    (the semantic version string 1.0.0), [architecture] (the sizes 4, 16
    and 3 and the activation names [relu] and [softmax]), [weights] (the
    nested arrays [W1] of shape (4, 16), [b1] of length 16, [W2] of shape
    (16, 3) and [b2] of length 3, holding the parameters of the returned
    classifier number by number) and [labels], the list
    [["UP", "DOWN", "SIDEWAYS"]]; the position of each name is the class
    index of the one-hot label that the generator gives to the rising,
    falling and flat branch.  The file holds the text of this document,
    line by line, and so does the file that [export_weights] writes for
    any classifier of these sizes. *)
Theorem exported_artifact_layout (RS : RandomState) (FR : FloatRepr)
  (script_dir : string) (epochs n : nat) (learning_rate : R) (g : rng)
  (fs : filesystem) (r : train_result rng) :
  train script_dir epochs n learning_rate g fs = Ok r ->
  let st := trained r in
  files r !! weights_path script_dir =
    Some (artifact_text "4" "16" "3" (W1 st) (b1 st) (W2 st) (b2 st)) /\
  weights_document st =
    JDict [
      ("model", JString "price-predictor");
      ("version", JString "1.0.0");
      ("architecture", JDict [
        ("input_size", JInt 4);
        ("hidden_size", JInt 16);
        ("output_size", JInt 3);
        ("activation", JString "relu");
        ("output_activation", JString "softmax")
      ]);
      ("weights", JDict [
        ("W1", JList (map (fun row => JList (map JFloat row)) (W1 st)));
        ("b1", JList (map JFloat (b1 st)));
        ("W2", JList (map (fun row => JList (map JFloat row)) (W2 st)));
        ("b2", JList (map JFloat (b2 st)))
      ]);
      ("labels", JList [JString "UP"; JString "DOWN"; JString "SIDEWAYS"])
    ]%string /\
  semantic_version "1.0.0" = true /\
  has_shape 4 16 (W1 st) = true /\ length (b1 st) = 16%nat /\
  has_shape 16 3 (W2 st) = true /\ length (b2 st) = 3%nat /\
  (forall t : R, exists k,
     label_of t = one_hot k /\
     nth_error label_names k =
       Some (if Rlt_dec 1.5 t then "UP"
             else if Rlt_dec t (-1.5) then "DOWN" else "SIDEWAYS")%string) /\
  (forall (st' : model) (path : string) (fs' : filesystem),
     sizes st' = (4, 16, 3)%nat ->
     export_weights st' path fs' !! path =
       Some (artifact_text "4" "16" "3" (W1 st') (b1 st') (W2 st') (b2 st'))).
Proof.
  intros E. cbn zeta.
  assert (Hany : forall (st' : model) (path : string) (fs' : filesystem),
     sizes st' = (4, 16, 3)%nat ->
     export_weights st' path fs' !! path =
       Some (artifact_text "4" "16" "3" (W1 st') (b1 st') (W2 st') (b2 st'))).
  { intros st' path fs' Hs. unfold export_weights.
    rewrite lookup_insert_eq, encode_document.
    assert (Hi : input_size st' = 4%nat) by (unfold sizes in Hs; congruence).
    assert (Hh : hidden_size st' = 16%nat) by (unfold sizes in Hs; congruence).
    assert (Ho : output_size st' = 3%nat) by (unfold sizes in Hs; congruence).
    rewrite Hi, Hh, Ho. reflexivity. }
  destruct (train_inv _ _ _ _ _ _ _ E) as [Hn Hrun].
  destruct (train_ok script_dir epochs n learning_rate g fs Hn Hrun)
    as (r' & st & E' & Hwf & Hs & Hp & Hs' & Hf & _).
  rewrite E in E'. inversion E'. subst r'. clear E'.
  rewrite Hs in Hs'.
  assert (Hwf' : wf_model (trained r) = true).
  { destruct (trained r), st. unfold params, sizes, wf_model in *. cbn in *.
    inversion Hp. inversion Hs. inversion Hs'. now subst. }
  destruct (wf_model_spec _ Hwf') as (HW1 & Hb1 & HW2 & Hb2).
  assert (Ei : input_size (trained r) = 4%nat)
    by (unfold sizes in Hs'; now inversion Hs').
  assert (Eh : hidden_size (trained r) = 16%nat)
    by (unfold sizes in Hs'; now inversion Hs').
  assert (Eo : output_size (trained r) = 3%nat)
    by (unfold sizes in Hs'; now inversion Hs').
  rewrite Ei, Eh, Eo in *.
  split.
  { rewrite Hf, (Hany st _ _ Hs).
    unfold params in Hp. inversion Hp. reflexivity. }
  split.
  { unfold weights_document. rewrite Ei, Eh, Eo. reflexivity. }
  split; [reflexivity |].
  repeat (split; [assumption |]).
  split; [| exact Hany].
  intros t. unfold label_of.
  destruct (Rlt_dec 1.5 t); [exists 0%nat; split; reflexivity |].
  destruct (Rlt_dec t (-1.5)); [exists 1%nat | exists 2%nat]; split; reflexivity.
Qed.

Lemma exported_artifact_layout_witness :
  exists r,
    train (H := fixed_random) (H0 := plain_repr) "models" 1 5 0.01 0%nat ∅ = Ok r /\
    files r !! weights_path "models" =
      Some (artifact_text (H := plain_repr) "4" "16" "3" (W1 (trained r))
              (b1 (trained r)) (W2 (trained r)) (b2 (trained r))) /\
    has_shape 4 16 (W1 (trained r)) = true /\
    has_shape 16 3 (W2 (trained r)) = true.
Proof.
  destruct (train_ok (RS := fixed_random) (FR := plain_repr)
              "models" 1 5 0.01 0%nat ∅) as (r & _ & E & _);
    [lia | right; apply split_index_pos; lia |].
  exists r. split; [exact E |].
  destruct (exported_artifact_layout fixed_random plain_repr
              "models" 1 5 0.01 0%nat ∅ r E)
    as (Hf & _ & _ & HW1 & _ & HW2 & _).
  split; [exact Hf |]. split; [exact HW1 | exact HW2].
Defined.

(** C9: the export is a function of the parameters and sizes alone, and
    nothing of a run enters the file.  Two classifiers with the same
    parameters and sizes, whatever activations they cache, whatever the
    destination and whatever the files already there, produce the same
    content, byte for byte: the text of the document, whose lines hold the
    constant names, the three sizes and the parameters and nothing else.
    Exporting a second time leaves the files as the first export left
    them, and so does exporting again the classifier that [train] returns,
    although the sample predictions have replaced its cached activations
    since the export. *)
Theorem export_is_deterministic (FR : FloatRepr) (n h o : nat)
  (w1 : mat) (c1 : vec) (w2 : mat) (c2 : vec)
  (cache1 cache2 : option activations)
  (path1 path2 : string) (fs1 fs2 : filesystem) :
  let st1 := mk_model n h o w1 c1 w2 c2 cache1 in
  let st2 := mk_model n h o w1 c1 w2 c2 cache2 in
  let text := artifact_text (int_repr (Z.of_nat n)) (int_repr (Z.of_nat h))
                (int_repr (Z.of_nat o)) w1 c1 w2 c2 in
  export_weights st1 path1 fs1 !! path1 = Some text /\
  export_weights st2 path2 fs2 !! path2 = Some text /\
  export_weights st1 path1 (export_weights st1 path1 fs1) =
    export_weights st1 path1 fs1 /\
  export_weights st2 path1 (export_weights st1 path1 fs1) =
    export_weights st1 path1 fs1 /\
  (forall (RS : RandomState) (script_dir : string) (epochs n_samples : nat)
          (learning_rate : R) (g : rng) (fs : filesystem)
          (r : train_result rng),
     train script_dir epochs n_samples learning_rate g fs = Ok r ->
     export_weights (trained r) (weights_path script_dir) (files r) = files r).
Proof.
  cbn zeta. unfold export_weights. rewrite !lookup_insert_eq.
  rewrite !encode_document. cbn [input_size hidden_size output_size W1 b1 W2 b2].
  split; [reflexivity |]. split; [reflexivity |].
  split; [apply insert_insert_eq |].
  split; [apply insert_insert_eq |].
  intros RS script_dir epochs n_samples learning_rate g fs r E.
  destruct (train_inv _ _ _ _ _ _ _ E) as [Hn Hrun].
  destruct (train_ok script_dir epochs n_samples learning_rate g fs Hn Hrun)
    as (r' & st & E' & _ & _ & Hp & Hs & Hf & _).
  rewrite E in E'. inversion E'. subst r'. clear E'.
  rewrite Hf. unfold export_weights.
  rewrite (weights_document_frame (trained r) st Hp Hs).
  apply insert_insert_eq.
Qed.

(** C10: every epoch's [backward] divides the gradient sums by the size of
    the training batch, [floor(0.8 * n_samples)].  For a positive number
    of samples and of epochs, [train] runs to its end exactly when that
    size is at least 1, and otherwise stops on a division by zero; with a
    single sample the training subset is empty and the first [backward]
    already divides by zero. *)
Theorem training_needs_nonempty_batch (RS : RandomState) (FR : FloatRepr)
  (script_dir : string) (epochs n : nat) (learning_rate : R) (g : rng)
  (fs : filesystem) :
  (1 <= n)%nat -> (1 <= epochs)%nat ->
  (train script_dir epochs n learning_rate g fs = Err DivideByZero <->
   split_index n = 0%nat) /\
  ((exists r, train script_dir epochs n learning_rate g fs = Ok r) <->
   (1 <= split_index n)%nat) /\
  split_index 1 = 0%nat /\
  train script_dir epochs 1 learning_rate g fs = Err DivideByZero /\
  (forall st : model,
     wf_model st = true -> (1 <= output_size st)%nat ->
     forward st [] = Ok ([], set_cache st (forward_activations st [])) /\
     backward (set_cache st (forward_activations st [])) [] [] learning_rate =
       Err DivideByZero).
Proof.
  intros Hn He.
  assert (H1 : split_index 1 = 0%nat) by (rewrite split_index_eq; reflexivity).
  split; [| split; [| split; [exact H1 | split]]].
  - split.
    + intros E. destruct (split_index n) as [|s] eqn:Es; [reflexivity |].
      destruct (train_ok script_dir epochs n learning_rate g fs Hn)
        as (r & _ & E' & _); [right; lia |].
      rewrite E in E'. discriminate.
    + intros Hs. now apply train_empty_batch.
  - split.
    + intros (r & E). apply train_inv in E. destruct E as [_ [E | E]]; lia.
    + intros Hs.
      destruct (train_ok script_dir epochs n learning_rate g fs Hn)
        as (r & _ & E' & _); [now right |].
      now exists r.
  - apply train_empty_batch; (lia || assumption).
  - intros st Hwf Ho. split; [reflexivity |].
    rewrite (backward_spec _ (forward_activations st [])); reflexivity || assumption.
Qed.

Lemma training_needs_nonempty_batch_witness :
  split_index 1 = 0%nat /\
  train (H := fixed_random) (H0 := plain_repr) "models" 1 1 0.01 0%nat ∅ =
    Err DivideByZero.
Proof.
  destruct (training_needs_nonempty_batch fixed_random plain_repr
              "models" 1 1 0.01 0%nat ∅) as (_ & _ & Hs & Ht & _);
    [lia | lia |].
  split; [exact Hs | exact Ht].
Defined.


(** * Further properties of the code *)

(** ** Sums *)

Lemma big_sum_le (n : nat) (f : nat -> R) (b : R) :
  (forall i, (i < n)%nat -> f i <= b) -> big_sum n f <= INR n * b.
Proof.
  intros H.
  pose proof (big_sum_ge n (fun i => - f i) (- b)) as G.
  rewrite big_sum_opp in G.
  assert (INR n * - b <= - big_sum n f)
    by (apply G; intros i Hi; specialize (H i Hi); lra).
  lra.
Qed.

(** ** [np.argmax] and [accuracy] *)

Lemma argmax_from_spec (t : vec) :
  forall (pre : vec) (best : R) (besti : nat),
    (besti < length pre)%nat ->
    nth besti (pre ++ t) 0 = best ->
    (forall j, (j < length pre)%nat -> nth j (pre ++ t) 0 <= best) ->
    (forall j, (j < besti)%nat -> nth j (pre ++ t) 0 < best) ->
    let k := argmax_from best besti (length pre) t in
    (k < length (pre ++ t))%nat /\
    (forall j, (j < length (pre ++ t))%nat ->
               nth j (pre ++ t) 0 <= nth k (pre ++ t) 0) /\
    (forall j, (j < k)%nat -> nth j (pre ++ t) 0 < nth k (pre ++ t) 0).
Proof.
  induction t as [|v t IH]; intros pre best besti Hlt Hbest Hmax Hfirst; cbn zeta.
  - cbn [argmax_from]. rewrite app_nil_r in *. rewrite Hbest.
    split; [exact Hlt |]. split; assumption.
  - cbn [argmax_from].
    assert (E : pre ++ v :: t = (pre ++ [v]) ++ t)
      by (rewrite <- app_assoc; reflexivity).
    assert (L : length (pre ++ [v]) = S (length pre))
      by (rewrite length_app; cbn [length]; lia).
    assert (Hv : nth (length pre) (pre ++ v :: t) 0 = v) by apply nth_middle.
    rewrite E in *. rewrite <- L.
    destruct (Rlt_dec best v) as [Hb | Hb].
    + apply IH.
      * lia.
      * exact Hv.
      * intros j Hj. rewrite L in Hj.
        destruct (Nat.eq_dec j (length pre)) as [-> | Hne]; [rewrite Hv; lra |].
        specialize (Hmax j ltac:(lia)). lra.
      * intros j Hj. specialize (Hmax j Hj). lra.
    + apply IH.
      * lia.
      * exact Hbest.
      * intros j Hj. rewrite L in Hj.
        destruct (Nat.eq_dec j (length pre)) as [-> | Hne]; [rewrite Hv; lra |].
        apply Hmax. lia.
      * exact Hfirst.
Qed.

Lemma argmax_first_max (r : vec) : r <> [] -> argmax r = Ok (first_max r).
Proof. destruct r; [congruence | reflexivity]. Qed.

Lemma mapM_argmax_first_max (A : mat) :
  Forall (fun r => r <> []) A -> mapM argmax A = Ok (map first_max A).
Proof.
  induction A as [|r A IH]; intros HF; [reflexivity |].
  inversion HF as [|? ? Hr HF']; subst. cbn [mapM map].
  rewrite (argmax_first_max r Hr). cbn [bind]. rewrite (IH HF'). reflexivity.
Qed.

Lemma combine_map_map {A B C D : Type} (f : A -> C) (g : B -> D)
  (l : list A) (k : list B) :
  combine (map f l) (map g k) = map (fun ab => (f (fst ab), g (snd ab))) (combine l k).
Proof.
  revert k. induction l as [|a l IH]; intros [|b k]; cbn [map combine];
    try reflexivity. now rewrite IH.
Qed.

Lemma accuracy_mean_of_hits (m o o' : nat) (P Y : mat) :
  has_shape m o P = true -> has_shape m o' Y = true ->
  (1 <= o)%nat -> (1 <= o')%nat ->
  accuracy P Y = mean (map hit (combine P Y)).
Proof.
  intros HP HY Ho Ho'. unfold accuracy.
  rewrite (mapM_argmax_first_max P (has_shape_nonempty_rows _ _ _ HP Ho)).
  rewrite (mapM_argmax_first_max Y (has_shape_nonempty_rows _ _ _ HY Ho')).
  cbn [bind]. rewrite !length_map.
  rewrite (has_shape_length _ _ _ HP), (has_shape_length _ _ _ HY), Nat.eqb_refl.
  f_equal. rewrite combine_map_map, map_map. reflexivity.
Qed.

Lemma sum_hits_range (l : list (list R * list R)) :
  0 <= sum (map hit l) <= INR (length l).
Proof.
  induction l as [|a l IH].
  - cbn. lra.
  - change (sum (map hit (a :: l))) with (hit a + sum (map hit l)).
    cbn [length]. rewrite S_INR.
    assert (0 <= hit a <= 1)
      by (unfold hit; destruct (_ =? _)%nat; lra).
    lra.
Qed.

Lemma sum_hits_diag (P : mat) :
  sum (map hit (combine P P)) = INR (length P).
Proof.
  induction P as [|r P IH]; [reflexivity |].
  cbn [combine]. change (sum (map hit ((r, r) :: combine P P)))
    with (hit (r, r) + sum (map hit (combine P P))).
  cbn [length]. rewrite S_INR, IH. unfold hit. cbn [fst snd].
  rewrite Nat.eqb_refl. lra.
Qed.

Lemma mean_spec (v : vec) :
  v <> [] -> mean v = Ok (sum v / INR (length v)).
Proof. destruct v; [congruence | reflexivity]. Qed.

(** X1: on a non-empty row [np.argmax] returns the first position of the
    largest entry: no entry is larger and every earlier entry is strictly
    smaller; on an empty row it raises. *)
Theorem argmax_is_first_maximum (v : R) (t : vec) :
  argmax [] = Err EmptyReduction /\
  exists k,
    argmax (v :: t) = Ok k /\ (k < length (v :: t))%nat /\
    (forall j, (j < length (v :: t))%nat -> nth j (v :: t) 0 <= nth k (v :: t) 0) /\
    (forall j, (j < k)%nat -> nth j (v :: t) 0 < nth k (v :: t) 0).
Proof.
  split; [reflexivity |].
  exists (argmax_from v 0%nat 1%nat t). split; [reflexivity |].
  apply (argmax_from_spec t [v] v 0%nat).
  - cbn. lia.
  - reflexivity.
  - intros [|j] Hj; cbn in Hj |- *; [lra | lia].
  - intros j Hj. lia.
Qed.

(** X2: on a batch with at least one sample, [accuracy] returns a value
    between 0 and 1, and it returns 1 when the predictions are compared
    with themselves; on a batch without sample the mean is a division by
    zero. *)
Theorem accuracy_range (m o o' : nat) (P Y : mat) :
  has_shape m o P = true -> has_shape m o' Y = true ->
  (1 <= o)%nat -> (1 <= o')%nat -> (1 <= m)%nat ->
  (exists a, accuracy P Y = Ok a /\ 0 <= a <= 1) /\
  accuracy P P = Ok 1 /\
  accuracy [] [] = Err DivideByZero.
Proof.
  intros HP HY Ho Ho' Hm.
  pose proof (has_shape_length _ _ _ HP) as LP.
  pose proof (has_shape_length _ _ _ HY) as LY.
  assert (Hpos : 0 < INR m) by (apply lt_0_INR; lia).
  split; [| split; [| reflexivity]].
  - rewrite (accuracy_mean_of_hits m o o') by assumption.
    assert (Lc : length (map hit (combine P Y)) = m)
      by (rewrite length_map, length_combine; lia).
    rewrite mean_spec by (intros E; rewrite E in Lc; cbn in Lc; lia).
    eexists. split; [reflexivity |].
    pose proof (sum_hits_range (combine P Y)) as [Hlo Hhi].
    rewrite length_combine, LP, LY, Nat.min_id in Hhi. rewrite Lc.
    split.
    + apply Rmult_le_pos; [exact Hlo | left; now apply Rinv_0_lt_compat].
    + apply (Rmult_le_reg_r (INR m)); [exact Hpos |].
      unfold Rdiv. rewrite Rmult_assoc, Rinv_l by lra. lra.
  - rewrite (accuracy_mean_of_hits m o o) by assumption.
    assert (Lc : length (map hit (combine P P)) = m)
      by (rewrite length_map, length_combine; lia).
    rewrite mean_spec by (intros E; rewrite E in Lc; cbn in Lc; lia).
    rewrite Lc, sum_hits_diag, LP. f_equal. field. lra.
Qed.

Lemma accuracy_range_witness :
  (exists a, accuracy [[0.2; 0.8]] [[0; 1]] = Ok a /\ 0 <= a <= 1) /\
  accuracy [[0.2; 0.8]] [[0.2; 0.8]] = Ok 1.
Proof.
  destruct (accuracy_range 1 2 2 [[0.2; 0.8]] [[0; 1]]) as (H1 & H2 & _);
    [reflexivity | reflexivity | lia | lia | lia |].
  split; [exact H1 | exact H2].
Defined.

Lemma mean_perm (u v : vec) : Permutation u v -> mean u = mean v.
Proof.
  intros HP. pose proof (Permutation_length HP) as HL.
  pose proof (sum_perm u v HP) as HS.
  destruct u as [|a u]; destruct v as [|b v]; try discriminate; [reflexivity |].
  unfold mean. now rewrite HS, HL.
Qed.

Lemma combine_as_seq {A B : Type} (l : list (list A)) (k : list (list B)) (m : nat) :
  length l = m -> length k = m ->
  combine l k = map (fun i => (nth i l [], nth i k [])) (seq 0 m).
Proof.
  intros Hl Hk. apply (nth_ext _ _ ([], []) ([], [])).
  - rewrite length_combine, length_map, length_seq. lia.
  - intros i Hi. rewrite length_combine in Hi.
    rewrite combine_nth by lia.
    rewrite (nth_map_lt _ _ _ _ 0%nat) by (rewrite length_seq; lia).
    rewrite seq_nth by lia. reflexivity.
Qed.

Lemma combine_shuffled {A B : Type} (indices : list nat)
  (l : list (list A)) (k : list (list B)) :
  combine (shuffled indices l) (shuffled indices k) =
  map (fun i => (nth i l [], nth i k [])) indices.
Proof.
  unfold shuffled. induction indices as [|i t IH]; [reflexivity |].
  cbn [map combine]. now rewrite IH.
Qed.

Lemma combine_shuffled_perm {A B : Type} (indices : list nat)
  (l : list (list A)) (k : list (list B)) (m : nat) :
  length l = m -> length k = m -> Permutation (seq 0 m) indices ->
  Permutation (combine (shuffled indices l) (shuffled indices k)) (combine l k).
Proof.
  intros Hl Hk HP. rewrite combine_shuffled, (combine_as_seq l k m Hl Hk).
  apply Permutation_map. now apply Permutation_sym.
Qed.

Lemma mat_op_rows (f : R -> R -> R) (A B : mat) :
  same_shape A B = true ->
  mat_op f A B = Ok (map (fun rs => zip_with f (fst rs) (snd rs)) (combine A B)).
Proof.
  intros H. unfold mat_op. rewrite H. f_equal.
  apply map_ext. now intros [r s].
Qed.

Lemma compute_loss_mean_of_terms (m n : nat) (P Y : mat) :
  has_shape m n P = true -> has_shape m n Y = true ->
  compute_loss P Y =
  (let* mu := mean (map sample_term (combine Y P)) in Ok (- mu)).
Proof.
  intros HP HY. unfold compute_loss.
  pose proof (has_shape_map_map (clip epsilon (1 - epsilon)) _ _ _ HP) as HC.
  pose proof (has_shape_map_map ln _ _ _ HC) as HL.
  rewrite mat_op_rows by now apply (same_shape_true m n).
  cbn [bind]. unfold sum_axis1.
  rewrite <- (map_id Y) at 1. rewrite !map_map, combine_map_map, !map_map.
  reflexivity.
Qed.

Lemma accuracy_shuffled (m o : nat) (P Y : mat)
  (indices : list nat) :
  has_shape m o P = true -> has_shape m o Y = true -> (1 <= o)%nat ->
  Permutation (seq 0 m) indices ->
  accuracy (shuffled indices P) (shuffled indices Y) = accuracy P Y.
Proof.
  intros HP HY Ho Hperm.
  destruct (permutation_in_range _ _ Hperm) as [Lidx Fidx].
  pose proof (has_shape_length _ _ _ HP) as LP.
  pose proof (has_shape_length _ _ _ HY) as LY.
  pose proof (shuffled_shape m o P indices HP Fidx) as HP'.
  pose proof (shuffled_shape m o Y indices HY Fidx) as HY'.
  rewrite (accuracy_mean_of_hits (length indices) o o) by assumption.
  rewrite (accuracy_mean_of_hits m o o) by assumption.
  apply mean_perm, Permutation_map.
  now apply (combine_shuffled_perm indices P Y m).
Qed.

(** The per-sample terms of the loss on a reordered batch are the terms of
    the batch, reordered. *)
Lemma loss_terms_shuffled (m : nat) (P Y : mat) (indices : list nat) :
  length P = m -> length Y = m ->
  Forall (fun i => (i < m)%nat) indices ->
  map sample_term (combine (shuffled indices Y) (shuffled indices P)) =
  map (fun i => nth i (map sample_term (combine Y P)) 0) indices.
Proof.
  intros LP LY HF. rewrite combine_shuffled, map_map.
  apply map_ext_in. intros i Hi.
  rewrite Forall_forall in HF. specialize (HF i Hi).
  rewrite (nth_map_lt sample_term (combine Y P) i 0 ([], []))
    by (rewrite length_combine; lia).
  now rewrite combine_nth by lia.
Qed.

(** X3: indexing the predictions and the labels by one permutation, as the
    training loop does with features and labels, succeeds and gives the
    same rows in another order.  [accuracy] returns the same value on the
    permuted batch.  [compute_loss] takes the mean of the same per-sample
    terms, in the permuted order: the loss can change only through the
    order in which the mean adds them. *)
Theorem metrics_invariant_under_permutation (m o : nat) (P Y : mat)
  (indices : list nat) :
  has_shape m o P = true -> has_shape m o Y = true -> (1 <= o)%nat ->
  Permutation (seq 0 m) indices ->
  let terms := map sample_term (combine Y P) in
  let terms' := map (fun i => nth i terms 0) indices in
  exists Ps Ys,
    take indices P = Ok Ps /\ take indices Y = Ok Ys /\
    Permutation Ps P /\ Permutation Ys Y /\
    accuracy Ps Ys = accuracy P Y /\
    compute_loss P Y = (let* mu := mean terms in Ok (- mu)) /\
    compute_loss Ps Ys = (let* mu := mean terms' in Ok (- mu)) /\
    Permutation terms' terms.
Proof.
  intros HP HY Ho Hperm. cbn zeta.
  destruct (permutation_in_range _ _ Hperm) as [Lidx Fidx].
  pose proof (has_shape_length _ _ _ HP) as LP.
  pose proof (has_shape_length _ _ _ HY) as LY.
  exists (shuffled indices P), (shuffled indices Y).
  split; [apply take_ok; now rewrite LP |].
  split; [apply take_ok; now rewrite LY |].
  assert (Hsh : forall A : mat, length A = m ->
                  Permutation (shuffled indices A) A).
  { intros A LA. unfold shuffled.
    transitivity (map (fun i => nth i A []) (seq 0 m)).
    - apply Permutation_map, Permutation_sym, Hperm.
    - rewrite <- LA, <- (map_as_seq (fun r => r) A []), map_id.
      reflexivity. }
  split; [now apply Hsh |]. split; [now apply Hsh |].
  split; [now apply (accuracy_shuffled m o) |].
  split; [now apply (compute_loss_mean_of_terms m o) |].
  split.
  - rewrite (compute_loss_mean_of_terms (length indices) o)
      by (apply (shuffled_shape m); assumption).
    now rewrite (loss_terms_shuffled m).
  - rewrite <- (loss_terms_shuffled m) by assumption.
    apply Permutation_map.
    now apply (combine_shuffled_perm indices Y P m).
Qed.

Lemma metrics_invariant_under_permutation_witness :
  exists Ps Ys,
    take [1; 0]%nat [[0.9; 0.1]; [0.3; 0.7]] = Ok Ps /\
    take [1; 0]%nat [[1; 0]; [1; 0]] = Ok Ys /\
    accuracy Ps Ys = accuracy [[0.9; 0.1]; [0.3; 0.7]] [[1; 0]; [1; 0]].
Proof.
  destruct (metrics_invariant_under_permutation 2 2
              [[0.9; 0.1]; [0.3; 0.7]] [[1; 0]; [1; 0]] [1; 0]%nat)
    as (Ps & Ys & E1 & E2 & _ & _ & EA & _);
    [reflexivity | reflexivity | lia | apply perm_swap |].
  exists Ps, Ys. repeat split; assumption.
Defined.

(** ** Bounds and errors of the loss *)

Lemma ln_clip_lower (v : R) : ln epsilon <= ln (clip epsilon (1 - epsilon) v).
Proof.
  pose proof (clip_bounds v) as [Hlo _].
  assert (He : 0 < epsilon) by (unfold epsilon; lra).
  destruct Hlo as [Hlt | Heq]; [| rewrite <- Heq; lra].
  left. now apply ln_increasing.
Qed.

Lemma clip_one : clip epsilon (1 - epsilon) 1 = 1 - epsilon.
Proof.
  unfold clip, epsilon, Rmin, Rmax.
  destruct (Rle_dec 1 1e-15); [lra |].
  destruct (Rle_dec 1 (1 - 1e-15)); lra.
Qed.

Lemma one_hot_row_term (y p : vec) (n : nat) :
  length y = n -> one_hot_row y ->
  exists k, (k < n)%nat /\ nth k y 0 = 1 /\
    big_sum n (fun j => nth j y 0 * ln (clip epsilon (1 - epsilon) (nth j p 0)))
    = ln (clip epsilon (1 - epsilon) (nth k p 0)).
Proof.
  intros Hn (k & Hk & Hrow). rewrite Hn in *. exists k.
  split; [exact Hk |]. split.
  - rewrite (Hrow k Hk), Nat.eqb_refl. reflexivity.
  - now apply (big_sum_single n k (fun j => nth j y 0)
                 (fun j => ln (clip epsilon (1 - epsilon) (nth j p 0)))).
Qed.

Lemma big_sum_const (n : nat) (c : R) : big_sum n (fun _ => c) = INR n * c.
Proof.
  apply Rle_antisym.
  - apply big_sum_le. intros; lra.
  - apply big_sum_ge. intros; lra.
Qed.

(** X4: for one-hot labels and at least one sample the loss is finite
    whatever the predictions are, at most [-log(1e-15)] (about 34.5), the
    clipping keeping the logarithm away from zero; and predictions that
    equal the labels reach the least value, [-log(1 - 1e-15)]. *)
Theorem loss_bounded_by_clipping (m n : nat) (y_pred y_true : mat) :
  has_shape m n y_pred = true -> has_shape m n y_true = true ->
  Forall one_hot_row y_true -> (1 <= m)%nat ->
  (exists v, compute_loss y_pred y_true = Ok v /\
             - ln (1 - 1e-15) <= v <= - ln 1e-15) /\
  compute_loss y_true y_true = Ok (- ln (1 - 1e-15)).
Proof.
  intros HP HY Hhot Hm.
  pose proof (has_shape_length _ _ _ HY) as LY.
  assert (Hpos : 0 < INR m) by (apply lt_0_INR; lia).
  assert (Hrows : forall i, (i < m)%nat ->
            length (nth i y_true []) = n /\ one_hot_row (nth i y_true [])).
  { intros i Hi. split; [now apply (has_shape_row m n) |].
    rewrite Forall_forall in Hhot. apply Hhot, nth_In. lia. }
  split.
  - rewrite (compute_loss_spec m n) by assumption.
    destruct (Nat.eqb_spec m 0) as [E | _]; [lia |].
    eexists. split; [reflexivity |]. split.
    + now apply (cross_entropy_pos m n).
    + unfold cross_entropy. rewrite LY.
      apply (Rmult_le_reg_r (INR m)); [exact Hpos |].
      unfold Rdiv. rewrite Rmult_assoc, Rinv_l by lra. rewrite Rmult_1_r.
      rewrite (Rmult_comm (- ln 1e-15)). apply big_sum_le. intros i Hi.
      destruct (Hrows i Hi) as [Ln Hoh]. rewrite Ln.
      destruct (one_hot_row_term _ (nth i y_pred []) n Ln Hoh) as (k & _ & _ & E).
      unfold entry. rewrite E.
      pose proof (ln_clip_lower (nth k (nth i y_pred []) 0)). unfold epsilon in *.
      lra.
  - rewrite (compute_loss_spec m n) by assumption.
    destruct (Nat.eqb_spec m 0) as [E | _]; [lia |].
    f_equal. unfold cross_entropy. rewrite LY.
    rewrite (big_sum_ext m _ (fun _ => - ln (1 - 1e-15))).
    + rewrite big_sum_const. field. lra.
    + intros i Hi. destruct (Hrows i Hi) as [Ln Hoh]. rewrite Ln.
      destruct (one_hot_row_term _ (nth i y_true []) n Ln Hoh) as (k & _ & Hk1 & E).
      unfold entry. rewrite E, Hk1, clip_one. reflexivity.
Qed.

Lemma loss_bounded_by_clipping_witness :
  (exists v, compute_loss [[0; 1]] [[1; 0]] = Ok v /\
             - ln (1 - 1e-15) <= v <= - ln 1e-15) /\
  compute_loss [[1; 0]] [[1; 0]] = Ok (- ln (1 - 1e-15)).
Proof.
  apply (loss_bounded_by_clipping 1 2); [reflexivity | reflexivity | | lia].
  constructor; [| constructor]. exists 0%nat. split; [cbn; lia |].
  intros [|[|j]] Hj; cbn in Hj |- *; [reflexivity | reflexivity | lia].
Defined.

(** ** More on [softmax] *)

Lemma rows_empty_or_not (x : mat) : Forall (fun r => r <> []) x \/ In [] x.
Proof.
  induction x as [|r x [IH | IH]].
  - left. constructor.
  - destruct r as [|v t]; [right; now left |].
    left. constructor; [discriminate | exact IH].
  - right. now right.
Qed.

(** X5: the shift by the row maximum keeps [softmax] away from overflow
    and from a division by zero.  On binary64 numbers, for finite entries
    and rows that are not empty, each row of the result is the row of
    exponentials [np.exp(x - max)] divided by their sum; every exponential
    lies between 0 and 1, the one of the maximum is exactly 1, and the sum
    lies between 1 and [n * (1 + roundoff)^(n - 1)]. *)
Theorem softmax_shift_bounds_the_exponentials (A : Rounded) (x : mat) :
  Forall (fun r => r <> []) x ->
  Forall (Forall is_float) x ->
  Forall (fun r => INR (length r) * (1 + roundoff) ^ length r <= largest) x ->
  softmax_rounded x =
    Ok (map (fun r =>
               let e := map (fun v => fl_exp_minus v (shift_of r)) r in
               map (fun v => fl_div v (np_sum e)) e) x) /\
  Forall (fun r =>
            let e := map (fun v => fl_exp_minus v (shift_of r)) r in
            In (shift_of r) r /\ fl_exp_minus (shift_of r) (shift_of r) = 1 /\
            Forall (fun v => 0 <= v <= 1) e /\
            1 <= np_sum e
              <= INR (length r) * (1 + roundoff) ^ (length r - 1)) x.
Proof.
  intros Hne HF HL. split; [now apply softmax_rounded_rows |].
  rewrite Forall_forall in *. intros r Hr. cbn zeta.
  destruct (shift_of_max r (Hne r Hr)) as [Hin _].
  destruct (exp_row_bounds r (Hne r Hr) (HF r Hr)) as (_ & Re & _).
  destruct (softmax_rounded_row r (Hne r Hr) (HF r Hr) (HL r Hr))
    as (_ & Hs & _).
  split; [exact Hin |]. split; [| split; [exact Re | exact Hs]].
  apply exp_zero. pose proof (HF r Hr) as HFr.
  rewrite Forall_forall in HFr. now apply HFr.
Qed.

Lemma softmax_shift_bounds_the_exponentials_witness :
  @softmax_rounded exact_arithmetic [[1; 2; 3]] =
    Ok (map (fun r =>
               let e := map (fun v => @fl_exp_minus exact_arithmetic v
                                        (shift_of r)) r in
               map (fun v => @fl_div exact_arithmetic v
                               (@np_sum exact_arithmetic e)) e)
            [[1; 2; 3]]).
Proof.
  apply (softmax_shift_bounds_the_exponentials exact_arithmetic [[1; 2; 3]]).
  - repeat constructor; discriminate.
  - repeat constructor.
  - repeat constructor.
    change (@roundoff exact_arithmetic) with 0.
    change (@largest exact_arithmetic) with 1e308.
    cbn [length INR pow]. lra.
Defined.

(** X7: on an array with at least one row, [softmax] raises exactly when
    some row is empty (the maximum over an axis of size zero), and returns
    otherwise, with rows of the lengths of the input rows.  (An array
    without rows is left out: a list of rows does not record its width.) *)
Theorem softmax_raises_on_empty_row (x : mat) :
  x <> [] ->
  (In [] x <-> softmax x = Err EmptyReduction) /\
  (Forall (fun r => r <> []) x <->
   exists s, softmax x = Ok s /\ map (@length R) s = map (@length R) x).
Proof.
  intros _. split; split.
  - apply softmax_empty_row.
  - intros E. destruct (rows_empty_or_not x) as [Hne | Hin]; [| exact Hin].
    rewrite (softmax_ok x Hne) in E. discriminate.
  - intros Hne. exists (map softmax_unshifted x). split; [now apply softmax_ok |].
    rewrite map_map. apply map_ext. intros r. apply softmax_unshifted_length.
  - intros (s & E & _). destruct (rows_empty_or_not x) as [Hne | Hin]; [exact Hne |].
    rewrite (softmax_empty_row x Hin) in E. discriminate.
Qed.

Lemma softmax_raises_on_empty_row_witness :
  softmax [[1; 2]; []] = Err EmptyReduction /\
  exists s, softmax [[1; 2]; [3; 4]] = Ok s /\ map (@length R) s = [2; 2]%nat.
Proof.
  split.
  - apply (proj1 (softmax_raises_on_empty_row [[1; 2]; []]
                    ltac:(discriminate))).
    right. now left.
  - apply (proj2 (softmax_raises_on_empty_row [[1; 2]; [3; 4]]
                    ltac:(discriminate))).
    repeat constructor; discriminate.
Defined.

(** ** [relu] and [relu_derivative] *)

Lemma combine_map_diag {A B : Type} (g : A -> B) (l : list A) :
  combine l (map g l) = map (fun a => (a, g a)) l.
Proof. induction l as [|a l IH]; [reflexivity |]. cbn [map combine]. now rewrite IH. Qed.

Lemma same_shape_map_map (g : R -> R) (x : mat) :
  same_shape x (map (map g) x) = true.
Proof.
  unfold same_shape. rewrite length_map, Nat.eqb_refl. cbn [andb].
  rewrite combine_map_diag. apply forallb_forall. intros [r s] H.
  apply in_map_iff in H. destruct H as (a & E & _). inversion E; subst.
  rewrite length_map. apply Nat.eqb_refl.
Qed.

(** X8: [relu] returns non-negative entries and is idempotent;
    [relu_derivative] returns only zeros and ones, zero wherever the input
    is not positive (at 0 too); and the input multiplied entry by entry
    with its [relu_derivative] is its [relu]. *)
Theorem relu_and_its_derivative (x : mat) :
  Forall (Forall (fun v => 0 <= v)) (relu x) /\
  relu (relu x) = relu x /\
  Forall2 (Forall2 (fun v d => (0 < v /\ d = 1) \/ (v <= 0 /\ d = 0)))
          x (relu_derivative x) /\
  mat_op Rmult x (relu_derivative x) = Ok (relu x).
Proof.
  split; [| split; [| split]].
  - unfold relu. apply Forall_forall. intros r Hr.
    apply in_map_iff in Hr. destruct Hr as (r0 & <- & _).
    apply Forall_forall. intros v Hv. apply in_map_iff in Hv.
    destruct Hv as (v0 & <- & _). apply Rmax_l.
  - unfold relu. rewrite map_map. apply map_ext. intros r.
    rewrite map_map. apply map_ext. intros v.
    unfold Rmax. destruct (Rle_dec 0 v); destruct (Rle_dec 0 _); lra.
  - unfold relu_derivative. induction x as [|r x IH]; cbn [map]; constructor;
      [| exact IH].
    clear IH. induction r as [|v r IH]; cbn [map]; constructor; [| exact IH].
    destruct (Rlt_dec 0 v); [left | right]; split; lra.
  - rewrite mat_op_rows by apply same_shape_map_map. f_equal.
    unfold relu_derivative, relu. rewrite combine_map_diag, map_map.
    apply map_ext. intros r. cbn [fst snd]. unfold zip_with.
    rewrite combine_map_diag, map_map. apply map_ext. intros v.
    unfold Rmax. destruct (Rlt_dec 0 v); destruct (Rle_dec 0 v); lra.
Qed.


(** ** More on the forward pass *)

Lemma forward_activations_rows (st : model) (X : mat) :
  a2 (forward_activations st X) = map (predict_row st) X.
Proof.
  unfold forward_activations. cbn [a2].
  rewrite (map_as_seq (predict_row st) X []). unfold build.
  rewrite map_map. apply map_ext_in. intros i Hi. apply in_seq in Hi.
  unfold predict_row. f_equal. apply map_ext_in. intros k Hk. f_equal.
  apply big_sum_ext. intros j Hj. f_equal.
  unfold relu. rewrite (map_map_build _ (length X) (hidden_size st))
    by apply build_shape.
  fold (build (length X) (hidden_size st)
          (fun i j => big_sum (input_size st)
                        (fun p => entry X i p * entry (W1 st) p j)
                      + nth j (b1 st) 0)).
  entries. unfold hidden_row.
  rewrite (nth_map_lt _ _ _ _ 0%nat) by (rewrite length_seq; lia).
  rewrite seq_nth by lia. reflexivity.
Qed.

(** X9: on a batch of the width of [W1], for a classifier of well-shaped
    parameters and at least one class, [forward] returns one row per sample
    with one entry per class; it leaves the parameters and sizes as they
    are and caches the four activations of this batch, one row per sample
    each, the hidden ones with one entry per hidden unit, the last one
    being the array it returns. *)
Theorem forward_returns_one_row_per_sample (st : model) (X : mat) :
  wf_model st = true -> (1 <= output_size st)%nat ->
  has_shape (length X) (input_size st) X = true ->
  exists A2 st' c,
    forward st X = Ok (A2, st') /\
    has_shape (length X) (output_size st) A2 = true /\
    params st' = params st /\ sizes st' = sizes st /\
    cache st' = Some c /\ a2 c = A2 /\ a1 c = relu (z1 c) /\
    has_shape (length X) (hidden_size st) (z1 c) = true /\
    has_shape (length X) (hidden_size st) (a1 c) = true /\
    has_shape (length X) (output_size st) (z2 c) = true.
Proof.
  intros Hwf Ho HX.
  exists (a2 (forward_activations st X)),
    (set_cache st (forward_activations st X)), (forward_activations st X).
  destruct (forward_activations_shapes st X) as (Hz1 & Ha1 & Hz2 & Ha2).
  split; [now apply forward_spec |].
  repeat split; assumption.
Qed.

Lemma forward_returns_one_row_per_sample_witness :
  exists A2 st',
    forward example_model example_X = Ok (A2, st') /\
    has_shape 2 2 A2 = true.
Proof.
  destruct (forward_returns_one_row_per_sample example_model example_X)
    as (A2 & st' & c & E & Hs & _); [reflexivity | cbn; lia | reflexivity |].
  exists A2, st'. split; [exact E | exact Hs].
Defined.

(** X10: [forward] computes each sample on its own: on the concatenation
    of two batches it returns the concatenation of what it returns on each,
    so a prediction does not depend on the other samples of the batch. *)
Theorem forward_is_row_wise (st : model) (X1 X2 : mat) :
  wf_model st = true -> (1 <= output_size st)%nat ->
  has_shape (length X1) (input_size st) X1 = true ->
  has_shape (length X2) (input_size st) X2 = true ->
  exists A B st1 st2 st12,
    forward st X1 = Ok (A, st1) /\ forward st X2 = Ok (B, st2) /\
    forward st (X1 ++ X2) = Ok (A ++ B, st12).
Proof.
  intros Hwf Ho H1 H2.
  assert (H12 : has_shape (length (X1 ++ X2)) (input_size st) (X1 ++ X2) = true).
  { apply has_shape_spec. split; [reflexivity |].
    apply has_shape_spec in H1. apply has_shape_spec in H2.
    apply Forall_app. split; tauto. }
  do 5 eexists. split; [now apply forward_spec |].
  split; [now apply forward_spec |].
  rewrite forward_spec by assumption.
  rewrite !forward_activations_rows, map_app. reflexivity.
Qed.

Lemma forward_is_row_wise_witness :
  exists A B st1 st2 st12,
    forward example_model [[1; 0]] = Ok (A, st1) /\
    forward example_model [[0; 1]] = Ok (B, st2) /\
    forward example_model ([[1; 0]] ++ [[0; 1]]) = Ok (A ++ B, st12).
Proof.
  apply (forward_is_row_wise example_model [[1; 0]] [[0; 1]]);
    [reflexivity | cbn; lia | reflexivity | reflexivity].
Defined.

Lemma forallb_false_exists {A : Type} (f : A -> bool) (l : list A) :
  Exists (fun a => f a = false) l -> forallb f l = false.
Proof.
  induction 1 as [a l H | a l _ IH]; cbn [forallb].
  - now rewrite H.
  - rewrite IH. apply andb_false_r.
Qed.

Lemma build_no_column (m : nat) (f : nat -> nat -> R) :
  build m 0 f = repeat [] m.
Proof.
  unfold build. cbn [seq map].
  generalize 0%nat. induction m as [|m IH]; intros a; [reflexivity |].
  cbn [seq map repeat]. now rewrite IH.
Qed.

(** X11: [forward] raises on a batch that has a row of another width than
    [W1] has rows (the operands of [np.dot] are not aligned), and on a
    non-empty batch when the classifier has no class ([softmax] then takes
    a maximum over an empty axis). *)
Theorem forward_raises (st : model) (X : mat) :
  wf_model st = true ->
  (Exists (fun r => length r <> input_size st) X ->
   forward st X = Err ShapeMismatch) /\
  (has_shape (length X) (input_size st) X = true -> X <> [] ->
   output_size st = 0%nat -> forward st X = Err EmptyReduction).
Proof.
  intros Hwf. destruct (wf_model_spec st Hwf) as (HW1 & Hb1 & HW2 & Hb2).
  split.
  - intros HE. unfold forward, dot.
    rewrite (has_shape_length _ _ _ HW1).
    rewrite forallb_false_exists; [reflexivity |].
    eapply Exists_impl; [| exact HE]. intros r Hr. now apply Nat.eqb_neq.
  - intros HX Hne Ho. unfold forward. rewrite Ho in *.
    rewrite (dot_build (length X) (input_size st) (hidden_size st)) by assumption.
    cbn [bind].
    rewrite (add_rowvec_build (length X) (hidden_size st))
      by (apply build_shape || assumption).
    cbn [bind].
    rewrite (dot_build (length X) (hidden_size st) 0)
      by (apply has_shape_map_map, build_shape || assumption).
    cbn [bind].
    rewrite (add_rowvec_build (length X) 0) by (apply build_shape || assumption).
    cbn [bind]. rewrite build_no_column.
    rewrite softmax_empty_row; [reflexivity |].
    destruct X as [|r X]; [congruence |]. cbn [length repeat]. now left.
Qed.

Lemma forward_raises_witness :
  forward example_model [[1; 2; 3]; [4; 5; 6]] = Err ShapeMismatch.
Proof.
  destruct (forward_raises example_model [[1; 2; 3]; [4; 5; 6]]) as [H _];
    [reflexivity |].
  apply H. apply Exists_cons_hd. cbn. lia.
Defined.

(** ** More on the backward pass *)

Lemma bind_ok {A B : Type} (c : res A) (k : A -> res B) (b : B) :
  bind c k = Ok b -> exists a, c = Ok a /\ k a = Ok b.
Proof. destruct c as [a | e]; cbn [bind]; [eauto | discriminate]. Qed.

Lemma zip_with_length (f : R -> R -> R) (u v : vec) :
  length u = length v -> length (zip_with f u v) = length u.
Proof. intros H. unfold zip_with. rewrite length_map, length_combine. lia. Qed.

Lemma mat_op_ok_shape (f : R -> R -> R) (m n : nat) (A B C : mat) :
  mat_op f A B = Ok C -> has_shape m n A = true -> has_shape m n C = true.
Proof.
  unfold mat_op. destruct (same_shape A B) eqn:HS; [| discriminate].
  intros E HA. injection E as <-.
  unfold same_shape in HS. apply andb_true_iff in HS. destruct HS as [HL HR].
  apply Nat.eqb_eq in HL. rewrite forallb_forall in HR.
  apply has_shape_spec in HA. destruct HA as [LA FA].
  apply has_shape_spec. split.
  - rewrite length_map, length_combine. lia.
  - rewrite Forall_forall in *. intros c Hc. apply in_map_iff in Hc.
    destruct Hc as ([r s] & <- & Hrs). specialize (HR _ Hrs). cbn in HR.
    apply Nat.eqb_eq in HR. rewrite zip_with_length by exact HR.
    apply FA. eapply in_combine_l. exact Hrs.
Qed.

Lemma vec_op_ok_length (f : R -> R -> R) (u v w : vec) :
  vec_op f u v = Ok w -> length w = length u.
Proof.
  unfold vec_op. destruct (Nat.eqb_spec (length u) (length v)) as [E | _];
    [| discriminate].
  intros H. injection H as <-. now apply zip_with_length.
Qed.

(** X12: whatever batch and labels it is given, when [backward] returns
    it has changed nothing but the four parameters, and each of them has
    kept its shape: the sizes and the cached activations are those from
    before (the cache is not refreshed), and well-shaped parameters stay
    well-shaped. *)
Theorem backward_keeps_shapes (st st' : model) (X Y : mat) (learning_rate : R) :
  backward st X Y learning_rate = Ok st' ->
  sizes st' = sizes st /\ cache st' = cache st /\
  (wf_model st = true -> wf_model st' = true).
Proof.
  unfold backward. intros H.
  repeat match type of H with
         | bind _ _ = Ok _ =>
             apply bind_ok in H; destruct H as (? & ? & H)
         end.
  injection H as <-.
  split; [reflexivity |]. split; [reflexivity |].
  intros Hwf. destruct (wf_model_spec st Hwf) as (HW1 & Hb1 & HW2 & Hb2).
  apply wf_model_intro;
    cbn [set_params W1 b1 W2 b2 input_size hidden_size output_size].
  - eapply mat_op_ok_shape; eassumption.
  - erewrite vec_op_ok_length by eassumption. exact Hb1.
  - eapply mat_op_ok_shape; eassumption.
  - erewrite vec_op_ok_length by eassumption. exact Hb2.
Qed.

Lemma backward_keeps_shapes_witness :
  exists st',
    backward (set_cache example_model (forward_activations example_model example_X))
             example_X example_Y 0.01 = Ok st' /\
    sizes st' = (2, 1, 2)%nat /\ wf_model st' = true.
Proof.
  destruct (forward_activations_shapes example_model example_X)
    as (Hz1 & Ha1 & _ & Ha2).
  pose proof (backward_spec
                (set_cache example_model
                   (forward_activations example_model example_X))
                (forward_activations example_model example_X)
                example_X example_Y 0.01 eq_refl ltac:(cbn; lia) eq_refl
                Hz1 Ha1 Ha2 eq_refl eq_refl) as E.
  cbn [example_X length Nat.eqb] in E.
  eexists. split; [exact E |].
  destruct (backward_keeps_shapes _ _ _ _ _ E) as (Hs & _ & Hwf).
  split; [exact Hs | apply Hwf; reflexivity].
Defined.

Lemma gradient_step_zero_rate (st : model) (c : activations) (X Y : mat) :
  wf_model st = true -> params (gradient_step st c X Y 0) = params st.
Proof.
  intros Hwf. destruct (wf_model_spec st Hwf) as (HW1 & Hb1 & HW2 & Hb2).
  unfold gradient_step, params, set_params. cbn [W1 b1 W2 b2].
  assert (E1 : forall (n h : nat) (A : mat) (d : nat -> nat -> R),
             has_shape n h A = true ->
             build n h (fun p j => entry A p j - 0 * d p j) = A).
  { intros n h A d HA. transitivity (build n h (entry A));
      [apply build_ext; intros; lra | symmetry; now apply shape_as_build]. }
  assert (E2 : forall (n : nat) (v : vec) (d : nat -> R),
             length v = n -> build_vec n (fun j => nth j v 0 - 0 * d j) = v).
  { intros n v d Hv. transitivity (build_vec n (fun j => nth j v 0));
      [apply build_vec_ext; intros; lra |].
    unfold build_vec. rewrite <- Hv. apply map_seq_nth. }
  now rewrite !E1, !E2.
Qed.

(** X13: on a batch of at least one sample, with a learning rate of zero,
    a forward pass followed by [backward] leaves the four parameters
    exactly as they were. *)
Theorem zero_learning_rate_keeps_parameters (st : model) (X Y : mat) :
  wf_model st = true -> (1 <= output_size st)%nat ->
  has_shape (length X) (input_size st) X = true ->
  has_shape (length X) (output_size st) Y = true -> (1 <= length X)%nat ->
  exists A2 st1 st2,
    forward st X = Ok (A2, st1) /\ backward st1 X Y 0 = Ok st2 /\
    params st2 = params st.
Proof.
  intros Hwf Ho HX HY Hm.
  set (c := forward_activations st X).
  destruct (forward_activations_shapes st X) as (Hz1 & Ha1 & _ & Ha2).
  exists (a2 c), (set_cache st c), (gradient_step (set_cache st c) c X Y 0).
  split; [now apply forward_spec |]. split.
  - rewrite (backward_spec (set_cache st c) c) by (assumption || reflexivity).
    destruct (Nat.eqb_spec (length X) 0) as [E | _]; [lia | reflexivity].
  - now rewrite gradient_step_zero_rate.
Qed.

Lemma zero_learning_rate_keeps_parameters_witness :
  exists A2 st1 st2,
    forward example_model example_X = Ok (A2, st1) /\
    backward st1 example_X example_Y 0 = Ok st2 /\
    params st2 = params example_model.
Proof.
  apply (zero_learning_rate_keeps_parameters example_model example_X example_Y);
    [reflexivity | cbn; lia | reflexivity | reflexivity | cbn; lia].
Defined.

(** ** The constructor *)

(** X15: [PricePredictor(input_size, hidden_size, output_size)] succeeds
    exactly when [input_size] and [hidden_size] are positive and otherwise
    raises on the division by the zero size.  The classifier it builds has
    well-shaped parameters, [W1] and [W2] being the standard normal draws
    scaled by [sqrt(2 / fan_in)], zero biases and no cached activations, so
    that [backward] before any [forward] raises. *)
Theorem init_result (RS : RandomState) (n h o : nat) (g : rng) :
  match init n h o g with
  | Ok (st, g') =>
      (1 <= n)%nat /\ (1 <= h)%nat /\
      sizes st = (n, h, o) /\ wf_model st = true /\
      W1 st = scale (sqrt (2.0 / INR n)) (fst (random_randn n h g)) /\
      W2 st = scale (sqrt (2.0 / INR h))
                (fst (random_randn h o (snd (random_randn n h g)))) /\
      g' = snd (random_randn h o (snd (random_randn n h g))) /\
      b1 st = repeat 0 h /\ b2 st = repeat 0 o /\ cache st = None /\
      forall X Y learning_rate,
        backward st X Y learning_rate = Err MissingActivations
  | Err e => e = DivideByZero /\ (n = 0%nat \/ h = 0%nat)
  end.
Proof.
  unfold init.
  pose proof (randn_shape n h g) as S1.
  destruct (random_randn n h g) as [r1 g1]. cbn [fst snd] in *.
  destruct (Nat.eqb_spec n 0) as [E | Hn]; [split; auto |].
  pose proof (randn_shape h o g1) as S2.
  destruct (random_randn h o g1) as [r2 g2]. cbn [fst snd] in *.
  destruct (Nat.eqb_spec h 0) as [E | Hh]; [split; auto |].
  split; [lia |]. split; [lia |]. split; [reflexivity |]. split.
  { apply wf_model_intro; cbn [W1 b1 W2 b2 input_size hidden_size output_size].
    - now apply has_shape_map_map.
    - apply repeat_length.
    - now apply has_shape_map_map.
    - apply repeat_length. }
  repeat (split; [reflexivity |]). reflexivity.
Qed.

(** ** More on the generator *)

(** X16: the normalisation of a percentage change [d] is [d / 5] when [d]
    lies within 5 percent either way and saturates at -1 below and at 1
    above; it never decreases when [d] grows. *)
Theorem normalize_saturates (deltas : list R) :
  normalize deltas =
    map (fun d => if Rlt_dec d (-5) then -1
                  else if Rlt_dec 5 d then 1 else d / 5.0) deltas /\
  forall d1 d2, d1 <= d2 ->
    py_min (py_max (d1 / 5.0) (-1)) 1 <= py_min (py_max (d2 / 5.0) (-1)) 1.
Proof.
  assert (C : forall d, py_min (py_max (d / 5.0) (-1)) 1 =
                        if Rlt_dec d (-5) then -1
                        else if Rlt_dec 5 d then 1 else d / 5.0).
  { intros d. unfold py_min, py_max.
    destruct (Rlt_dec d (-5)); destruct (Rlt_dec (d / 5.0) (-1)); try lra.
    - destruct (Rlt_dec 1 (-1)); lra.
    - destruct (Rlt_dec 5 d); destruct (Rlt_dec 1 (d / 5.0)); lra. }
  split.
  - unfold normalize. apply map_ext. exact C.
  - intros d1 d2 Hd. rewrite !C.
    destruct (Rlt_dec d1 (-5)); destruct (Rlt_dec d2 (-5));
      destruct (Rlt_dec 5 d1); destruct (Rlt_dec 5 d2); lra.
Qed.


(** X17: generating [n + k] samples is generating [n] samples and then [k]
    more from the generator state that the first call leaves: the features
    and the labels are the concatenations, in that order; and generating
    no sample returns nothing and leaves the generator state alone. *)
Theorem generate_composes (RS : RandomState) (n k : nat) (g : rng) :
  generate_training_data (n + k) g =
    (let '((X1, y1), g1) := generate_training_data n g in
     let '((X2, y2), g2) := generate_training_data k g1 in
     ((X1 ++ X2, y1 ++ y2), g2)) /\
  generate_training_data 0 g = (([], []), g).
Proof.
  split; [| reflexivity].
  unfold generate_training_data. rewrite generate_loop_add.
  destruct (generate_loop n [] [] g) as [[X1 y1] g1].
  apply generate_loop_acc.
Qed.

(** X18: when the prices that serve as divisors are not zero, the total
    change from which the label is read is the compound of the four
    percentage changes from which the features are read. *)
Theorem total_change_compounds (p0 p1 p2 p3 p4 : R) :
  p0 <> 0 -> p1 <> 0 -> p2 <> 0 -> p3 <> 0 ->
  let prices := [p0; p1; p2; p3; p4] in
  1 + total_change prices / 100 =
  fold_right Rmult 1 (map (fun d => 1 + d / 100) (percent_deltas prices)).
Proof.
  intros H0 H1 H2 H3. cbn zeta. unfold total_change, percent_deltas.
  cbn [seq map nth List.last fold_right]. field. repeat split; assumption.
Qed.

Lemma total_change_compounds_witness :
  1 + total_change [100; 101; 99; 102; 103] / 100 =
  fold_right Rmult 1
    (map (fun d => 1 + d / 100) (percent_deltas [100; 101; 99; 102; 103])).
Proof.
  apply (total_change_compounds 100 101 99 102 103); lra.
Defined.

(** ** Shuffling *)

(** X19: indexing the training features and labels by one permutation of
    their positions, as every epoch does, succeeds and returns the same
    samples in another order: the pairs of a feature row and its label are
    a permutation of the original pairs, position [i] holding the pair of
    position [indices[i]].  An index out of range raises. *)
Theorem shuffle_keeps_samples_aligned (X : mat) (y : list (list Z))
  (indices : list nat) :
  length y = length X -> Permutation (seq 0 (length X)) indices ->
  exists Xs ys,
    take indices X = Ok Xs /\ take indices y = Ok ys /\
    Permutation (combine Xs ys) (combine X y) /\
    length Xs = length X /\ length ys = length X /\
    (forall i, (i < length X)%nat ->
       nth i Xs [] = nth (nth i indices 0%nat) X [] /\
       nth i ys [] = nth (nth i indices 0%nat) y []) /\
    take (length X :: indices) X = Err IndexOutOfRange.
Proof.
  intros Ly HP. destruct (permutation_in_range _ _ HP) as [Lidx Fidx].
  exists (shuffled indices X), (shuffled indices y).
  split; [now apply take_ok |].
  split; [apply take_ok; now rewrite Ly |].
  split; [now apply (combine_shuffled_perm indices X y (length X)) |].
  unfold shuffled. rewrite !length_map.
  split; [exact Lidx |]. split; [exact Lidx |]. split.
  - intros i Hi.
    split.
    + exact (nth_map_lt (fun i => nth i X []) indices i [] 0%nat
               ltac:(lia)).
    + exact (nth_map_lt (fun i => nth i y []) indices i [] 0%nat
               ltac:(lia)).
  - unfold take. cbn [mapM].
    rewrite (proj2 (nth_error_None X (length X))) by lia. reflexivity.
Qed.

Lemma shuffle_keeps_samples_aligned_witness :
  exists Xs ys,
    take [1; 0]%nat [[1; 2]; [3; 4]] = Ok Xs /\
    take [1; 0]%nat [[1; 0; 0]; [0; 0; 1]]%Z = Ok ys /\
    Permutation (combine Xs ys)
                (combine [[1; 2]; [3; 4]] [[1; 0; 0]; [0; 0; 1]]%Z).
Proof.
  destruct (shuffle_keeps_samples_aligned [[1; 2]; [3; 4]]
              [[1; 0; 0]; [0; 0; 1]]%Z [1; 0]%nat)
    as (Xs & ys & E1 & E2 & HP & _); [reflexivity | apply perm_swap |].
  exists Xs, ys. repeat split; assumption.
Defined.

Lemma entry_shuffled (indices : list nat) (A : mat) (i j : nat) :
  (i < length indices)%nat ->
  entry (shuffled indices A) i j = entry A (nth i indices 0%nat) j.
Proof.
  intros Hi. unfold entry, shuffled.
  now rewrite (nth_map_lt (fun i => nth i A []) indices i [] 0%nat Hi).
Qed.

Lemma shuffled_length {A : Type} (indices : list nat) (l : list (list A)) :
  length (shuffled indices l) = length indices.
Proof. unfold shuffled. apply length_map. Qed.

Lemma build_shuffled (m n : nat) (indices : list nat)
  (f g : nat -> nat -> R) :
  Forall (fun i => (i < m)%nat) indices ->
  (forall i j, (i < length indices)%nat -> (j < n)%nat ->
     f i j = g (nth i indices 0%nat) j) ->
  build (length indices) n f = shuffled indices (build m n g).
Proof.
  intros HF Hfg. apply (nth_ext _ _ [] []).
  - now rewrite build_length, shuffled_length.
  - intros i Hi. rewrite build_length in Hi.
    rewrite build_row by assumption. unfold shuffled.
    rewrite (nth_map_lt (fun i => nth i (build m n g) []) indices i []
               0%nat Hi).
    rewrite build_row
      by (rewrite Forall_forall in HF; apply HF, nth_In; assumption).
    apply map_ext_in. intros j Hj. apply in_seq in Hj. apply Hfg; lia.
Qed.

Lemma map_rows_shuffled (f : vec -> vec) (indices : list nat) (A : mat) :
  f [] = [] ->
  map f (shuffled indices A) = shuffled indices (map f A).
Proof.
  intros Hf. unfold shuffled. rewrite map_map. apply map_ext. intros i.
  rewrite <- Hf at 2. symmetry. apply map_nth.
Qed.

(** The activations of a forward pass on a reordered batch are the
    reordered activations. *)
Lemma forward_activations_shuffled (st : model) (X : mat)
  (indices : list nat) :
  Forall (fun i => (i < length X)%nat) indices ->
  let c := forward_activations st X in
  let cs := forward_activations st (shuffled indices X) in
  z1 cs = shuffled indices (z1 c) /\ a1 cs = shuffled indices (a1 c) /\
  z2 cs = shuffled indices (z2 c) /\ a2 cs = shuffled indices (a2 c).
Proof.
  intros HF. cbn zeta. unfold forward_activations. cbn [z1 a1 z2 a2].
  rewrite shuffled_length.
  set (Z1 := build (length X) _ _).
  set (Z1s := build (length indices) (hidden_size st) _).
  assert (E1 : Z1s = shuffled indices Z1).
  { apply build_shuffled; [assumption |]. intros i j Hi Hj. f_equal.
    apply big_sum_ext. intros p Hp. now rewrite entry_shuffled. }
  rewrite E1.
  assert (E2 : relu (shuffled indices Z1) = shuffled indices (relu Z1))
    by (apply (map_rows_shuffled (map (Rmax 0))); reflexivity).
  rewrite E2.
  set (Z2 := build (length X) _ _).
  set (Z2s := build (length indices) (output_size st) _).
  assert (E3 : Z2s = shuffled indices Z2).
  { apply build_shuffled; [assumption |]. intros i k Hi Hk. f_equal.
    apply big_sum_ext. intros j Hj. now rewrite entry_shuffled. }
  rewrite E3. repeat split.
  apply map_rows_shuffled. reflexivity.
Qed.

(** X20: the shuffle of an epoch only reorders the predictions.  For a
    non-empty training subset the forward pass on the shuffled batch
    returns the rows that [forward] returns on the training subset in its
    stored order, reordered by the permutation; the logged loss is
    [compute_loss] of these reordered rows and labels, and the logged
    accuracy is the accuracy of the predictions in the stored order. *)
Theorem shuffle_only_reorders_predictions (RS : RandomState)
  (evaluate : bool) (d : dataset) (learning_rate : R) (st : model)
  (g : rng) :
  wf_model st = true ->
  wf_dataset (input_size st) (output_size st) d = true ->
  (1 <= output_size st)%nat -> (1 <= length (X_train d))%nat ->
  let indices := fst (random_permutation (length (X_train d)) g) in
  exists st' g' l y_pred st1 X_shuffled y_shuffled st2,
    epoch_body evaluate d learning_rate (st, g) = Ok (st', g', l) /\
    forward st (X_train d) = Ok (y_pred, st1) /\
    take indices (X_train d) = Ok X_shuffled /\
    take indices (y_train d) = Ok y_shuffled /\
    forward st X_shuffled = Ok (shuffled indices y_pred, st2) /\
    loss l = metric (compute_loss (shuffled indices y_pred)
                       (as_float y_shuffled)) /\
    acc l = metric (accuracy y_pred (as_float (y_train d))).
Proof.
  intros Hwf Hd Ho Hm. cbn zeta.
  destruct (wf_dataset_spec _ _ _ Hd) as (HXt & Hyt & HXe & Hye).
  pose proof (permutation_perm (length (X_train d)) g) as Hperm.
  destruct (permutation_in_range _ _ Hperm) as [Lidx Fidx].
  rewrite epoch_body_spec by assumption.
  destruct (Nat.eqb_spec (length (X_train d)) 0) as [E | NE]; [lia |].
  set (indices := fst (random_permutation (length (X_train d)) g)) in *.
  set (c := forward_activations st (X_train d)).
  destruct (forward_activations_shapes st (X_train d))
    as (Hz1 & Ha1 & Hz2 & Ha2). fold c in Hz1, Ha1, Hz2, Ha2.
  destruct (forward_activations_shuffled st (X_train d) indices Fidx)
    as (Ez1 & Ea1 & Ez2 & Ea2). fold c in Ez1, Ea1, Ez2, Ea2.
  assert (Ly : length (y_train d) = length (X_train d)).
  { apply has_shape_length in Hyt. now rewrite as_float_length in Hyt. }
  do 3 eexists. exists (a2 c), (set_cache st c).
  exists (shuffled indices (X_train d)), (shuffled indices (y_train d)).
  eexists.
  split; [reflexivity |].
  split; [now apply forward_spec |].
  split; [now apply take_ok |].
  split; [apply take_ok; now rewrite Ly |].
  split.
  { rewrite forward_spec; try assumption.
    - rewrite Ea2. reflexivity.
    - rewrite shuffled_length.
      apply (shuffled_shape (length (X_train d))); assumption. }
  cbn [loss acc]. rewrite Ea2. split; [reflexivity |].
  rewrite as_float_shuffled.
  now rewrite (accuracy_shuffled (length (X_train d)) (output_size st)).
Qed.

Lemma shuffle_only_reorders_predictions_witness :
  exists st' g' l y_pred st1,
    epoch_body (H := fixed_random) true example_dataset 0.01
      (example_model, 0%nat) = Ok (st', g', l) /\
    forward example_model (X_train example_dataset) = Ok (y_pred, st1) /\
    acc l = metric (accuracy y_pred (as_float (y_train example_dataset))).
Proof.
  destruct (shuffle_only_reorders_predictions fixed_random true
              example_dataset 0.01 example_model 0%nat)
    as (st' & g' & l & y_pred & st1 & _ & _ & _ & E & Ef & _ & _ & _ & _ & Ha);
    [reflexivity | reflexivity | cbn; lia | cbn; lia |].
  exists st', g', l, y_pred, st1. repeat split; assumption.
Defined.

(** ** The progress log *)

Section ProgressLog.
Context `{RS : RandomState}.

Lemma epoch_body_log (b : bool) (d : dataset) (lr : R) (s : model * rng)
  (st' : model) (g' : rng) (l : epoch_log) :
  epoch_body b d lr s = Ok (st', g', l) ->
  (test_acc l = None <-> b = false).
Proof.
  unfold epoch_body. destruct s as [st g].
  destruct (random_permutation (length (X_train d)) g) as [idx g1].
  intros E.
  apply bind_ok in E as (Xs & _ & E). apply bind_ok in E as (ys & _ & E).
  apply bind_ok in E as ([P st1] & _ & E).
  apply bind_ok in E as (lo & _ & E). apply bind_ok in E as (ac & _ & E).
  apply bind_ok in E as (st2 & _ & E).
  destruct b.
  - apply bind_ok in E as ([P' st3] & _ & E).
    apply bind_ok in E as (ta & _ & E). inversion E; subst. cbn [test_acc].
    split; discriminate.
  - inversion E; subst. cbn [test_acc]. split; reflexivity.
Qed.

Lemma run_epochs_history (s : nat -> bool) (d : dataset) (lr : R)
  (epochs : list nat) :
  forall st g h st' g' h',
    run_epochs s d lr epochs (st, g) h = Ok (st', g', h') ->
    exists ls, h' = h ++ ls /\ length ls = length epochs /\
      forall i l, nth_error ls i = Some l ->
        (test_acc l = None <-> s (nth i epochs 0%nat) = false).
Proof.
  induction epochs as [|epoch rest IH]; intros st g h st' g' h' E.
  - cbn [run_epochs] in E. inversion E; subst. exists [].
    split; [now rewrite app_nil_r |]. split; [reflexivity |].
    intros [|i] l Hi; discriminate.
  - cbn [run_epochs] in E. apply bind_ok in E as ([[st1 g1] l1] & E1 & E).
    apply IH in E as (ls & -> & Hlen & Hls).
    exists (l1 :: ls). split; [now rewrite <- app_assoc |].
    split; [cbn [length]; lia |].
    intros [|i] l Hi.
    + cbn in Hi. inversion Hi; subst. cbn [nth].
      exact (epoch_body_log _ _ _ _ _ _ _ E1).
    + cbn [nth]. apply Hls. exact Hi.
Qed.
End ProgressLog.

(** X21: a successful run logs one entry per epoch, in order, and the entry
    of epoch [i] (counted from zero) holds an evaluation accuracy exactly
    when [(i + 1) % 10 == 0]. *)
Theorem evaluation_every_tenth_epoch (RS : RandomState) (FR : FloatRepr)
  (script_dir : string) (epochs n : nat) (learning_rate : R) (g : rng)
  (fs : filesystem) (r : train_result rng) :
  train script_dir epochs n learning_rate g fs = Ok r ->
  length (history r) = epochs /\
  forall i l, nth_error (history r) i = Some l ->
    (test_acc l = None <-> ((i + 1) mod 10 <> 0)%nat).
Proof.
  unfold train. intros E.
  destruct (generate_training_data n g) as [[X y] g0].
  destruct (length y =? 0)%nat; [discriminate |].
  apply bind_ok in E as ([st0 g1] & _ & E).
  apply bind_ok in E as ([[st1 g2] h] & Erun & E).
  apply bind_ok in E as ([P st2] & _ & E).
  apply bind_ok in E as (fa & _ & E).
  apply bind_ok in E as ([st3 g3] & _ & E).
  inversion E; subst. cbn [history].
  apply run_epochs_history in Erun as (ls & -> & Hlen & Hls).
  rewrite length_seq in Hlen. cbn [app]. split; [exact Hlen |].
  intros i l Hi. rewrite (Hls i l Hi).
  assert (Hlt : (i < epochs)%nat).
  { rewrite <- Hlen. apply nth_error_Some. now rewrite Hi. }
  rewrite seq_nth by assumption. cbn [Nat.add]. unfold is_eval_epoch.
  destruct (Nat.eqb_spec ((i + 1) mod 10) 0); split; congruence.
Qed.

Lemma evaluation_every_tenth_epoch_witness :
  exists r,
    train (H := fixed_random) (H0 := plain_repr) "models" 10 5 0.01 0%nat ∅
      = Ok r /\
    length (history r) = 10%nat.
Proof.
  destruct (train_ok (RS := fixed_random) (FR := plain_repr)
              "models" 10 5 0.01 0%nat ∅) as (r & _ & E & _);
    [lia | right; apply split_index_pos; lia |].
  exists r. split; [exact E |].
  exact (proj1 (evaluation_every_tenth_epoch fixed_random plain_repr
                  "models" 10 5 0.01 0%nat ∅ r E)).
Defined.

(** ** What a run of [train] leaves behind *)

Lemma forward_keeps_params (st st' : model) (x y_pred : mat) :
  forward st x = Ok (y_pred, st') ->
  params st' = params st /\ sizes st' = sizes st.
Proof.
  unfold forward. intros E.
  apply bind_ok in E as (xw & _ & E). apply bind_ok in E as (Z1 & _ & E).
  apply bind_ok in E as (aw & _ & E). apply bind_ok in E as (Z2 & _ & E).
  apply bind_ok in E as (A2 & _ & E). inversion E; subst.
  split; reflexivity.
Qed.

Section TrainOutcome.
Context `{RS : RandomState} `{FR : FloatRepr}.

Lemma sample_prediction_keeps_params (d : dataset) (s s' : model * rng) :
  sample_prediction d s = Ok s' -> params (fst s') = params (fst s).
Proof.
  unfold sample_prediction. destruct s as [st g]. intros E.
  destruct (length (X_test d) =? 0)%nat; [discriminate |].
  destruct (random_randint (length (X_test d)) g) as [idx g1].
  apply bind_ok in E as ([P st1] & Ef & E).
  apply bind_ok in E as (pr & _ & E). apply bind_ok in E as (yr & _ & E).
  apply bind_ok in E as (t & _ & E). apply bind_ok in E as (tn & _ & E).
  apply bind_ok in E as (p & _ & E). apply bind_ok in E as (pn & _ & E).
  inversion E; subst. cbn [fst].
  exact (proj1 (forward_keeps_params _ _ _ _ Ef)).
Qed.

Lemma sample_predictions_keep_params (d : dataset) (k : nat) :
  forall s s', sample_predictions d k s = Ok s' ->
               params (fst s') = params (fst s).
Proof.
  induction k as [|k IH]; intros s s' E; cbn [sample_predictions] in E.
  - now inversion E.
  - apply bind_ok in E as (s1 & E1 & E). rewrite (IH _ _ E).
    exact (sample_prediction_keeps_params _ _ _ E1).
Qed.

(** The stages of a successful run. *)
Lemma train_stages (script_dir : string) (epochs n : nat) (lr : R) (g : rng)
  (fs : filesystem) (r : train_result rng) :
  train script_dir epochs n lr g fs = Ok r ->
  exists st0 g1 st1 g2 st2,
    let '((X, y), g0) := generate_training_data n g in
    init 4 16 3 g0 = Ok (st0, g1) /\
    run_epochs is_eval_epoch (split_dataset X y) lr (seq 0 epochs) (st0, g1) []
      = Ok (st1, g2, history r) /\
    params st2 = params st1 /\ params (trained r) = params st1 /\
    files r = export_weights st2 (weights_path script_dir) fs /\
    sizes st2 = sizes st1.
Proof.
  unfold train. intros E.
  destruct (generate_training_data n g) as [[X y] g0].
  destruct (length y =? 0)%nat; [discriminate |].
  apply bind_ok in E as ([st0 g1] & Ei & E).
  apply bind_ok in E as ([[st1 g2] h] & Erun & E).
  apply bind_ok in E as ([P st2] & Ef & E).
  apply bind_ok in E as (fa & _ & E).
  apply bind_ok in E as ([st3 g3] & Es & E).
  inversion E; subst. cbn [history trained files].
  exists st0, g1, st1, g2, st2.
  destruct (forward_keeps_params _ _ _ _ Ef) as [Hp Hsz].
  apply sample_predictions_keep_params in Es. cbn [fst] in Es.
  repeat split; try assumption. congruence.
Qed.
End TrainOutcome.

(** X22: the only file that a successful run of [train] writes is
    [weights.json] next to the script: every other path of the file system
    is as before, and the paths in use afterwards are that one and those
    in use before. *)
Theorem train_writes_one_file (RS : RandomState) (FR : FloatRepr)
  (script_dir : string) (epochs n : nat) (learning_rate : R) (g : rng)
  (fs : filesystem) (r : train_result rng) :
  train script_dir epochs n learning_rate g fs = Ok r ->
  (forall p, p <> weights_path script_dir -> files r !! p = fs !! p) /\
  dom (files r) = {[ weights_path script_dir ]} ∪ dom fs.
Proof.
  intros E.
  destruct (train_stages _ _ _ _ _ _ _ E) as (st0 & g1 & st1 & g2 & st2 & H).
  destruct (generate_training_data n g) as [[X y] g0].
  destruct H as (_ & _ & _ & _ & Hf & _). rewrite Hf. unfold export_weights.
  split.
  - intros p Hp. apply lookup_insert_ne. congruence.
  - apply dom_insert_L.
Qed.

Lemma train_writes_one_file_witness :
  exists r,
    train (H := fixed_random) (H0 := plain_repr) "models" 1 5 0.01 0%nat
      {[ "models/notes.txt"%string := "kept"%string ]} = Ok r /\
    files r !! "models/notes.txt"%string = Some "kept"%string.
Proof.
  destruct (train_ok (RS := fixed_random) (FR := plain_repr) "models" 1 5
              0.01 0%nat {[ "models/notes.txt"%string := "kept"%string ]})
    as (r & _ & E & _);
    [lia | right; apply split_index_pos; lia |].
  exists r. split; [exact E |].
  rewrite (proj1 (train_writes_one_file fixed_random plain_repr "models" 1 5
                    0.01 0%nat _ r E) "models/notes.txt"%string);
    [reflexivity | discriminate].
Defined.

(** ** Runs without samples or without epochs *)

(** X24: with no sample at all [train] raises before a classifier is built,
    on the class distribution of an array that has no second axis.  With at
    least one sample and no epoch it succeeds, logs nothing and returns and
    exports the classifier as the constructor initialised it. *)
Theorem train_without_samples_or_epochs (RS : RandomState) (FR : FloatRepr)
  (script_dir : string) (epochs n : nat) (learning_rate : R) (g : rng)
  (fs : filesystem) :
  (1 <= n)%nat ->
  train script_dir epochs 0 learning_rate g fs = Err ShapeMismatch /\
  exists r st0 g1,
    train script_dir 0 n learning_rate g fs = Ok r /\
    init 4 16 3 (snd (generate_training_data n g)) = Ok (st0, g1) /\
    history r = [] /\ params (trained r) = params st0 /\
    files r !! weights_path script_dir =
      Some (json_encode 0 (weights_document st0)).
Proof.
  intros Hn. split; [apply train_no_samples |].
  destruct (train_ok script_dir 0 n learning_rate g fs Hn)
    as (r & _ & E & _); [now left |].
  destruct (train_stages _ _ _ _ _ _ _ E) as (st0 & g1 & st1 & g2 & st2 & H).
  destruct (generate_training_data n g) as [[X y] g0]. cbn [snd].
  destruct H as (Ei & Er & Hp2 & Hpr & Hf2 & Hs2).
  cbn [seq run_epochs] in Er. inversion Er; subst st1 g2.
  exists r, st0, g1. repeat split; try assumption; auto.
  rewrite Hf2. unfold export_weights. rewrite lookup_insert_eq.
  do 2 f_equal. now apply weights_document_frame.
Qed.

Lemma train_without_samples_or_epochs_witness :
  train (H := fixed_random) (H0 := plain_repr) "models" 7 0 0.01 0%nat ∅
    = Err ShapeMismatch /\
  exists r, train (H := fixed_random) (H0 := plain_repr) "models" 0 1 0.01
              0%nat ∅ = Ok r /\ history r = [].
Proof.
  destruct (train_without_samples_or_epochs fixed_random plain_repr
              "models" 7 1 0.01 0%nat ∅) as (E0 & r & st0 & g1 & E & _ & Hh & _);
    [lia |].
  split; [exact E0 |]. exists r. split; [exact E | exact Hh].
Defined.

(** ** The sample predictions *)

Lemma firstn_one_skipn {A : Type} (l : list A) (i : nat) (d : A) :
  (i < length l)%nat -> firstn 1 (skipn i l) = [nth i l d].
Proof.
  revert i. induction l as [|a l IH]; intros i Hi; [cbn in Hi; lia |].
  destruct i as [|i]; [reflexivity |].
  cbn [skipn nth]. apply IH. cbn in Hi. lia.
Qed.

(** X25: one sample prediction draws an index into the evaluation subset
    and runs [forward] on that single row.  On an empty evaluation subset
    the draw raises.  Otherwise the step succeeds, consumes the one draw,
    leaves the parameters alone and replaces the cached activations by
    those of the one-row batch. *)
Theorem sample_prediction_result (RS : RandomState) (d : dataset)
  (st : model) (g : rng) :
  wf_model st = true -> wf_dataset (input_size st) 3 d = true ->
  output_size st = 3%nat ->
  (length (X_test d) = 0%nat ->
   sample_prediction d (st, g) = Err EmptyRange) /\
  ((1 <= length (X_test d))%nat ->
   let idx := fst (random_randint (length (X_test d)) g) in
   exists st',
     sample_prediction d (st, g) =
       Ok (st', snd (random_randint (length (X_test d)) g)) /\
     (idx < length (X_test d))%nat /\
     params st' = params st /\
     cache st' = Some (forward_activations st [nth idx (X_test d) []]) /\
     length (a2 (forward_activations st [nth idx (X_test d) []])) = 1%nat).
Proof.
  intros Hwf Hd Ho. split.
  - intros E. unfold sample_prediction. now rewrite E.
  - intros Hm. cbn zeta.
    destruct (sample_prediction_ok d st g Hwf Hd Ho Hm)
      as (st' & g' & E & _ & _ & Hp).
    pose proof (randint_lt (length (X_test d)) g Hm) as Hidx.
    destruct (wf_dataset_spec _ _ _ Hd) as (_ & _ & HXe & _).
    exists st'. rewrite E. unfold sample_prediction in E.
    destruct (length (X_test d) =? 0)%nat; [discriminate |].
    destruct (random_randint (length (X_test d)) g) as [idx g1].
    cbn [fst snd] in *.
    apply bind_ok in E as ([P st1] & Ef & E).
    apply bind_ok in E as (pr & _ & E). apply bind_ok in E as (yr & _ & E).
    apply bind_ok in E as (t & _ & E). apply bind_ok in E as (tn & _ & E).
    apply bind_ok in E as (p & _ & E). apply bind_ok in E as (pn & _ & E).
    inversion E; subst st1 g1.
    rewrite (firstn_one_skipn (X_test d) idx [] Hidx) in Ef.
    rewrite forward_spec in Ef; try assumption; try lia.
    + inversion Ef; subst. cbn [set_cache cache].
      repeat split; assumption.
    + cbn [length]. apply has_shape_spec. split; [reflexivity |].
      constructor; [| constructor].
      apply (has_shape_row _ _ _ idx HXe Hidx).
Qed.

Lemma sample_prediction_result_witness :
  exists st',
    sample_prediction (H := fixed_random)
      (mk_dataset [[1; 0]; [0; 1]] [[1; 1]]
         [[1; 0; 0]; [0; 0; 1]]%Z [[1; 0; 0]]%Z)
      (mk_model 2 1 3 [[1]; [-1]] [0] [[1; -1; 0]] [0; 0; 0] None, 0%nat)
    = Ok (st', 1%nat).
Proof.
  destruct (sample_prediction_result fixed_random
              (mk_dataset [[1; 0]; [0; 1]] [[1; 1]]
                 [[1; 0; 0]; [0; 0; 1]]%Z [[1; 0; 0]]%Z)
              (mk_model 2 1 3 [[1]; [-1]] [0] [[1; -1; 0]] [0; 0; 0] None)
              0%nat) as (_ & H); [reflexivity | reflexivity | reflexivity |].
  destruct H as (st' & E & _); [cbn; lia |].
  exists st'. exact E.
Defined.
